(** * django_etesync serializers: revision, etag and sync-token engine

    A shallow embedding of [django_etesync/serializers.py].  Python
    functions become Rocq functions; the Django database the serializers
    write to is an explicit record of tables threaded through a small
    state-and-exception monad; [transaction.atomic()] is a combinator that
    restores the tables when its body raises. *)

From Stdlib Require Import String Ascii NArith Arith Lia Bool List.
From Stdlib.Strings Require Import Byte.
From Stdlib.Sorting Require Import Sorted.
Import ListNotations.

(** ** Python values shared by the whole file *)

(** [bytes] objects. *)
Definition bytes := list byte.

(** [str] objects, as the list of their characters. *)
Definition str := list ascii.

(** The exceptions the serializers and the libraries under them raise. *)
Inductive Exn : Type :=
| ValidationError (msg : string)
| IntegrityError
| DoesNotExist
| MultipleObjectsReturned
| AttributeError
| NotImplementedError
| ValueError
| BinasciiError.

(** A bounded universal quantifier that computes. *)
Definition forall_below (k : nat) (f : nat -> bool) : bool :=
  forallb f (seq 0 k).

(** ** The base64url boundary encoding ([b64encode], [b64decode]) *)

Module Base64.

Definition byte_of_N (n : N) : byte :=
  match Byte.of_N (N.land n 255) with
  | Some b => b
  | None => x00
  end.

Definition pad_char : ascii := "="%char.

(** The standard alphabet of [binascii] ([table_b2a_base64]). *)
Definition table_b2a_base64 : str :=
  list_ascii_of_string
    "ABCDEFGHIJKLMNOPQRSTUVWXYZabcdefghijklmnopqrstuvwxyz0123456789+/".

Definition b2a (v : N) : ascii := nth (N.to_nat v) table_b2a_base64 pad_char.

Fixpoint index_of (c : ascii) (t : str) (i : N) : option N :=
  match t with
  | [] => None
  | x :: t' => if Ascii.eqb x c then Some i else index_of c t' (N.succ i)
  end.

(** [table_a2b_base64]: the inverse table, [None] for a character outside
    the alphabet. *)
Definition a2b (c : ascii) : option N := index_of c table_b2a_base64 0%N.

(** [binascii.b2a_base64(s, newline=False)]: three bytes give four
    characters, a tail of one or two bytes is padded with [=]. *)
Fixpoint b2a_base64 (s : bytes) : str :=
  match s with
  | [] => []
  | [b0] =>
      let n0 := Byte.to_N b0 in
      [ b2a (N.shiftr n0 2);
        b2a (N.shiftl (N.land n0 3) 4);
        pad_char; pad_char ]
  | [b0; b1] =>
      let n0 := Byte.to_N b0 in
      let n1 := Byte.to_N b1 in
      [ b2a (N.shiftr n0 2);
        b2a (N.lor (N.shiftl (N.land n0 3) 4) (N.shiftr n1 4));
        b2a (N.shiftl (N.land n1 15) 2);
        pad_char ]
  | b0 :: b1 :: b2 :: rest =>
      let n0 := Byte.to_N b0 in
      let n1 := Byte.to_N b1 in
      let n2 := Byte.to_N b2 in
      b2a (N.shiftr n0 2)
      :: b2a (N.lor (N.shiftl (N.land n0 3) 4) (N.shiftr n1 4))
      :: b2a (N.lor (N.shiftl (N.land n1 15) 2) (N.shiftr n2 6))
      :: b2a (N.land n2 63)
      :: b2a_base64 rest
  end.

(** [_urlsafe_encode_translation]: [+] becomes [-], [/] becomes [_]. *)
Definition urlsafe_encode_translation (c : ascii) : ascii :=
  if Ascii.eqb c "+" then "-"%char
  else if Ascii.eqb c "/" then "_"%char
  else c.

(** [_urlsafe_decode_translation]: [-] becomes [+], [_] becomes [/]. *)
Definition urlsafe_decode_translation (c : ascii) : ascii :=
  if Ascii.eqb c "-" then "+"%char
  else if Ascii.eqb c "_" then "/"%char
  else c.

(** [base64.urlsafe_b64encode(s)], already decoded as ASCII text. *)
Definition urlsafe_b64encode (s : bytes) : str :=
  map urlsafe_encode_translation (b2a_base64 s).

(** [str.lstrip], [str.rstrip] and [str.strip] for a one-character set. *)
Fixpoint lstrip (c : ascii) (s : str) : str :=
  match s with
  | [] => []
  | x :: t => if Ascii.eqb x c then lstrip c t else s
  end.

Definition rstrip (c : ascii) (s : str) : str := rev (lstrip c (rev s)).

Definition strip (c : ascii) (s : str) : str := rstrip c (lstrip c s).

(** [binascii.a2b_base64] in its default, non-strict mode: characters
    outside the alphabet are skipped, a pad sequence that completes a quad
    ends the parse, and a quad left open at the end of the input is an
    error. *)
Fixpoint a2b_loop (s : str) (quad_pos : nat) (leftchar : N) (pads : nat)
         (out : bytes) : Exn + bytes :=
  match s with
  | [] => if quad_pos =? 0 then inr out else inl BinasciiError
  | c :: rest =>
      if Ascii.eqb c pad_char then
        if 2 <=? quad_pos then
          if 4 <=? quad_pos + S pads then inr out
          else a2b_loop rest quad_pos leftchar (S pads) out
        else a2b_loop rest quad_pos leftchar pads out
      else
        match a2b c with
        | None => a2b_loop rest quad_pos leftchar pads out
        | Some v =>
            match quad_pos with
            | 0 => a2b_loop rest 1 v 0 out
            | 1 =>
                a2b_loop rest 2 (N.land v 15) 0
                  (out ++ [byte_of_N (N.lor (N.shiftl leftchar 2) (N.shiftr v 4))])
            | 2 =>
                a2b_loop rest 3 (N.land v 3) 0
                  (out ++ [byte_of_N (N.lor (N.shiftl leftchar 4) (N.shiftr v 2))])
            | _ =>
                a2b_loop rest 0 0 0
                  (out ++ [byte_of_N (N.lor (N.shiftl leftchar 6) v)])
            end
        end
  end.

Definition a2b_base64 (s : str) : Exn + bytes := a2b_loop s 0 0%N 0 [].

Definition is_ascii (c : ascii) : bool := (N_of_ascii c <? 128)%N.

(** [base64.urlsafe_b64decode(s)] for a [str] argument: the text must be
    ASCII, is translated back to the standard alphabet and decoded. *)
Definition urlsafe_b64decode (s : str) : Exn + bytes :=
  if forallb is_ascii s
  then a2b_base64 (map urlsafe_decode_translation s)
  else inl ValueError.

(** [def b64encode(value)] *)
Definition b64encode (value : bytes) : str :=
  strip pad_char (urlsafe_b64encode value).

(** [def b64decode(data)] *)
Definition b64decode (data : str) : Exn + bytes :=
  let data := data ++ repeat pad_char ((4 - length data mod 4) mod 4) in
  urlsafe_b64decode data.

(** *** Quantities the round-trip argument is stated with *)

(** What the decoder needs to know of the character written for a
    six-bit value. *)
Definition sextet_ok (v : N) : bool :=
  let c := urlsafe_encode_translation (b2a v) in
  negb (Ascii.eqb c pad_char)
  && is_ascii c
  && negb (Ascii.eqb (urlsafe_decode_translation c) pad_char)
  && match a2b (urlsafe_decode_translation c) with
     | Some w => N.eqb w v
     | None => false
     end.

Definition enc_char (v : N) : ascii := urlsafe_encode_translation (b2a v).

(** The six-bit values a group of bytes is cut into. *)
Definition s0 (a : byte) : N := N.shiftr (Byte.to_N a) 2.
Definition s1 (a b : byte) : N :=
  N.lor (N.shiftl (N.land (Byte.to_N a) 3) 4) (N.shiftr (Byte.to_N b) 4).
Definition s2 (b c : byte) : N :=
  N.lor (N.shiftl (N.land (Byte.to_N b) 15) 2) (N.shiftr (Byte.to_N c) 6).
Definition s3 (c : byte) : N := N.land (Byte.to_N c) 63.
Definition t1 (a : byte) : N := N.shiftl (N.land (Byte.to_N a) 3) 4.
Definition t2 (b : byte) : N := N.shiftl (N.land (Byte.to_N b) 15) 2.

Definition is_byte (n : N) (b : byte) : bool :=
  N.eqb (Byte.to_N (byte_of_N n)) (Byte.to_N b).

Definition check1 (a : byte) : bool :=
  (s0 a <? 64)%N && (s3 a <? 64)%N && (t1 a <? 64)%N && (t2 a <? 64)%N
  && is_byte (N.lor (N.shiftl (s0 a) 2) (N.shiftr (t1 a) 4)) a
  && is_byte (N.lor (N.shiftl (N.shiftr (Byte.to_N a) 4) 4)
                    (N.land (Byte.to_N a) 15)) a
  && N.eqb (N.shiftr (t2 a) 2) (N.land (Byte.to_N a) 15).

Definition check2 (a b : byte) : bool :=
  (s1 a b <? 64)%N && (s2 a b <? 64)%N
  && is_byte (N.lor (N.shiftl (s0 a) 2) (N.shiftr (s1 a b) 4)) a
  && N.eqb (N.land (s1 a b) 15) (N.shiftr (Byte.to_N b) 4)
  && N.eqb (N.shiftr (s2 a b) 2) (N.land (Byte.to_N a) 15)
  && is_byte (N.lor (N.shiftl (N.land (s2 a b) 3) 6) (s3 b)) b.

Definition dec (c : ascii) : ascii := urlsafe_decode_translation c.

Definition not_pad (c : ascii) : bool := negb (Ascii.eqb c pad_char).

End Base64.

(** ** The data model

    The rows of the Django models the serializers read and write.  Primary
    keys are natural numbers drawn from one sequence; a foreign key holds
    the primary key of the row it points to. *)

Definition Uid := string.

(** A user of the authentication backend, compared by primary key as
    Django model instances are. *)
Record User : Type := mkUser {
  user_pk : nat;
  user_username : string
}.

Definition user_eqb (u v : User) : bool := user_pk u =? user_pk v.

(** Modelled from the spec: [models.AccessLevels], the enumeration
    READ_ONLY, READ_WRITE, ADMIN of a membership's access level. *)
Inductive AccessLevels : Type := READ_ONLY | READ_WRITE | ADMIN.

Definition AccessLevels_eqb (a b : AccessLevels) : bool :=
  match a, b with
  | READ_ONLY, READ_ONLY | READ_WRITE, READ_WRITE | ADMIN, ADMIN => true
  | _, _ => false
  end.

Record Collection : Type := mkCollection {
  col_id : nat;
  col_uid : Uid;
  col_version : nat;
  col_owner : User
}.

Record CollectionItem : Type := mkCollectionItem {
  item_id : nat;
  item_uid : option Uid;
  item_version : nat;
  item_encryptionKey : option bytes;
  item_collection : nat
}.

(** A chunk row; the file behind [chunkFile] is represented by its
    content. *)
Record CollectionItemChunk : Type := mkCollectionItemChunk {
  chunk_id : nat;
  chunk_uid : Uid;
  chunk_item : nat;
  chunk_chunkFile : bytes
}.

(** [current] is a nullable boolean: [Some true] on the current revision,
    [None] once demoted. *)
Record CollectionItemRevision : Type := mkCollectionItemRevision {
  rev_id : nat;
  rev_uid : Uid;
  rev_item : nat;
  rev_stoken : nat;
  rev_meta : bytes;
  rev_deleted : bool;
  rev_current : option bool
}.

Record RevisionChunkRelation : Type := mkRevisionChunkRelation {
  rel_id : nat;
  rel_chunk : nat;
  rel_revision : nat
}.

Record CollectionMember : Type := mkCollectionMember {
  mem_id : nat;
  mem_collection : nat;
  mem_stoken : nat;
  mem_user : User;
  mem_accessLevel : AccessLevels;
  mem_encryptionKey : bytes
}.

(** An invitation row.  [inv_collection] is the collection of the inviting
    member, which the source reads as [invitation.collection]. *)
Record CollectionInvitation : Type := mkCollectionInvitation {
  inv_id : nat;
  inv_uid : Uid;
  inv_collection : nat;
  inv_fromMember : nat;
  inv_user : User;
  inv_accessLevel : AccessLevels;
  inv_signedEncryptionKey : bytes;
  inv_version : nat
}.

(** The database: one list per table in insertion order, the rows of the
    [Stoken] table, and the primary-key sequence. *)
Record DB : Type := mkDB {
  db_collections : list Collection;
  db_items : list CollectionItem;
  db_chunks : list CollectionItemChunk;
  db_stokens : list nat;
  db_revisions : list CollectionItemRevision;
  db_relations : list RevisionChunkRelation;
  db_members : list CollectionMember;
  db_invitations : list CollectionInvitation;
  db_next_id : nat
}.

Definition empty_db : DB := mkDB [] [] [] [] [] [] [] [] 0.

Definition set_collections (x : list Collection) (db : DB) : DB :=
  mkDB x (db_items db) (db_chunks db) (db_stokens db) (db_revisions db)
       (db_relations db) (db_members db) (db_invitations db) (db_next_id db).

Definition set_items (x : list CollectionItem) (db : DB) : DB :=
  mkDB (db_collections db) x (db_chunks db) (db_stokens db) (db_revisions db)
       (db_relations db) (db_members db) (db_invitations db) (db_next_id db).

Definition set_chunks (x : list CollectionItemChunk) (db : DB) : DB :=
  mkDB (db_collections db) (db_items db) x (db_stokens db) (db_revisions db)
       (db_relations db) (db_members db) (db_invitations db) (db_next_id db).

Definition set_stokens (x : list nat) (db : DB) : DB :=
  mkDB (db_collections db) (db_items db) (db_chunks db) x (db_revisions db)
       (db_relations db) (db_members db) (db_invitations db) (db_next_id db).

Definition set_revisions (x : list CollectionItemRevision) (db : DB) : DB :=
  mkDB (db_collections db) (db_items db) (db_chunks db) (db_stokens db) x
       (db_relations db) (db_members db) (db_invitations db) (db_next_id db).

Definition set_relations (x : list RevisionChunkRelation) (db : DB) : DB :=
  mkDB (db_collections db) (db_items db) (db_chunks db) (db_stokens db)
       (db_revisions db) x (db_members db) (db_invitations db) (db_next_id db).

Definition set_members (x : list CollectionMember) (db : DB) : DB :=
  mkDB (db_collections db) (db_items db) (db_chunks db) (db_stokens db)
       (db_revisions db) (db_relations db) x (db_invitations db) (db_next_id db).

Definition set_invitations (x : list CollectionInvitation) (db : DB) : DB :=
  mkDB (db_collections db) (db_items db) (db_chunks db) (db_stokens db)
       (db_revisions db) (db_relations db) (db_members db) x (db_next_id db).

Definition set_next_id (x : nat) (db : DB) : DB :=
  mkDB (db_collections db) (db_items db) (db_chunks db) (db_stokens db)
       (db_revisions db) (db_relations db) (db_members db) (db_invitations db) x.

(** ** Database code as a state-and-exception monad *)

Definition M (A : Type) : Type := DB -> (Exn + A) * DB.

Definition ret {A : Type} (a : A) : M A := fun db => (inr a, db).

Definition raise {A : Type} (e : Exn) : M A := fun db => (inl e, db).

Definition bind {A B : Type} (m : M A) (k : A -> M B) : M B :=
  fun db =>
    match m db with
    | (inr a, db1) => k a db1
    | (inl e, db1) => (inl e, db1)
    end.

Notation "x <- m ;; k" := (bind m (fun x => k))
  (at level 61, m at next level, right associativity).
Notation "m ;;; k" := (bind m (fun _ => k))
  (at level 61, right associativity).

Definition get_db : M DB := fun db => (inr db, db).

Definition modify (f : DB -> DB) : M unit := fun db => (inr tt, f db).

Definition lift {A : Type} (r : Exn + A) : M A :=
  match r with
  | inl e => raise e
  | inr a => ret a
  end.

(** [with transaction.atomic():] every write of the body is undone when it
    raises. *)
Definition atomic {A : Type} (m : M A) : M A :=
  fun db =>
    match m db with
    | (inl e, _) => (inl e, db)
    | (inr a, db1) => (inr a, db1)
    end.

(** The next value of the primary-key sequence. *)
Definition fresh_id : M nat :=
  fun db => (inr (db_next_id db), set_next_id (S (db_next_id db)) db).

(** [QuerySet.get]: exactly one matching row, or an exception. *)
Definition objects_get {A : Type} (p : A -> bool) (rows : list A) : Exn + A :=
  match filter p rows with
  | [] => inl DoesNotExist
  | [x] => inr x
  | _ :: _ :: _ => inl MultipleObjectsReturned
  end.

(** [QuerySet.first]: the first matching row in primary-key order, or
    [None]. *)
Definition objects_first {A : Type} (p : A -> bool) (rows : list A) : option A :=
  hd_error (filter p rows).

(** [Model.save] on a row that has a primary key: UPDATE that row, INSERT
    when no row has the key. *)
Definition save_by_id {A : Type} (id_of : A -> nat) (x : A) (rows : list A) : list A :=
  if existsb (fun y => id_of y =? id_of x) rows
  then map (fun y => if id_of y =? id_of x then x else y) rows
  else rows ++ [x].

Definition opt_uid_eqb (a b : option Uid) : bool :=
  match a, b with
  | None, None => true
  | Some x, Some y => String.eqb x y
  | _, _ => false
  end.

Definition opt_bool_eqb (a b : option bool) : bool :=
  match a, b with
  | None, None => true
  | Some x, Some y => Bool.eqb x y
  | _, _ => false
  end.

(** ** The models' behaviour the serializers rely on *)

(** Modelled from the spec: [models.Stoken.objects.create()], the stoken
    allocator of models.py.  It inserts a row in the [Stoken] table whose
    token is strictly greater than every token already in the table. *)
Definition Stoken_create : M nat :=
  fun db =>
    let t := S (list_max (db_stokens db)) in
    (inr t, set_stokens (db_stokens db ++ [t]) db).

Definition is_current (r : CollectionItemRevision) : bool :=
  opt_bool_eqb (rev_current r) (Some true).

(** [item.revisions.filter(current=True)] *)
Definition current_revisions (db : DB) (item : nat) : list CollectionItemRevision :=
  filter (fun r => (rev_item r =? item) && is_current r) (db_revisions db).

(** The unique constraint on a revision's [(item, current)] pair that the
    source's comment names: two rows of one item clash when they carry the
    same non-null [current].  [current_taken rows item c] tells whether a
    row of [rows] already holds the pair. *)
Definition current_taken (rows : list CollectionItemRevision)
           (item : nat) (c : option bool) : bool :=
  match c with
  | None => false
  | Some b =>
      existsb (fun r' => (rev_item r' =? item)
                         && opt_bool_eqb (rev_current r') (Some b)) rows
  end.

(** Whether an item has a revision marked current: the constraint when a
    current revision is inserted. *)
Definition has_current (db : DB) (item : nat) : bool :=
  current_taken (db_revisions db) item (Some true).

(** The constraint when a row is updated: the other rows count. *)
Definition violates_unique_current
           (rows : list CollectionItemRevision) (r : CollectionItemRevision) : bool :=
  current_taken (filter (fun r' => negb (rev_id r' =? rev_id r)) rows)
    (rev_item r) (rev_current r).

(** Modelled from the spec: the [etag] property of [models.CollectionItem],
    the uid of the item's current revision, or the no-prior-state sentinel
    [None] when it has none. *)
Definition CollectionItem_etag (db : DB) (item : CollectionItem) : option Uid :=
  match current_revisions db (item_id item) with
  | [] => None
  | r :: _ => Some (rev_uid r)
  end.

(** Modelled from the spec: the [main_item] property of
    [models.Collection], the item with a null uid owned by the
    collection. *)
Definition Collection_main_item (db : DB) (c : Collection) : Exn + CollectionItem :=
  objects_get (fun it => (item_collection it =? col_id c)
                         && opt_uid_eqb (item_uid it) None) (db_items db).

(** Modelled from the spec: the [etag] property of [models.Collection],
    the etag of its main item. *)
Definition Collection_etag (db : DB) (c : Collection) : Exn + option Uid :=
  match Collection_main_item db c with
  | inl e => inl e
  | inr it => inr (CollectionItem_etag db it)
  end.

(** Modelled from the spec: the uniqueness of a membership per
    [(collection, user)] pair (invariant I3 of the data model). *)
Definition member_taken (rows : list CollectionMember)
           (collection : nat) (user : User) : bool :=
  existsb (fun m' => (mem_collection m' =? collection)
                     && user_eqb (mem_user m') user) rows.

(** The constraint when a membership row is updated: the other rows
    count. *)
Definition violates_unique_member
           (rows : list CollectionMember) (m : CollectionMember) : bool :=
  member_taken (filter (fun m' => negb (mem_id m' =? mem_id m)) rows)
    (mem_collection m) (mem_user m).

(** [str.format] of a nullable string. *)
Definition py_format (v : option Uid) : string :=
  match v with
  | None => "None"
  | Some s => s
  end.

Definition wrong_etag_msg (expected got : option Uid) : string :=
  ("Wrong etag. Expected " ++ py_format expected ++ " got " ++ py_format got)%string.

(** ** [process_revisions_for_item] *)

(** A chunk reference as the function receives it: the tuple [(uid,)] or
    [(uid, content)]. *)
Definition ChunkRef : Type := (Uid * option bytes)%type.

(** [revision_data] once [chunks_relation] is popped, and the chunk list. *)
Record RevisionData : Type := mkRevisionData {
  rd_chunks_relation : list ChunkRef;
  rd_uid : Uid;
  rd_meta : bytes;
  rd_deleted : bool
}.

(** [models.CollectionItemChunk.objects.get(uid=uid)] *)
Definition CollectionItemChunk_get (uid : Uid) : M CollectionItemChunk :=
  db <- get_db ;;
  lift (objects_get (fun c => String.eqb (chunk_uid c) uid) (db_chunks db)).

(** The [for chunk in chunks] loop, [chunks_objs] being the accumulator.
    A reference with content always builds and saves a new chunk row for
    the item; a reference without content is looked up by uid. *)
Fixpoint store_chunks (item : CollectionItem) (chunks : list ChunkRef)
         (chunks_objs : list CollectionItemChunk) : M (list CollectionItemChunk) :=
  match chunks with
  | [] => ret chunks_objs
  | (uid, Some content) :: rest =>
      pk <- fresh_id ;;
      let chunk := mkCollectionItemChunk pk uid (item_id item) content in
      modify (fun db => set_chunks (db_chunks db ++ [chunk]) db) ;;;
      store_chunks item rest (chunks_objs ++ [chunk])
  | (uid, None) :: rest =>
      chunk <- CollectionItemChunk_get uid ;;
      store_chunks item rest (chunks_objs ++ [chunk])
  end.

(** [models.CollectionItemRevision.objects.create] with the fields of
    [revision_data], [item=item] and [stoken=stoken].  Modelled from the
    spec: the [current] field, which the call does not pass, defaults to
    true. *)
Definition CollectionItemRevision_create
           (revision_data : RevisionData) (item : CollectionItem) (stoken : nat)
  : M CollectionItemRevision :=
  pk <- fresh_id ;;
  let revision :=
    mkCollectionItemRevision pk (rd_uid revision_data) (item_id item) stoken
      (rd_meta revision_data) (rd_deleted revision_data) (Some true) in
  db <- get_db ;;
  if has_current db (item_id item)
  then raise IntegrityError
  else
    modify (fun db => set_revisions (db_revisions db ++ [revision]) db) ;;;
    ret revision.

(** The [for chunk in chunks_objs] loop creating the join rows. *)
Fixpoint link_chunks (revision : CollectionItemRevision)
         (chunks_objs : list CollectionItemChunk) : M unit :=
  match chunks_objs with
  | [] => ret tt
  | chunk :: rest =>
      pk <- fresh_id ;;
      modify (fun db =>
        set_relations
          (db_relations db
           ++ [mkRevisionChunkRelation pk (chunk_id chunk) (rev_id revision)]) db) ;;;
      link_chunks revision rest
  end.

(** [def process_revisions_for_item(item, revision_data)] *)
Definition process_revisions_for_item
           (item : CollectionItem) (revision_data : RevisionData)
  : M CollectionItemRevision :=
  chunks_objs <- store_chunks item (rd_chunks_relation revision_data) [] ;;
  stoken <- Stoken_create ;;
  revision <- CollectionItemRevision_create revision_data item stoken ;;
  link_chunks revision chunks_objs ;;;
  ret revision.

(** ** [CollectionItemSerializer] *)

(** [validated_data] of an item upsert; [ivd_collection] is the collection
    the view saves the item into. *)
Record ItemData : Type := mkItemData {
  ivd_uid : option Uid;
  ivd_version : nat;
  ivd_encryptionKey : bytes;
  ivd_collection : nat;
  ivd_content : RevisionData;
  ivd_etag : option Uid
}.

(** [Model.objects.get_or_create(uid=uid, defaults=validated_data)] *)
Definition CollectionItem_get_or_create (uid : option Uid) (defaults : ItemData)
  : M (CollectionItem * bool) :=
  db <- get_db ;;
  match filter (fun it => opt_uid_eqb (item_uid it) uid) (db_items db) with
  | [] =>
      pk <- fresh_id ;;
      let instance :=
        mkCollectionItem pk uid (ivd_version defaults)
          (Some (ivd_encryptionKey defaults)) (ivd_collection defaults) in
      modify (fun db => set_items (db_items db ++ [instance]) db) ;;;
      ret (instance, true)
  | [instance] => ret (instance, false)
  | _ :: _ :: _ => raise MultipleObjectsReturned
  end.

(** [revision.save()] *)
Definition CollectionItemRevision_save (r : CollectionItemRevision) : M unit :=
  db <- get_db ;;
  if violates_unique_current (db_revisions db) r
  then raise IntegrityError
  else modify (fun db => set_revisions (save_by_id rev_id r (db_revisions db)) db).

Definition set_current (c : option bool) (r : CollectionItemRevision)
  : CollectionItemRevision :=
  mkCollectionItemRevision (rev_id r) (rev_uid r) (rev_item r) (rev_stoken r)
    (rev_meta r) (rev_deleted r) c.

(** The demotion both serializers perform:
    [current_revision = item.revisions.filter(current=True).first()],
    [current_revision.current = None], [current_revision.save()].
    Assigning to the attribute of [None] raises [AttributeError]. *)
Definition demote_current_revision (item : CollectionItem) : M unit :=
  db <- get_db ;;
  match hd_error (current_revisions db (item_id item)) with
  | None => raise AttributeError
  | Some current_revision =>
      CollectionItemRevision_save (set_current None current_revision)
  end.

(** [CollectionItemSerializer.create(self, validated_data)];
    [validate_etag] is [self.context.get('validate_etag', False)]. *)
Definition CollectionItemSerializer_create
           (validate_etag : bool) (validated_data : ItemData) : M CollectionItem :=
  let etag := ivd_etag validated_data in
  let revision_data := ivd_content validated_data in
  let uid := ivd_uid validated_data in
  atomic (
    p <- CollectionItem_get_or_create uid validated_data ;;
    let '(instance, created) := p in
    db <- get_db ;;
    let cur_etag := if negb created then CollectionItem_etag db instance else None in
    if validate_etag && negb (opt_uid_eqb cur_etag etag)
    then raise (ValidationError (wrong_etag_msg cur_etag etag))
    else
      (if negb created then demote_current_revision instance else ret tt) ;;;
      process_revisions_for_item instance revision_data ;;;
      ret instance).

(** ** [CollectionSerializer] *)

(** [validated_data] of a collection create; [cvd_owner] is the owner the
    view passes to [save]. *)
Record CollectionData : Type := mkCollectionData {
  cvd_uid : Uid;
  cvd_version : nat;
  cvd_owner : User;
  cvd_encryptionKey : bytes;
  cvd_content : RevisionData;
  cvd_etag : option Uid
}.

(** [CollectionSerializer.create(self, validated_data)] *)
Definition CollectionSerializer_create (validated_data : CollectionData)
  : M Collection :=
  let etag := cvd_etag validated_data in
  let revision_data := cvd_content validated_data in
  let encryption_key := cvd_encryptionKey validated_data in
  atomic (
    match etag with
    | Some _ => raise (ValidationError "Stoken is not None")
    | None =>
        pk <- fresh_id ;;
        let instance :=
          mkCollection pk (cvd_uid validated_data) (cvd_version validated_data)
            (cvd_owner validated_data) in
        modify (fun db => set_collections (db_collections db ++ [instance]) db) ;;;
        ipk <- fresh_id ;;
        let main_item :=
          mkCollectionItem ipk None (col_version instance) None (col_id instance) in
        modify (fun db => set_items (db_items db ++ [main_item]) db) ;;;
        process_revisions_for_item main_item revision_data ;;;
        stoken <- Stoken_create ;;
        mpk <- fresh_id ;;
        let member :=
          mkCollectionMember mpk (col_id instance) stoken
            (cvd_owner validated_data) ADMIN encryption_key in
        db <- get_db ;;
        if member_taken (db_members db) (col_id instance) (cvd_owner validated_data)
        then raise IntegrityError
        else
          modify (fun db => set_members (db_members db ++ [member]) db) ;;;
          ret instance
    end).

(** [CollectionSerializer.update(self, instance, validated_data)] *)
Definition CollectionSerializer_update
           (instance : Collection) (etag : option Uid) (revision_data : RevisionData)
  : M Collection :=
  atomic (
    db <- get_db ;;
    instance_etag <- lift (Collection_etag db instance) ;;
    if negb (opt_uid_eqb etag instance_etag)
    then raise (ValidationError (wrong_etag_msg instance_etag etag))
    else
      main_item <- lift (Collection_main_item db instance) ;;
      demote_current_revision main_item ;;;
      process_revisions_for_item main_item revision_data ;;;
      ret instance).

(** ** [CollectionMemberSerializer] *)

(** [instance.save()] of a membership. *)
Definition CollectionMember_save (m : CollectionMember) : M unit :=
  db <- get_db ;;
  if violates_unique_member (db_members db) m
  then raise IntegrityError
  else modify (fun db => set_members (save_by_id mem_id m (db_members db)) db).

(** [CollectionMemberSerializer.update(self, instance, validated_data)] *)
Definition CollectionMemberSerializer_update
           (instance : CollectionMember) (access_level : AccessLevels)
  : M CollectionMember :=
  atomic (
    if negb (AccessLevels_eqb (mem_accessLevel instance) access_level)
    then
      stoken <- Stoken_create ;;
      let instance :=
        mkCollectionMember (mem_id instance) (mem_collection instance) stoken
          (mem_user instance) access_level (mem_encryptionKey instance) in
      CollectionMember_save instance ;;;
      ret instance
    else ret instance).

(** ** [CollectionInvitationSerializer] *)

(** The Python values [validate_user] can be handed: a [User] instance or
    a [str]. *)
Inductive PyVal : Type :=
| PyUser (u : User)
| PyStr (s : string).

(** [a == b]: a model instance and a string are never equal. *)
Definition py_eq (a b : PyVal) : bool :=
  match a, b with
  | PyUser u, PyUser v => user_eqb u v
  | PyStr s, PyStr t => String.eqb s t
  | _, _ => false
  end.

Definition ascii_lower (c : ascii) : ascii :=
  let n := nat_of_ascii c in
  if (65 <=? n) && (n <=? 90) then ascii_of_nat (n + 32) else c.

Fixpoint str_lower (s : string) : string :=
  match s with
  | EmptyString => EmptyString
  | String c s' => String (ascii_lower c) (str_lower s')
  end.

(** [value.lower()]: a string method, [AttributeError] on a [User]. *)
Definition py_lower (v : PyVal) : Exn + PyVal :=
  match v with
  | PyStr s => inr (PyStr (str_lower s))
  | PyUser _ => inl AttributeError
  end.

(** [CollectionInvitationSerializer.validate_user(self, value)];
    [request_user] is [self.context['request'].user]. *)
Definition validate_user (request_user : User) (value : PyVal) : Exn + PyVal :=
  match py_lower value with
  | inl e => inl e
  | inr lowered =>
      if py_eq (PyUser request_user) lowered
      then inl (ValidationError "Inviting yourself is not allowed")
      else inr value
  end.

(** The serializer's field-level validation: for a declared field the
    framework calls the method named [validate_] followed by the field's
    name, when the class has one. *)
Definition field_validator
           (methods : list (string * (PyVal -> Exn + PyVal))) (field_name : string)
  : option (PyVal -> Exn + PyVal) :=
  option_map snd
    (find (fun m => String.eqb (fst m) ("validate_" ++ field_name)%string) methods).

Definition run_field_validation
           (methods : list (string * (PyVal -> Exn + PyVal)))
           (field_name : string) (value : PyVal) : Exn + PyVal :=
  match field_validator methods field_name with
  | Some validate_method => validate_method value
  | None => inr value
  end.

(** [validated_data] of an invitation once [collection] is popped; the
    invited user is the [User] the [username] field resolved. *)
Record InvitationData : Type := mkInvitationData {
  nvd_user : User;
  nvd_uid : Uid;
  nvd_signedEncryptionKey : bytes;
  nvd_accessLevel : AccessLevels;
  nvd_version : nat
}.

(** The [validate_*] methods [CollectionInvitationSerializer] defines. *)
Definition CollectionInvitationSerializer_methods (request_user : User)
  : list (string * (PyVal -> Exn + PyVal)) :=
  [("validate_user"%string, validate_user request_user)].

(** Validation of the invited user: the serializer declares it as the
    field [username] (with source [user]). *)
Definition CollectionInvitationSerializer_validate
           (request_user : User) (validated_data : InvitationData) : Exn + PyVal :=
  run_field_validation (CollectionInvitationSerializer_methods request_user)
    "username" (PyUser (nvd_user validated_data)).

(** [collection.members.get(user=request.user)] *)
Definition Collection_members_get (collection : Collection) (user : User)
  : M CollectionMember :=
  db <- get_db ;;
  lift (objects_get (fun m => (mem_collection m =? col_id collection)
                              && user_eqb (mem_user m) user) (db_members db)).

(** [CollectionInvitationSerializer.create(self, validated_data)];
    [collection] is [validated_data.pop('collection')]. *)
Definition CollectionInvitationSerializer_create
           (request_user : User) (collection : Collection)
           (validated_data : InvitationData) : M CollectionInvitation :=
  member <- Collection_members_get collection request_user ;;
  atomic (
    pk <- fresh_id ;;
    let invitation :=
      mkCollectionInvitation pk (nvd_uid validated_data) (mem_collection member)
        (mem_id member) (nvd_user validated_data) (nvd_accessLevel validated_data)
        (nvd_signedEncryptionKey validated_data) (nvd_version validated_data) in
    modify (fun db => set_invitations (db_invitations db ++ [invitation]) db) ;;;
    ret invitation).

(** Issuing an invitation: validation, then [create]. *)
Definition invite (request_user : User) (collection : Collection)
           (validated_data : InvitationData) : M CollectionInvitation :=
  lift (CollectionInvitationSerializer_validate request_user validated_data) ;;;
  CollectionInvitationSerializer_create request_user collection validated_data.

(** [CollectionInvitationSerializer.update(self, instance, validated_data)] *)
Definition CollectionInvitationSerializer_update
           (instance : CollectionInvitation)
           (accessLevel : AccessLevels) (signedEncryptionKey : bytes)
  : M CollectionInvitation :=
  atomic (
    let instance :=
      mkCollectionInvitation (inv_id instance) (inv_uid instance)
        (inv_collection instance) (inv_fromMember instance) (inv_user instance)
        accessLevel signedEncryptionKey (inv_version instance) in
    modify (fun db =>
      set_invitations (save_by_id inv_id instance (db_invitations db)) db) ;;;
    ret instance).

(** ** [InvitationAcceptSerializer] *)

(** [models.CollectionMember.objects.create(...)] *)
Definition CollectionMember_create
           (collection stoken : nat) (user : User) (accessLevel : AccessLevels)
           (encryptionKey : bytes) : M CollectionMember :=
  pk <- fresh_id ;;
  let member :=
    mkCollectionMember pk collection stoken user accessLevel encryptionKey in
  db <- get_db ;;
  if member_taken (db_members db) collection user
  then raise IntegrityError
  else
    modify (fun db => set_members (db_members db ++ [member]) db) ;;;
    ret member.

(** [invitation.delete()] *)
Definition CollectionInvitation_delete (invitation : CollectionInvitation) : M unit :=
  modify (fun db =>
    set_invitations
      (filter (fun i => negb (inv_id i =? inv_id invitation)) (db_invitations db)) db).

(** [InvitationAcceptSerializer.create(self, validated_data)];
    [invitation] is [self.context['invitation']]. *)
Definition InvitationAcceptSerializer_create
           (invitation : CollectionInvitation) (encryption_key : bytes)
  : M CollectionMember :=
  atomic (
    stoken <- Stoken_create ;;
    member <- CollectionMember_create (inv_collection invitation) stoken
                (inv_user invitation) (inv_accessLevel invitation) encryption_key ;;
    CollectionInvitation_delete invitation ;;;
    ret member).

(** ** Sequences of mutations *)

(** One call of a mutating serializer method. *)
Inductive Op : Type :=
| ItemUpsert (validate_etag : bool) (validated_data : ItemData)
| CollectionCreate (validated_data : CollectionData)
| CollectionUpdate (instance : Collection) (etag : option Uid)
                   (revision_data : RevisionData)
| MemberUpdate (instance : CollectionMember) (access_level : AccessLevels)
| InvitationCreate (request_user : User) (collection : Collection)
                   (validated_data : InvitationData)
| InvitationUpdate (instance : CollectionInvitation)
                   (accessLevel : AccessLevels) (signedEncryptionKey : bytes)
| InvitationAccept (invitation : CollectionInvitation) (encryption_key : bytes).

Definition outcome {A : Type} (r : (Exn + A) * DB) : (option Exn) * DB :=
  match r with
  | (inl e, db) => (Some e, db)
  | (inr _, db) => (None, db)
  end.

(** Runs one call: the exception it raised, if any, and the database it
    leaves. *)
Definition exec (o : Op) (db : DB) : (option Exn) * DB :=
  match o with
  | ItemUpsert v d => outcome (CollectionItemSerializer_create v d db)
  | CollectionCreate d => outcome (CollectionSerializer_create d db)
  | CollectionUpdate c e rd => outcome (CollectionSerializer_update c e rd db)
  | MemberUpdate m a => outcome (CollectionMemberSerializer_update m a db)
  | InvitationCreate u c d => outcome (invite u c d db)
  | InvitationUpdate i a k => outcome (CollectionInvitationSerializer_update i a k db)
  | InvitationAccept i k => outcome (InvitationAcceptSerializer_create i k db)
  end.

(** The database after a sequence of calls, committed in order. *)
Definition run (ops : list Op) (db : DB) : DB :=
  fold_left (fun d o => snd (exec o d)) ops db.

(** The stokens a call allocated: the rows it added to the [Stoken]
    table. *)
Definition allocated (o : Op) (db : DB) : list nat :=
  skipn (length (db_stokens db)) (db_stokens (snd (exec o db))).

(** The number of revisions of an item that are marked current. *)
Definition count_current (db : DB) (item : nat) : nat :=
  length (current_revisions db item).

Definition item_exists (db : DB) (item : nat) : bool :=
  existsb (fun it => item_id it =? item) (db_items db).

(** ** Definitions the properties are stated with *)

(** The chunk rows a run of the chunk loop saved: the objects at the
    positions of the references that carried content. *)
Fixpoint stored (chunks : list ChunkRef) (objs : list CollectionItemChunk)
  : list CollectionItemChunk :=
  match chunks, objs with
  | (_, Some _) :: cs, o :: os => o :: stored cs os
  | (_, None) :: cs, _ :: os => stored cs os
  | _, _ => []
  end.

(** The chunk object a reference led to: it carries the reference's uid
    and is a row of the table; for a reference with content it belongs to
    the item and holds that content. *)
Definition resolves (item : CollectionItem) (table : list CollectionItemChunk)
           (ref : ChunkRef) (obj : CollectionItemChunk) : Prop :=
  chunk_uid obj = fst ref /\ In obj table
  /\ match snd ref with
     | Some content => chunk_item obj = item_id item /\ chunk_chunkFile obj = content
     | None => True
     end.

(** The join rows the link loop inserts, from primary key [pk] on. *)
Fixpoint new_relations (pk revision : nat) (objs : list CollectionItemChunk)
  : list RevisionChunkRelation :=
  match objs with
  | [] => []
  | c :: rest =>
      mkRevisionChunkRelation pk (chunk_id c) revision
      :: new_relations (S pk) revision rest
  end.

(** The revision row [process_revisions_for_item] inserts. *)
Definition new_revision (item : CollectionItem) (rd : RevisionData) (pk stoken : nat)
  : CollectionItemRevision :=
  mkCollectionItemRevision pk (rd_uid rd) (item_id item) stoken
    (rd_meta rd) (rd_deleted rd) (Some true).

Definition is_ok {A : Type} (r : (Exn + A) * DB) : bool :=
  match fst r with
  | inr _ => true
  | inl _ => false
  end.

Definition uid_count (uid : Uid) (uids : list Uid) : nat :=
  length (filter (fun u => String.eqb u uid) uids).

(** Whether the chunk loop gets through a list of references when the
    chunk table holds rows with the uids [uids]: a reference with content
    adds a row, a reference without content needs exactly one row with its
    uid. *)
Fixpoint refs_resolve (uids : list Uid) (chunks : list ChunkRef) : bool :=
  match chunks with
  | [] => true
  | (uid, Some _) :: rest => refs_resolve (uids ++ [uid]) rest
  | (uid, None) :: rest => (uid_count uid uids =? 1) && refs_resolve uids rest
  end.

Definition cur_of (item : nat) (r : CollectionItemRevision) : bool :=
  (rev_item r =? item) && is_current r.

(** The state of the item and revision tables between two calls
    ([hole = None]), and inside an upsert between the demotion and the
    insertion of the new revision ([hole = Some i], item [i] having no
    current revision): primary keys are below the sequence and unique, a
    revision belongs to a stored item, and every stored item has exactly
    one current revision. *)
Definition inv_on (hole : option nat) (items : list CollectionItem)
           (revs : list CollectionItemRevision) (n : nat) : Prop :=
  Forall (fun r => rev_id r < n) revs
  /\ NoDup (map rev_id revs)
  /\ Forall (fun it => item_id it < n) items
  /\ Forall (fun r => In (rev_item r) (map item_id items)) revs
  /\ Forall (fun it =>
       length (filter (cur_of (item_id it)) revs)
       = match hole with
         | Some h => if item_id it =? h then 0 else 1
         | None => 1
         end) items.

Definition Inv (db : DB) : Prop :=
  inv_on None (db_items db) (db_revisions db) (db_next_id db).

(** The demotion as a map over the table: the row with the demoted
    revision's key loses its [current] mark. *)
Definition demote_row (pk : nat) (y : CollectionItemRevision) : CollectionItemRevision :=
  if rev_id y =? pk then set_current None y else y.

(** The result of a transaction whose last step is
    [process_revisions_for_item] and which returns [instance]. *)
Definition commit_revision {A : Type} (instance : A) (db : DB)
           (r : (Exn + CollectionItemRevision) * DB) : (Exn + A) * DB :=
  match r with
  | (inl e, _) => (inl e, db)
  | (inr _, db') => (inr instance, db')
  end.

(** The item row [get_or_create] inserts. *)
Definition created_item (d : ItemData) (db : DB) : CollectionItem :=
  mkCollectionItem (db_next_id db) (ivd_uid d) (ivd_version d)
    (Some (ivd_encryptionKey d)) (ivd_collection d).

Definition items_with_uid (db : DB) (uid : option Uid) : list CollectionItem :=
  filter (fun it => opt_uid_eqb (item_uid it) uid) (db_items db).

(** The rows a collection create inserts before the revision. *)
Definition created_collection (d : CollectionData) (db : DB) : Collection :=
  mkCollection (db_next_id db) (cvd_uid d) (cvd_version d) (cvd_owner d).

Definition created_main_item (d : CollectionData) (db : DB) : CollectionItem :=
  mkCollectionItem (S (db_next_id db)) None (cvd_version d) None (db_next_id db).

Definition created_member (d : CollectionData) (db : DB) (db' : DB) : CollectionMember :=
  mkCollectionMember (db_next_id db') (db_next_id db) (S (list_max (db_stokens db')))
    (cvd_owner d) ADMIN (cvd_encryptionKey d).

(** The etag an upsert of [uid] is compared with: the etag of the item
    carrying the uid, the sentinel [None] when there is no such item. *)
Definition current_etag (db : DB) (uid : option Uid) : option Uid :=
  match items_with_uid db uid with
  | [instance] => CollectionItem_etag db instance
  | _ => None
  end.

(** No two stored items carry the same uid text. *)
Definition uid_unique (db : DB) : Prop :=
  forall u, length (items_with_uid db (Some u)) <= 1.

(** [ascending m l]: [l] is strictly increasing and above [m]. *)
Fixpoint ascending (m : nat) (l : list nat) : Prop :=
  match l with
  | [] => True
  | x :: rest => m < x /\ ascending x rest
  end.

(** ** A worked scenario *)

Section Scenario.

Open Scope string_scope.
Open Scope list_scope.

Definition alice : User := mkUser 1 "alice".
Definition bob : User := mkUser 2 "bob".

(** Alice creates a collection whose first revision brings two chunks. *)
Definition col_data : CollectionData :=
  mkCollectionData "col" 1 alice [x07]
    (mkRevisionData [("c1"%string, Some [x01]); ("c2"%string, Some [x02])]
       "r0" [x09] false)
    None.

Definition col_data_with_etag : CollectionData :=
  mkCollectionData "col" 1 alice [x07]
    (mkRevisionData [("c1"%string, Some [x01])] "r0" [x09] false)
    (Some "r9"%string).

Definition db_col : DB := run [CollectionCreate col_data] empty_db.

Definition col0 : Collection := mkCollection 0 "col" 1 alice.

(** A first upsert creates item [i1]; one chunk comes with content, one
    is a chunk of the collection's revision named by uid. *)
Definition item_data1 : ItemData :=
  mkItemData (Some "i1"%string) 1 [x05] 0
    (mkRevisionData [("c3"%string, Some [x03]); ("c2"%string, None)] "r1" [] false)
    None.

Definition sample_prefix : list Op :=
  [ CollectionCreate col_data; ItemUpsert true item_data1 ].

Definition db_item : DB := run sample_prefix empty_db.

(** A second upsert of [i1] with the right etag, and with another
    version, key and collection than the stored row has. *)
Definition item_data2 : ItemData :=
  mkItemData (Some "i1"%string) 2 [x06] 5
    (mkRevisionData [("c4"%string, Some [x04])] "r2" [] false)
    (Some "r1"%string).

(** An upsert of [i1] with the right etag that names a chunk nobody
    stored. *)
Definition item_data3 : ItemData :=
  mkItemData (Some "i1"%string) 1 [x05] 0
    (mkRevisionData [("c9"%string, None)] "r2" [] false)
    (Some "r1"%string).

Definition sample_ops : list Op :=
  [ CollectionCreate col_data;
    ItemUpsert true item_data1;
    ItemUpsert true item_data2;
    CollectionUpdate col0 (Some "r0"%string)
      (mkRevisionData [("c1"%string, None)] "r3" [] false) ].

(** The row of item [i1]. *)
Definition item_i1 : CollectionItem :=
  mkCollectionItem 8 (Some "i1"%string) 1 (Some [x05]) 0.

(** An item row without revisions, as [process_revisions_for_item] finds
    it inside a creating upsert. *)
Definition bare_item : CollectionItem := mkCollectionItem 50 (Some "i2"%string) 1 None 0.

(** Alice invites herself, and Bob. *)
Definition self_invitation : InvitationData :=
  mkInvitationData alice "inv0" [x0a] READ_WRITE 1.

Definition bob_invitation : InvitationData :=
  mkInvitationData bob "inv1" [x0b] READ_ONLY 1.

Definition db_invited : DB := snd (invite alice col0 bob_invitation db_col).

Definition invitation_of_bob : CollectionInvitation :=
  mkCollectionInvitation 8 "inv1" 0 7 bob READ_ONLY [x0b] 1.

Definition db_accepted : DB :=
  snd (InvitationAcceptSerializer_create invitation_of_bob [x0c] db_invited).

End Scenario.

(** ** The rest of the serializers and the uid validators *)

(** An exception of the field layer: an [IndexError] on the JSON array, or
    an exception of the code below it. *)
Inductive FieldExn : Type :=
| IndexError
| Raised (e : Exn).

(** [BinaryBase64Field.to_representation] and [to_internal_value], the
    text being a JSON string. *)
Definition BinaryBase64Field_to_representation (value : bytes) : string :=
  string_of_list_ascii (Base64.b64encode value).

Definition BinaryBase64Field_to_internal_value (data : string) : Exn + bytes :=
  Base64.b64decode (list_ascii_of_string data).

(** [ChunksField.to_representation(self, obj)] once [obj = obj.chunk] is
    read: the JSON array [(uid, b64encode(content))] when the context asks
    for inline content, [(uid,)] otherwise. *)
Definition ChunksField_to_representation (inline : bool) (chunk : CollectionItemChunk)
  : list string :=
  if inline
  then [chunk_uid chunk; BinaryBase64Field_to_representation (chunk_chunkFile chunk)]
  else [chunk_uid chunk].

(** [ChunksField.to_internal_value(self, data)]:
    [(data[0], b64decode(data[1]))]. *)
Definition ChunksField_to_internal_value (data : list string) : FieldExn + ChunkRef :=
  match data with
  | uid :: content :: _ =>
      match BinaryBase64Field_to_internal_value content with
      | inl e => inl (Raised e)
      | inr c => inr (uid, Some c)
      end
  | _ => inl IndexError
  end.

(** The [chunks] field with [many=True]: the items of the array are
    converted in order, the first exception stops the conversion. *)
Fixpoint ChunksField_many (data : list (list string)) : FieldExn + list ChunkRef :=
  match data with
  | [] => inr []
  | d :: rest =>
      match ChunksField_to_internal_value d with
      | inl e => inl e
      | inr ref =>
          match ChunksField_many rest with
          | inl e => inl e
          | inr refs => inr (ref :: refs)
          end
      end
  end.

(** [obj.chunk] of a join row: the chunk its foreign key names. *)
Definition relation_chunk (db : DB) (rel : RevisionChunkRelation)
  : Exn + CollectionItemChunk :=
  objects_get (fun c => chunk_id c =? rel_chunk rel) (db_chunks db).

(** [revision.chunks_relation]: the join rows of a revision, in primary-key
    order. *)
Definition chunks_relation (db : DB) (revision : CollectionItemRevision)
  : list RevisionChunkRelation :=
  filter (fun rel => rel_revision rel =? rev_id revision) (db_relations db).

(** The [chunks] field of [CollectionItemRevisionSerializer] on output:
    [ChunksField.to_representation] over the revision's join rows. *)
Fixpoint represent_relations (db : DB) (inline : bool)
         (rels : list RevisionChunkRelation) : Exn + list (list string) :=
  match rels with
  | [] => inr []
  | rel :: rest =>
      match relation_chunk db rel with
      | inl e => inl e
      | inr chunk =>
          match represent_relations db inline rest with
          | inl e => inl e
          | inr out => inr (ChunksField_to_representation inline chunk :: out)
          end
      end
  end.

Definition revision_chunks_representation (db : DB) (inline : bool)
           (revision : CollectionItemRevision) : Exn + list (list string) :=
  represent_relations db inline (chunks_relation db revision).

(** [CollectionItemDepSerializer.validate(self, data)] with
    [data = {'uid': uid, 'etag': etag}]. *)
Definition CollectionItemDepSerializer_validate (uid etag : Uid) : M (Uid * Uid) :=
  db <- get_db ;;
  item <- lift (objects_get (fun it => opt_uid_eqb (item_uid it) (Some uid))
                            (db_items db)) ;;
  let item_etag := CollectionItem_etag db item in
  if negb (opt_uid_eqb item_etag (Some etag))
  then raise (ValidationError (wrong_etag_msg item_etag (Some etag)))
  else ret (uid, etag).

(** [CollectionSerializer.get_access_level_from_context(self, obj)];
    [request_user] is the user of [self.context.get('request', None)],
    [None] when the context has no request. *)
Definition get_access_level_from_context (request_user : option User) (obj : Collection)
  : M (option AccessLevels) :=
  match request_user with
  | Some user =>
      member <- Collection_members_get obj user ;;
      ret (Some (mem_accessLevel member))
  | None => ret None
  end.

(** [CollectionEncryptionKeyField.get_attribute(self, instance)] *)
Definition CollectionEncryptionKeyField_get_attribute
           (request_user : option User) (instance : Collection) : M (option bytes) :=
  match request_user with
  | Some user =>
      member <- Collection_members_get instance user ;;
      ret (Some (mem_encryptionKey member))
  | None => ret None
  end.

(** The character class of the uid validators of migration 0016. *)
Definition uid_class (c : ascii) : bool :=
  let n := nat_of_ascii c in
  ((97 <=? n) && (n <=? 122))
  || ((65 <=? n) && (n <=? 90))
  || ((48 <=? n) && (n <=? 57))
  || (n =? 45) || (n =? 95) || (n =? 61).

(** A match of the class repeated [n] times at the start of the text. *)
Fixpoint class_run (n : nat) (s : str) : bool :=
  match n with
  | 0 => true
  | S n' =>
      match s with
      | [] => false
      | c :: t => uid_class c && class_run n' t
      end
  end.

(** [RegexValidator]: the pattern, the class repeated 43 times, is
    searched for at every offset of the value. *)
Fixpoint RegexValidator_search (s : str) : bool :=
  class_run 43 s
  || match s with
     | [] => false
     | _ :: t => RegexValidator_search t
     end.

(** The validators of the [uid] fields: the regular expression and
    [max_length=44]. *)
Definition uid_field_valid (s : str) : bool :=
  RegexValidator_search s && (length s <=? 44).

(** The alphabet of unpadded base64url text. *)
Definition urlsafe_alphabet (c : ascii) : bool :=
  let n := nat_of_ascii c in
  ((97 <=? n) && (n <=? 122))
  || ((65 <=? n) && (n <=? 90))
  || ((48 <=? n) && (n <=? 57))
  || (n =? 45) || (n =? 95).

(** ** Definitions the further properties are stated with *)

(** [l'] is [l] with rows appended. *)
Definition extends {A : Type} (l l' : list A) : Prop := exists more, l' = l ++ more.

(** The tables no serializer call rewrites. *)
Definition grows (db db' : DB) : Prop :=
  extends (db_collections db) (db_collections db')
  /\ extends (db_items db) (db_items db')
  /\ extends (db_chunks db) (db_chunks db')
  /\ extends (db_relations db) (db_relations db')
  /\ extends (db_stokens db) (db_stokens db').

(** A revision row and what it became: the same row, possibly with the
    [current] mark taken away. *)
Definition superseded (r r' : CollectionItemRevision) : Prop :=
  r' = r \/ (rev_current r = Some true /\ r' = set_current None r).

Definition has_content (ref : ChunkRef) : bool :=
  match snd ref with
  | Some _ => true
  | None => false
  end.

(** The invariant of the stokens of revisions: they increase along the
    table and none is above the largest allocated stoken. *)
Definition rev_stokens_sorted (db : DB) : Prop :=
  StronglySorted lt (map rev_stoken (db_revisions db))
  /\ Forall (fun r => rev_stoken r <= list_max (db_stokens db)) (db_revisions db).

(** Primary keys of chunk and join rows are below the sequence, and the
    chunk keys are unique. *)
Definition keys_fresh (db : DB) : Prop :=
  Forall (fun c => chunk_id c < db_next_id db) (db_chunks db)
  /\ NoDup (map chunk_id (db_chunks db))
  /\ Forall (fun rel => rel_revision rel < db_next_id db) (db_relations db).

(** What a call does to the revision table: the rows it found stay, a
    current one possibly demoted, and at most one row is appended, whose
    stoken is new and above every stoken allocated before. *)
Definition revisions_step (db db' : DB) : Prop :=
  exists pre new,
    db_revisions db' = pre ++ new
    /\ Forall2 superseded (db_revisions db) pre
    /\ Forall (fun r => list_max (db_stokens db) < rev_stoken r
                        /\ In (rev_stoken r) (db_stokens db')) new
    /\ length new <= 1.

(** ** More of the worked scenario *)

Section Scenario2.

Open Scope string_scope.
Open Scope list_scope.

(** The current revision of item [i1] after the first upsert. *)
Definition revision_r1 : CollectionItemRevision :=
  mkCollectionItemRevision 10 "r1" 8 3 [] false (Some true).

(** The membership of Alice in her collection. *)
Definition member_alice : CollectionMember :=
  mkCollectionMember 7 0 2 alice ADMIN [x07].

(** A second revision of the collection. *)
Definition col_revision2 : RevisionData :=
  mkRevisionData [("c1", None)] "r3" [] false.

(** The JSON of one chunk with inline content, and the reference it is
    read as. *)
Definition chunk_json : list (list string) := [["c1"; "AQ"]].

Definition chunk_refs : list ChunkRef := [("c1", Some [x01])].

(** The database after [c3] was uploaded a second time. *)
Definition db_dup : DB :=
  run [CollectionCreate col_data; ItemUpsert true item_data1;
       ItemUpsert false item_data1] empty_db.

(** The [chunks] array of the second upsert as the client sends it. *)
Definition item_json2 : list (list string) := [["c4"; "BA"]].

(** The second upsert from a client that believes [i1] is new, and the
    same upload for an item that is new. *)
Definition item_data_stale : ItemData :=
  mkItemData (Some "i1") 2 [x06] 5
    (mkRevisionData [("c4", Some [x04])] "r2" [] false) None.

Definition item_data_new : ItemData :=
  mkItemData (Some "i9") 2 [x06] 0
    (mkRevisionData [("c4", Some [x04])] "r5" [] false) None.

(** A uid text of 44 characters with a foreign first character. *)
Definition odd_uid : str := "!"%char :: repeat "A"%char 43.

End Scenario2.

(** * Properties *)

Lemma forall_below_spec (k : nat) (f : nat -> bool) :
  forall_below k f = true -> forall n, n < k -> f n = true.
Proof.
  unfold forall_below. intros H n Hn.
  rewrite forallb_forall in H. apply H. apply in_seq. lia.
Qed.

Lemma list_ind3 (A : Type) (P : list A -> Prop) :
  P [] -> (forall a, P [a]) -> (forall a b, P [a; b]) ->
  (forall a b c l, P l -> P (a :: b :: c :: l)) ->
  forall l, P l.
Proof.
  intros H0 H1 H2 H3.
  assert (forall l, P l /\ (forall a, P (a :: l)) /\ (forall a b, P (a :: b :: l))) as H.
  { induction l as [|x l [IH0 [IH1 IH2]]].
    - auto.
    - repeat split; auto. }
  intro l. apply H.
Qed.

(** ** Base64 *)

Module Base64Facts.
Import Base64.

Lemma byte_of_N_to_N (b : byte) : byte_of_N (Byte.to_N b) = b.
Proof. destruct b; reflexivity. Qed.

Lemma byte_forall (P : byte -> bool) :
  forall_below 256 (fun i => P (byte_of_N (N.of_nat i))) = true ->
  forall b, P b = true.
Proof.
  intros H b.
  rewrite <- (byte_of_N_to_N b), <- (N2Nat.id (Byte.to_N b)).
  apply (forall_below_spec _ _ H).
  pose proof (Byte.to_N_bounded b). lia.
Qed.

Lemma sextet_ok_all (v : N) : (v < 64)%N -> sextet_ok v = true.
Proof.
  intro Hv. rewrite <- (N2Nat.id v).
  apply (forall_below_spec 64 (fun i => sextet_ok (N.of_nat i))).
  - vm_compute. reflexivity.
  - lia.
Qed.

Lemma enc_char_not_pad (v : N) : (v < 64)%N -> Ascii.eqb (enc_char v) pad_char = false.
Proof.
  intro Hv. pose proof (sextet_ok_all v Hv) as H. unfold sextet_ok in H.
  fold (enc_char v) in H. repeat rewrite andb_true_iff in H.
  destruct H as [[[H _] _] _]. now apply negb_true_iff in H.
Qed.

Lemma enc_char_ascii (v : N) : (v < 64)%N -> is_ascii (enc_char v) = true.
Proof.
  intro Hv. pose proof (sextet_ok_all v Hv) as H. unfold sextet_ok in H.
  fold (enc_char v) in H. repeat rewrite andb_true_iff in H. tauto.
Qed.

Lemma dec_enc_char_not_pad (v : N) :
  (v < 64)%N ->
  Ascii.eqb (urlsafe_decode_translation (enc_char v)) pad_char = false.
Proof.
  intro Hv. pose proof (sextet_ok_all v Hv) as H. unfold sextet_ok in H.
  fold (enc_char v) in H. repeat rewrite andb_true_iff in H.
  destruct H as [[_ H] _]. now apply negb_true_iff in H.
Qed.

Lemma a2b_enc_char (v : N) :
  (v < 64)%N -> a2b (urlsafe_decode_translation (enc_char v)) = Some v.
Proof.
  intro Hv. pose proof (sextet_ok_all v Hv) as H. unfold sextet_ok in H.
  fold (enc_char v) in H. repeat rewrite andb_true_iff in H.
  destruct H as [_ H].
  destruct (a2b (urlsafe_decode_translation (enc_char v))) as [w|]; [|discriminate].
  apply N.eqb_eq in H. now subst.
Qed.

Lemma is_byte_eq (n : N) (b : byte) : is_byte n b = true -> byte_of_N n = b.
Proof.
  unfold is_byte. intro H. apply N.eqb_eq in H.
  rewrite <- (byte_of_N_to_N b), <- H. now rewrite byte_of_N_to_N.
Qed.

Lemma check1_all (a : byte) : check1 a = true.
Proof. apply byte_forall. vm_compute. reflexivity. Qed.

Lemma check2_all (a b : byte) : check2 a b = true.
Proof.
  assert (H : forall a, forall_below 256
           (fun j => check2 a (byte_of_N (N.of_nat j))) = true).
  { apply byte_forall. vm_compute. reflexivity. }
  revert b. apply byte_forall. apply H.
Qed.

Lemma check1_facts (a : byte) :
  (s0 a < 64)%N /\ (s3 a < 64)%N /\ (t1 a < 64)%N /\ (t2 a < 64)%N
  /\ byte_of_N (N.lor (N.shiftl (s0 a) 2) (N.shiftr (t1 a) 4)) = a
  /\ byte_of_N (N.lor (N.shiftl (N.shiftr (Byte.to_N a) 4) 4)
                      (N.land (Byte.to_N a) 15)) = a
  /\ N.shiftr (t2 a) 2 = N.land (Byte.to_N a) 15.
Proof.
  pose proof (check1_all a) as H. unfold check1 in H.
  repeat rewrite andb_true_iff in H.
  destruct H as [[[[[[H1 H2] H3] H4] H5] H6] H7].
  apply N.ltb_lt in H1, H2, H3, H4. apply is_byte_eq in H5, H6.
  apply N.eqb_eq in H7. tauto.
Qed.

Lemma check2_facts (a b : byte) :
  (s1 a b < 64)%N /\ (s2 a b < 64)%N
  /\ byte_of_N (N.lor (N.shiftl (s0 a) 2) (N.shiftr (s1 a b) 4)) = a
  /\ N.land (s1 a b) 15 = N.shiftr (Byte.to_N b) 4
  /\ N.shiftr (s2 a b) 2 = N.land (Byte.to_N a) 15
  /\ byte_of_N (N.lor (N.shiftl (N.land (s2 a b) 3) 6) (s3 b)) = b.
Proof.
  pose proof (check2_all a b) as H. unfold check2 in H.
  repeat rewrite andb_true_iff in H.
  destruct H as [[[[[H1 H2] H3] H4] H5] H6].
  apply N.ltb_lt in H1, H2. apply is_byte_eq in H3, H6.
  apply N.eqb_eq in H4, H5. tauto.
Qed.

Lemma urlsafe_b64encode_1 (a : byte) :
  urlsafe_b64encode [a] = [enc_char (s0 a); enc_char (t1 a); pad_char; pad_char].
Proof. reflexivity. Qed.

Lemma urlsafe_b64encode_2 (a b : byte) :
  urlsafe_b64encode [a; b]
  = [enc_char (s0 a); enc_char (s1 a b); enc_char (t2 b); pad_char].
Proof. reflexivity. Qed.

Lemma urlsafe_b64encode_3 (a b c : byte) (rest : bytes) :
  urlsafe_b64encode (a :: b :: c :: rest)
  = enc_char (s0 a) :: enc_char (s1 a b) :: enc_char (s2 b c) :: enc_char (s3 c)
    :: urlsafe_b64encode rest.
Proof. reflexivity. Qed.

(** One step of the decoder on the character of a six-bit value. *)
Lemma a2b_loop_step (v : N) (rest : str) (q : nat) (l : N) (p : nat) (out : bytes) :
  (v < 64)%N ->
  a2b_loop (dec (enc_char v) :: rest) q l p out
  = match q with
    | 0 => a2b_loop rest 1 v 0 out
    | 1 => a2b_loop rest 2 (N.land v 15) 0
             (out ++ [byte_of_N (N.lor (N.shiftl l 2) (N.shiftr v 4))])
    | 2 => a2b_loop rest 3 (N.land v 3) 0
             (out ++ [byte_of_N (N.lor (N.shiftl l 4) (N.shiftr v 2))])
    | _ => a2b_loop rest 0 0 0
             (out ++ [byte_of_N (N.lor (N.shiftl l 6) v)])
    end.
Proof.
  intro Hv. cbn [a2b_loop]. unfold dec.
  rewrite (dec_enc_char_not_pad v Hv), (a2b_enc_char v Hv). reflexivity.
Qed.

(** The decoder on a pad character. *)
Lemma a2b_loop_pad (rest : str) (q : nat) (l : N) (p : nat) (out : bytes) :
  a2b_loop (dec pad_char :: rest) q l p out
  = if 2 <=? q then
      if 4 <=? q + S p then inr out
      else a2b_loop rest q l (S p) out
    else a2b_loop rest q l p out.
Proof. reflexivity. Qed.

Lemma decode_encoded (v : bytes) :
  forall out,
    a2b_loop (map dec (urlsafe_b64encode v)) 0 0%N 0 out = inr (out ++ v).
Proof.
  induction v as [| a | a b | a b c rest IH] using list_ind3; intro out.
  - cbn. now rewrite app_nil_r.
  - rewrite urlsafe_b64encode_1. cbn [map].
    destruct (check1_facts a) as (H0 & _ & H1 & _ & Hb & _).
    rewrite (a2b_loop_step _ _ _ _ _ _ H0), (a2b_loop_step _ _ _ _ _ _ H1).
    rewrite Hb, !a2b_loop_pad. reflexivity.
  - rewrite urlsafe_b64encode_2. cbn [map].
    destruct (check1_facts a) as (H0 & _).
    destruct (check1_facts b) as (_ & _ & _ & H2 & _ & Hb & Hs).
    destruct (check2_facts a b) as (H1 & _ & Ha & Hl & _).
    rewrite (a2b_loop_step _ _ _ _ _ _ H0), (a2b_loop_step _ _ _ _ _ _ H1),
      (a2b_loop_step _ _ _ _ _ _ H2).
    rewrite Ha, Hl, Hs, Hb, a2b_loop_pad. cbn.
    now rewrite <- app_assoc.
  - rewrite urlsafe_b64encode_3. cbn [map].
    destruct (check1_facts a) as (H0 & _).
    destruct (check1_facts b) as (_ & _ & _ & _ & _ & Hb & _).
    destruct (check1_facts c) as (_ & H3 & _).
    destruct (check2_facts a b) as (H1 & _ & Ha & Hl & _).
    destruct (check2_facts b c) as (_ & H2 & _ & _ & Hr & Hc).
    rewrite (a2b_loop_step _ _ _ _ _ _ H0), (a2b_loop_step _ _ _ _ _ _ H1),
      (a2b_loop_step _ _ _ _ _ _ H2), (a2b_loop_step _ _ _ _ _ _ H3).
    rewrite Ha, Hl, Hr, Hb, Hc, IH.
    now rewrite <- !app_assoc.
Qed.

Lemma encoded_is_ascii (v : bytes) :
  forallb is_ascii (urlsafe_b64encode v) = true.
Proof.
  induction v as [| a | a b | a b c rest IH] using list_ind3.
  - reflexivity.
  - rewrite urlsafe_b64encode_1. cbn [forallb].
    destruct (check1_facts a) as (H0 & _ & H1 & _).
    now rewrite !enc_char_ascii.
  - rewrite urlsafe_b64encode_2. cbn [forallb].
    destruct (check1_facts a) as (H0 & _).
    destruct (check1_facts b) as (_ & _ & _ & H2 & _).
    destruct (check2_facts a b) as (H1 & _).
    now rewrite !enc_char_ascii.
  - rewrite urlsafe_b64encode_3. cbn [forallb].
    destruct (check1_facts a) as (H0 & _).
    destruct (check1_facts c) as (_ & H3 & _).
    destruct (check2_facts a b) as (H1 & _).
    destruct (check2_facts b c) as (_ & H2 & _).
    now rewrite !enc_char_ascii, IH.
Qed.

Lemma enc_char_not_pad' (v : N) : (v < 64)%N -> not_pad (enc_char v) = true.
Proof. intro H. unfold not_pad. now rewrite enc_char_not_pad. Qed.

(** The encoder's output is a pad-free body followed by the padding that
    [b64decode] later restores. *)
Lemma encoded_shape (v : bytes) :
  exists body k,
    urlsafe_b64encode v = body ++ repeat pad_char k
    /\ forallb not_pad body = true
    /\ (4 - length body mod 4) mod 4 = k.
Proof.
  induction v as [| a | a b | a b c rest IH] using list_ind3.
  - exists [], 0. repeat split.
  - destruct (check1_facts a) as (H0 & _ & H1 & _).
    exists [enc_char (s0 a); enc_char (t1 a)], 2. repeat split.
    cbn [forallb]. now rewrite !enc_char_not_pad'.
  - destruct (check1_facts a) as (H0 & _).
    destruct (check1_facts b) as (_ & _ & _ & H2 & _).
    destruct (check2_facts a b) as (H1 & _).
    exists [enc_char (s0 a); enc_char (s1 a b); enc_char (t2 b)], 1. repeat split.
    cbn [forallb]. now rewrite !enc_char_not_pad'.
  - destruct IH as (body & k & Hs & Hb & Hk).
    destruct (check1_facts a) as (H0 & _).
    destruct (check1_facts c) as (_ & H3 & _).
    destruct (check2_facts a b) as (H1 & _).
    destruct (check2_facts b c) as (_ & H2 & _).
    exists (enc_char (s0 a) :: enc_char (s1 a b) :: enc_char (s2 b c)
            :: enc_char (s3 c) :: body), k.
    split; [|split].
    + rewrite urlsafe_b64encode_3, Hs. reflexivity.
    + cbn [forallb]. now rewrite !enc_char_not_pad', Hb.
    + cbn [length].
      replace (S (S (S (S (length body))))) with (length body + 1 * 4) by lia.
      now rewrite Nat.Div0.mod_add.
Qed.

Lemma lstrip_repeat_app (k : nat) (s : str) :
  lstrip pad_char (repeat pad_char k ++ s) = lstrip pad_char s.
Proof. induction k as [|k IH]; [reflexivity | exact IH]. Qed.

Lemma lstrip_not_pad (s : str) :
  forallb not_pad s = true -> lstrip pad_char s = s.
Proof.
  destruct s as [|x t]; [reflexivity|].
  cbn [forallb lstrip]. unfold not_pad at 1. intro H.
  apply andb_true_iff in H. destruct H as [H _].
  apply negb_true_iff in H. now rewrite H.
Qed.

Lemma rev_repeat_pad (k : nat) : rev (repeat pad_char k) = repeat pad_char k.
Proof.
  induction k as [|k IH]; [reflexivity|].
  cbn [repeat rev]. rewrite IH.
  change [pad_char] with (repeat pad_char 1).
  rewrite <- repeat_app. now replace (k + 1) with (S k) by lia.
Qed.

Lemma strip_body (body : str) (k : nat) :
  forallb not_pad body = true ->
  strip pad_char (body ++ repeat pad_char k) = body.
Proof.
  intro Hb. unfold strip, rstrip.
  assert (Hrev : forallb not_pad (rev body) = true).
  { apply forallb_forall. intros x Hx. apply in_rev in Hx.
    rewrite forallb_forall in Hb. now apply Hb. }
  destruct body as [|x t].
  - cbn [app]. rewrite <- (app_nil_r (repeat pad_char k)), lstrip_repeat_app.
    reflexivity.
  - assert (Hhead : lstrip pad_char ((x :: t) ++ repeat pad_char k)
                    = (x :: t) ++ repeat pad_char k).
    { cbn [forallb] in Hb. apply andb_true_iff in Hb. destruct Hb as [Hx _].
      unfold not_pad in Hx. apply negb_true_iff in Hx.
      cbn [app lstrip]. now rewrite Hx. }
    rewrite Hhead, rev_app_distr, rev_repeat_pad, lstrip_repeat_app.
    rewrite (lstrip_not_pad _ Hrev). apply rev_involutive.
Qed.

(** C9. The boundary encoding round-trips: decoding the encoding of any
    byte string gives that byte string back, and the encoded text holds no
    [=] padding character. *)
Theorem b64_roundtrip (v : bytes) :
  b64decode (b64encode v) = inr v /\ ~ In pad_char (b64encode v).
Proof.
  destruct (encoded_shape v) as (body & k & Hs & Hb & Hk).
  assert (He : b64encode v = body).
  { unfold b64encode. rewrite Hs. now apply strip_body. }
  split.
  - unfold b64decode. rewrite He, Hk, <- Hs.
    unfold urlsafe_b64decode. rewrite encoded_is_ascii.
    unfold a2b_base64. apply (decode_encoded v []).
  - rewrite He. intro Hin.
    rewrite forallb_forall in Hb. specialize (Hb _ Hin).
    unfold not_pad in Hb. now rewrite Ascii.eqb_refl in Hb.
Qed.

End Base64Facts.

(** ** The monad *)

Lemma bind_inr {A B : Type} (m : M A) (k : A -> M B) (db db' : DB) (b : B) :
  bind m k db = (inr b, db') ->
  exists a db1, m db = (inr a, db1) /\ k a db1 = (inr b, db').
Proof.
  unfold bind. destruct (m db) as [[e|a] db1]; intro H.
  - discriminate.
  - now exists a, db1.
Qed.

Lemma atomic_inr {A : Type} (m : M A) (db db' : DB) (a : A) :
  atomic m db = (inr a, db') <-> m db = (inr a, db').
Proof.
  unfold atomic. destruct (m db) as [[e|a'] db1]; split; intro H;
    try discriminate; exact H.
Qed.

(** A transaction that raises leaves the database as it found it. *)
Lemma atomic_inl {A : Type} (m : M A) (db db' : DB) (e : Exn) :
  atomic m db = (inl e, db') -> db' = db.
Proof.
  unfold atomic. destruct (m db) as [[e'|a'] db1]; intro H; inversion H.
  reflexivity.
Qed.

Lemma atomic_raises {A : Type} (m : M A) (db db1 : DB) (e : Exn) :
  m db = (inl e, db1) -> atomic m db = (inl e, db).
Proof. unfold atomic. now intros ->. Qed.

Lemma objects_get_inr {A : Type} (p : A -> bool) (rows : list A) (x : A) :
  objects_get p rows = inr x -> filter p rows = [x].
Proof.
  unfold objects_get. destruct (filter p rows) as [|y [|z l]]; intro H;
    inversion H. reflexivity.
Qed.

Lemma objects_get_in {A : Type} (p : A -> bool) (rows : list A) (x : A) :
  objects_get p rows = inr x -> In x rows /\ p x = true.
Proof.
  intro H. apply objects_get_inr in H.
  apply filter_In. rewrite H. now left.
Qed.

(** ** [process_revisions_for_item] *)

Lemma resolves_weaken (item : CollectionItem) (t t' : list CollectionItemChunk)
      (ref : ChunkRef) (obj : CollectionItemChunk) :
  (forall x, In x t -> In x t') -> resolves item t ref obj -> resolves item t' ref obj.
Proof. unfold resolves. intros Hsub (H1 & H2 & H3). auto. Qed.

Lemma store_chunks_inv (item : CollectionItem) (chunks : list ChunkRef) :
  forall objs db objs' db',
    store_chunks item chunks objs db = (inr objs', db') ->
    exists res,
      objs' = objs ++ res
      /\ db' = set_next_id (db_next_id db + length (stored chunks res))
                 (set_chunks (db_chunks db ++ stored chunks res) db)
      /\ map chunk_uid res = map fst chunks
      /\ map chunk_id (stored chunks res)
         = seq (db_next_id db) (length (stored chunks res))
      /\ Forall2 (resolves item (db_chunks db ++ stored chunks res)) chunks res.
Proof.
  induction chunks as [|[uid [content|]] rest IH]; intros objs db objs' db' H.
  - cbn in H. injection H as Ho Hd. subst objs' db'. exists []. cbn.
    rewrite !app_nil_r, Nat.add_0_r. repeat split; try constructor.
    now destruct db.
  - cbn [store_chunks] in H.
    unfold bind at 1 in H. cbn [fresh_id] in H.
    unfold bind at 1 in H. cbn [modify] in H.
    apply IH in H. destruct H as (res & -> & -> & Hu & Hid & Hres).
    set (chunk := mkCollectionItemChunk (db_next_id db) uid (item_id item) content) in *.
    exists (chunk :: res). cbn [stored map fst length] in *.
    cbn [db_next_id db_chunks set_chunks set_next_id] in *.
    rewrite <- !app_assoc in *. cbn [app] in *.
    repeat split.
    + unfold set_next_id, set_chunks. cbn. f_equal. lia.
    + now rewrite Hu.
    + cbn [seq chunk_id chunk]. now rewrite Hid.
    + constructor; [|exact Hres].
      unfold resolves. cbn. repeat split. apply in_or_app. right. now left.
  - cbn [store_chunks] in H.
    apply bind_inr in H. destruct H as (chunk & db1 & Hget & H).
    unfold CollectionItemChunk_get, bind, get_db, lift in Hget.
    destruct (objects_get _ (db_chunks db)) as [e|c] eqn:Hg; cbn in Hget;
      inversion Hget; subst; clear Hget.
    apply objects_get_in in Hg. destruct Hg as [Hin Huid].
    apply String.eqb_eq in Huid.
    apply IH in H. destruct H as (res & -> & -> & Hu & Hid & Hres).
    exists (chunk :: res). cbn [stored map fst length] in *.
    rewrite <- !app_assoc. cbn [app].
    repeat split; auto.
    + now rewrite Hu, Huid.
    + constructor; [|exact Hres].
      unfold resolves. cbn. repeat split; auto. apply in_or_app. now left.
Qed.

(** A reference without content whose uid no stored chunk carries stops
    the loop with [DoesNotExist]. *)
Lemma store_chunks_unknown (item : CollectionItem) (uid : Uid)
      (rest : list ChunkRef) (objs : list CollectionItemChunk) (db : DB) :
  (forall c, In c (db_chunks db) -> chunk_uid c <> uid) ->
  store_chunks item ((uid, None) :: rest) objs db = (inl DoesNotExist, db).
Proof.
  intro Habs.
  assert (Hnil : filter (fun c => String.eqb (chunk_uid c) uid) (db_chunks db) = []).
  { induction (db_chunks db) as [|c l IHl]; [reflexivity|].
    cbn [filter]. destruct (String.eqb (chunk_uid c) uid) eqn:E.
    - apply String.eqb_eq in E. exfalso. apply (Habs c); [now left | exact E].
    - apply IHl. intros c' Hc'. apply Habs. now right. }
  cbn [store_chunks].
  unfold CollectionItemChunk_get, bind, get_db, lift, objects_get.
  rewrite Hnil. reflexivity.
Qed.

Lemma link_chunks_run (revision : CollectionItemRevision)
      (objs : list CollectionItemChunk) :
  forall db,
    link_chunks revision objs db
    = (inr tt,
       set_next_id (db_next_id db + length objs)
         (set_relations
            (db_relations db ++ new_relations (db_next_id db) (rev_id revision) objs)
            db)).
Proof.
  induction objs as [|c rest IH]; intro db.
  - cbn. rewrite app_nil_r, Nat.add_0_r. now destruct db.
  - cbn [link_chunks]. unfold bind at 1. cbn [fresh_id].
    unfold bind at 1. cbn [modify]. rewrite IH.
    cbn [new_relations length db_next_id db_relations set_relations set_next_id].
    rewrite <- app_assoc. cbn [app].
    unfold set_next_id, set_relations. cbn. do 2 f_equal. lia.
Qed.

Lemma process_revisions_for_item_eq
      (item : CollectionItem) (rd : RevisionData) (db : DB) :
  process_revisions_for_item item rd db
  = match store_chunks item (rd_chunks_relation rd) [] db with
    | (inl e, db1) => (inl e, db1)
    | (inr objs, db1) =>
        let t := S (list_max (db_stokens db1)) in
        let pk := db_next_id db1 in
        let rev := new_revision item rd pk t in
        if has_current db1 (item_id item)
        then (inl IntegrityError,
              set_next_id (S pk) (set_stokens (db_stokens db1 ++ [t]) db1))
        else (inr rev,
              mkDB (db_collections db1) (db_items db1) (db_chunks db1)
                   (db_stokens db1 ++ [t]) (db_revisions db1 ++ [rev])
                   (db_relations db1 ++ new_relations (S pk) pk objs)
                   (db_members db1) (db_invitations db1) (S pk + length objs))
    end.
Proof.
  unfold process_revisions_for_item. unfold bind at 1.
  destruct (store_chunks item (rd_chunks_relation rd) [] db) as [[e|objs] db1];
    [reflexivity|].
  unfold bind at 1. cbn [Stoken_create].
  unfold bind at 1. unfold CollectionItemRevision_create.
  unfold bind at 1. cbn [fresh_id]. unfold bind at 1. cbn [get_db].
  cbn [db_revisions set_next_id set_stokens db_stokens db_next_id].
  fold (new_revision item rd (db_next_id db1) (S (list_max (db_stokens db1)))).
  cbv zeta.
  change (has_current (set_next_id (S (db_next_id db1))
                         (set_stokens (db_stokens db1 ++ [S (list_max (db_stokens db1))]) db1))
                      (item_id item))
    with (has_current db1 (item_id item)).
  destruct (has_current db1 (item_id item)); [reflexivity|].
  unfold bind at 1. cbn [modify]. cbn [ret].
  unfold bind at 1. rewrite link_chunks_run. reflexivity.
Qed.

Lemma uid_count_chunks (uid : Uid) (rows : list CollectionItemChunk) :
  length (filter (fun c => String.eqb (chunk_uid c) uid) rows)
  = uid_count uid (map chunk_uid rows).
Proof.
  unfold uid_count. induction rows as [|c l IH]; [reflexivity|].
  cbn [map filter]. destruct (String.eqb (chunk_uid c) uid); cbn [length]; now rewrite IH.
Qed.

Lemma store_chunks_is_ok (item : CollectionItem) (chunks : list ChunkRef) :
  forall objs db,
    is_ok (store_chunks item chunks objs db)
    = refs_resolve (map chunk_uid (db_chunks db)) chunks.
Proof.
  induction chunks as [|[uid [content|]] rest IH]; intros objs db.
  - reflexivity.
  - cbn [store_chunks refs_resolve].
    unfold bind at 1. cbn [fresh_id]. unfold bind at 1. cbn [modify].
    rewrite IH. cbn [db_chunks set_chunks set_next_id].
    now rewrite map_app.
  - cbn [store_chunks refs_resolve].
    rewrite <- uid_count_chunks.
    unfold CollectionItemChunk_get, bind, get_db, lift, objects_get.
    destruct (filter (fun c => String.eqb (chunk_uid c) uid) (db_chunks db))
      as [|x [|y l]]; cbn [length Nat.eqb andb raise ret]; try reflexivity.
    apply IH.
Qed.

Lemma existsb_false_filter {A : Type} (p : A -> bool) (l : list A) :
  existsb p l = false <-> filter p l = [].
Proof.
  induction l as [|x l IH]; [now split|].
  cbn [existsb filter]. destruct (p x); cbn [orb].
  - split; discriminate.
  - exact IH.
Qed.

Lemma has_current_nil (db : DB) (item : nat) :
  has_current db item = false <-> current_revisions db item = [].
Proof.
  exact (existsb_false_filter
           (fun r => (rev_item r =? item) && is_current r) (db_revisions db)).
Qed.

Lemma uid_count_app (uid : Uid) (l1 l2 : list Uid) :
  uid_count uid (l1 ++ l2) = uid_count uid l1 + uid_count uid l2.
Proof. unfold uid_count. now rewrite filter_app, length_app. Qed.

Lemma refs_resolve_unknown (uid : Uid) (chunks : list ChunkRef) :
  forall uids,
    In (uid, None) chunks ->
    uid_count uid uids = 0 ->
    (forall content, ~ In (uid, Some content) chunks) ->
    refs_resolve uids chunks = false.
Proof.
  induction chunks as [|[u [c|]] rest IH]; intros uids Hin H0 Hno.
  - destruct Hin.
  - cbn [refs_resolve]. destruct Hin as [Hin|Hin]; [discriminate|].
    apply IH; auto.
    + rewrite uid_count_app, H0. unfold uid_count. cbn [filter].
      destruct (String.eqb u uid) eqn:E; [|reflexivity].
      apply String.eqb_eq in E. subst u. exfalso. apply (Hno c). now left.
    + intros content Hc. apply (Hno content). now right.
  - cbn [refs_resolve]. destruct Hin as [Hin|Hin].
    + inversion Hin; subst. now rewrite H0.
    + rewrite (IH uids Hin H0); [apply andb_false_r|].
      intros content Hc. apply (Hno content). now right.
Qed.

Lemma uid_count_absent (uid : Uid) (uids : list Uid) :
  ~ In uid uids -> uid_count uid uids = 0.
Proof.
  unfold uid_count. induction uids as [|u l IH]; intro H; [reflexivity|].
  cbn [filter]. destruct (String.eqb u uid) eqn:E.
  - apply String.eqb_eq in E. exfalso. apply H. now left.
  - apply IH. intro Hl. apply H. now right.
Qed.

Lemma process_revisions_for_item_inv
      (item : CollectionItem) (rd : RevisionData) (db db' : DB)
      (rev : CollectionItemRevision) :
  process_revisions_for_item item rd db = (inr rev, db') ->
  exists objs,
    let newc := stored (rd_chunks_relation rd) objs in
    let pk := db_next_id db + length newc in
    let t := S (list_max (db_stokens db)) in
    rev = new_revision item rd pk t
    /\ has_current db (item_id item) = false
    /\ db' = mkDB (db_collections db) (db_items db) (db_chunks db ++ newc)
               (db_stokens db ++ [t]) (db_revisions db ++ [rev])
               (db_relations db ++ new_relations (S pk) pk objs)
               (db_members db) (db_invitations db) (S pk + length objs)
    /\ map chunk_uid objs = map fst (rd_chunks_relation rd)
    /\ map chunk_id newc = seq (db_next_id db) (length newc)
    /\ Forall2 (resolves item (db_chunks db ++ newc)) (rd_chunks_relation rd) objs.
Proof.
  rewrite process_revisions_for_item_eq.
  destruct (store_chunks item (rd_chunks_relation rd) [] db) as [[e|objs] db1] eqn:Hs;
    [discriminate|].
  apply store_chunks_inv in Hs.
  destruct Hs as (res & Ho & Hd & Hu & Hid & Hres). cbn [app] in Ho. subst objs db1.
  cbn [db_stokens db_next_id db_revisions db_collections db_items db_chunks
       db_relations db_members db_invitations set_next_id set_chunks].
  cbv zeta.
  change (has_current (set_next_id (db_next_id db + length (stored (rd_chunks_relation rd) res))
                         (set_chunks (db_chunks db ++ stored (rd_chunks_relation rd) res) db))
                      (item_id item))
    with (has_current db (item_id item)).
  destruct (has_current db (item_id item)) eqn:Hv; [discriminate|].
  intro H. injection H as Hr Hdb. subst rev db'.
  exists res. cbv zeta. repeat split; auto.
Qed.

Lemma process_revisions_for_item_is_ok
      (item : CollectionItem) (rd : RevisionData) (db : DB) :
  is_ok (process_revisions_for_item item rd db)
  = refs_resolve (map chunk_uid (db_chunks db)) (rd_chunks_relation rd)
    && negb (has_current db (item_id item)).
Proof.
  rewrite <- (store_chunks_is_ok item (rd_chunks_relation rd) [] db).
  rewrite process_revisions_for_item_eq.
  destruct (store_chunks item (rd_chunks_relation rd) [] db) as [[e|objs] db1] eqn:Hs;
    [reflexivity|].
  apply store_chunks_inv in Hs.
  destruct Hs as (res & Ho & Hd & _). subst db1.
  cbv zeta. unfold is_ok at 2. cbn [fst andb].
  change (has_current (set_next_id (db_next_id db + length (stored (rd_chunks_relation rd) res))
                         (set_chunks (db_chunks db ++ stored (rd_chunks_relation rd) res) db))
                      (item_id item))
    with (has_current db (item_id item)).
  now destruct (has_current db (item_id item)).
Qed.

(** C5. [process_revisions_for_item] handles the chunk references in their
    order (a reference with content is saved as a row of the item, a
    reference without content is resolved from the chunk table), takes a
    stoken greater than every allocated one, appends the revision as
    current and the join rows in the order of the references, and leaves
    every older revision row as it was.  It returns exactly when the
    references resolve and the item has no current revision, and it fails
    on a reference without content whose uid is stored nowhere. *)
Theorem process_revisions_for_item_spec
        (item : CollectionItem) (rd : RevisionData) (db : DB) :
  let chunks := rd_chunks_relation rd in
  (forall rev db',
      process_revisions_for_item item rd db = (inr rev, db') ->
      exists objs,
        let newc := stored chunks objs in
        let pk := db_next_id db + length newc in
        let t := S (list_max (db_stokens db)) in
        Forall2 (resolves item (db_chunks db')) chunks objs
        /\ map chunk_uid objs = map fst chunks
        /\ db_chunks db' = db_chunks db ++ newc
        /\ Forall (fun s => s < t) (db_stokens db)
        /\ db_stokens db' = db_stokens db ++ [t]
        /\ rev = mkCollectionItemRevision pk (rd_uid rd) (item_id item) t
                   (rd_meta rd) (rd_deleted rd) (Some true)
        /\ db_revisions db' = db_revisions db ++ [rev]
        /\ db_relations db' = db_relations db ++ new_relations (S pk) pk objs
        /\ map rel_chunk (new_relations (S pk) pk objs) = map chunk_id objs
        /\ db_items db' = db_items db
        /\ db_collections db' = db_collections db
        /\ db_members db' = db_members db
        /\ db_invitations db' = db_invitations db)
  /\ is_ok (process_revisions_for_item item rd db)
     = refs_resolve (map chunk_uid (db_chunks db)) chunks
       && negb (has_current db (item_id item))
  /\ (forall uid,
         In (uid, None) chunks ->
         ~ In uid (map chunk_uid (db_chunks db)) ->
         (forall content, ~ In (uid, Some content) chunks) ->
         is_ok (process_revisions_for_item item rd db) = false).
Proof.
  intros chunks. split; [|split].
  - intros rev db' H. apply process_revisions_for_item_inv in H.
    destruct H as (objs & Hrev & _ & Hdb & Hu & _ & Hres).
    exists objs. cbv zeta in *. subst db'. cbn.
    repeat split; auto.
    + apply Forall_forall. intros s Hs.
      pose proof (list_max_le (db_stokens db) (list_max (db_stokens db))) as [Hle _].
      specialize (Hle (Nat.le_refl _)).
      rewrite Forall_forall in Hle. specialize (Hle s Hs). lia.
    + clear. generalize (S (db_next_id db + length (stored chunks objs))).
      generalize (db_next_id db + length (stored chunks objs)).
      induction objs as [|c l IH]; intros n m; [reflexivity|].
      cbn. now rewrite IH.
  - apply process_revisions_for_item_is_ok.
  - intros uid Hin Habs Hno.
    rewrite (process_revisions_for_item_is_ok item rd db).
    fold chunks.
    rewrite (refs_resolve_unknown uid chunks _ Hin (uid_count_absent _ _ Habs) Hno).
    reflexivity.
Qed.

(** ** The single-current invariant *)

Lemma inv_on_mono (hole : option nat) (items : list CollectionItem)
      (revs : list CollectionItemRevision) (n n' : nat) :
  n <= n' -> inv_on hole items revs n -> inv_on hole items revs n'.
Proof.
  intros Hle (H1 & H2 & H3 & H4 & H5). repeat split; auto.
  - eapply Forall_impl; [|exact H1]. cbn. intros; lia.
  - eapply Forall_impl; [|exact H3]. cbn. intros; lia.
Qed.

Lemma filter_nil_none {A : Type} (p : A -> bool) (l : list A) :
  (forall x, In x l -> p x = false) -> filter p l = [].
Proof.
  induction l as [|x l IH]; intro H; [reflexivity|].
  cbn [filter]. rewrite (H x) by now left. apply IH. intros y Hy. apply H. now right.
Qed.

Lemma NoDup_snoc {A : Type} (l : list A) (x : A) :
  NoDup l -> ~ In x l -> NoDup (l ++ [x]).
Proof.
  induction l as [|y l IH]; intros Hnd Hx.
  - constructor; [intros [] | constructor].
  - inversion Hnd as [|? ? Hy Hl]; subst. cbn [app]. constructor.
    + intro Hin. apply in_app_or in Hin. destruct Hin as [Hin|[Hin|[]]].
      * now apply Hy.
      * apply Hx. now left.
    + apply IH; [exact Hl|]. intro Hin. apply Hx. now right.
Qed.

Lemma inv_on_add_item (items : list CollectionItem)
      (revs : list CollectionItemRevision) (n : nat) (it : CollectionItem) :
  inv_on None items revs n -> item_id it = n ->
  inv_on (Some n) (items ++ [it]) revs (S n).
Proof.
  intros (H1 & H2 & H3 & H4 & H5) Hid. repeat split.
  - eapply Forall_impl; [|exact H1]. cbn. intros; lia.
  - exact H2.
  - apply Forall_app. split.
    + eapply Forall_impl; [|exact H3]. cbn. intros; lia.
    + constructor; [lia | constructor].
  - eapply Forall_impl; [|exact H4]. cbn. intros r Hr.
    rewrite map_app. apply in_or_app. now left.
  - apply Forall_app. split.
    + rewrite Forall_forall in *. intros x Hx.
      specialize (H3 x Hx). specialize (H5 x Hx). cbn in H3.
      replace (item_id x =? n) with false by (symmetry; apply Nat.eqb_neq; lia).
      exact H5.
    + constructor; [|constructor]. rewrite Hid, Nat.eqb_refl.
      rewrite filter_nil_none; [reflexivity|].
      intros r Hr. unfold cur_of.
      rewrite Forall_forall in H4. specialize (H4 r Hr).
      apply in_map_iff in H4. destruct H4 as (x & Hx & Hin).
      rewrite Forall_forall in H3. specialize (H3 x Hin). cbn in H3.
      replace (rev_item r =? n) with false by (symmetry; apply Nat.eqb_neq; lia).
      reflexivity.
Qed.

Lemma inv_on_add_rev (items : list CollectionItem)
      (revs : list CollectionItemRevision) (n n' i : nat)
      (rev : CollectionItemRevision) :
  inv_on (Some i) items revs n ->
  In i (map item_id items) ->
  n <= rev_id rev -> rev_id rev < n' ->
  rev_item rev = i -> rev_current rev = Some true ->
  inv_on None items (revs ++ [rev]) n'.
Proof.
  intros (H1 & H2 & H3 & H4 & H5) Hi Hge Hlt Hitem Hcur. repeat split.
  - apply Forall_app. split.
    + eapply Forall_impl; [|exact H1]. cbn. intros; lia.
    + constructor; [exact Hlt | constructor].
  - rewrite map_app. cbn [map]. apply NoDup_snoc; [exact H2|].
    intro Hin. apply in_map_iff in Hin. destruct Hin as (r & Hr & Hin).
    rewrite Forall_forall in H1. specialize (H1 r Hin). cbn in H1. lia.
  - eapply Forall_impl; [|exact H3]. cbn. intros; lia.
  - apply Forall_app. split; [exact H4|].
    constructor; [|constructor]. now rewrite Hitem.
  - rewrite Forall_forall in *. intros x Hx. specialize (H5 x Hx).
    rewrite filter_app, length_app, H5. cbn [filter].
    assert (Hc : cur_of (item_id x) rev = (item_id x =? i)).
    { unfold cur_of, is_current. rewrite Hitem, Hcur. cbn [opt_bool_eqb Bool.eqb].
      rewrite andb_true_r. apply Nat.eqb_sym. }
    rewrite Hc. now destruct (item_id x =? i).
Qed.

Lemma length_filter_map {A B : Type} (f : A -> B) (p : B -> bool) (l : list A) :
  length (filter p (map f l)) = length (filter (fun x => p (f x)) l).
Proof.
  induction l as [|x l IH]; [reflexivity|].
  cbn [map filter]. destruct (p (f x)); cbn [length]; now rewrite IH.
Qed.

Lemma NoDup_map_inj_in {A : Type} (f : A -> nat) (l : list A) (x y : A) :
  NoDup (map f l) -> In x l -> In y l -> f x = f y -> x = y.
Proof.
  induction l as [|a l IH]; intros Hnd Hx Hy Hf; [destruct Hx|].
  inversion Hnd as [|? ? Ha Hl]; subst.
  destruct Hx as [Hx|Hx], Hy as [Hy|Hy]; subst.
  - reflexivity.
  - exfalso. apply Ha. rewrite Hf. now apply in_map.
  - exfalso. apply Ha. rewrite <- Hf. now apply in_map.
  - now apply IH.
Qed.

Lemma save_by_id_demote (revs : list CollectionItemRevision)
      (r : CollectionItemRevision) :
  NoDup (map rev_id revs) -> In r revs ->
  save_by_id rev_id (set_current None r) revs = map (demote_row (rev_id r)) revs.
Proof.
  intros Hnd Hin. unfold save_by_id. cbn [rev_id set_current].
  assert (He : existsb (fun y => rev_id y =? rev_id r) revs = true).
  { apply existsb_exists. exists r. split; [exact Hin | apply Nat.eqb_refl]. }
  rewrite He. apply map_ext_in. intros y Hy. unfold demote_row.
  destruct (rev_id y =? rev_id r) eqn:E; [|reflexivity].
  apply Nat.eqb_eq in E.
  now rewrite (NoDup_map_inj_in rev_id revs y r Hnd Hy Hin E).
Qed.

Lemma hd_filter_in {A : Type} (p : A -> bool) (l : list A) (x : A) :
  hd_error (filter p l) = Some x -> In x l /\ p x = true.
Proof.
  intro H. apply filter_In.
  destruct (filter p l) as [|y t]; [discriminate|].
  injection H as ->. now left.
Qed.

Lemma filter_single {A : Type} (p : A -> bool) (l : list A) (x y : A) :
  length (filter p l) = 1 -> In x l -> p x = true -> In y l -> p y = true -> x = y.
Proof.
  intros Hlen Hx Hpx Hy Hpy.
  assert (Hfx : In x (filter p l)) by (apply filter_In; auto).
  assert (Hfy : In y (filter p l)) by (apply filter_In; auto).
  destruct (filter p l) as [|a [|b t]]; try discriminate.
  destruct Hfx as [<-|[]], Hfy as [<-|[]]. reflexivity.
Qed.

Lemma inv_on_demote (items : list CollectionItem)
      (revs : list CollectionItemRevision) (n : nat)
      (it : CollectionItem) (r : CollectionItemRevision) :
  inv_on None items revs n -> In it items ->
  hd_error (filter (cur_of (item_id it)) revs) = Some r ->
  inv_on (Some (item_id it)) items (save_by_id rev_id (set_current None r) revs) n.
Proof.
  intros (H1 & H2 & H3 & H4 & H5) Hit Hhd.
  apply hd_filter_in in Hhd. destruct Hhd as [Hr Hcur].
  rewrite (save_by_id_demote revs r H2 Hr).
  assert (Hid : forall y, rev_id (demote_row (rev_id r) y) = rev_id y).
  { intro y. unfold demote_row. now destruct (rev_id y =? rev_id r). }
  assert (Hitem : forall y, rev_item (demote_row (rev_id r) y) = rev_item y).
  { intro y. unfold demote_row. now destruct (rev_id y =? rev_id r). }
  repeat split.
  - apply Forall_map. eapply Forall_impl; [|exact H1]. cbn. intros y Hy.
    now rewrite Hid.
  - rewrite map_map. erewrite map_ext; [exact H2|]. intro y. apply Hid.
  - exact H3.
  - apply Forall_map. eapply Forall_impl; [|exact H4]. cbn. intros y Hy.
    now rewrite Hitem.
  - rewrite Forall_forall in *. intros x Hx.
    rewrite length_filter_map.
    destruct (item_id x =? item_id it) eqn:E.
    + apply Nat.eqb_eq in E. rewrite filter_nil_none; [reflexivity|].
      intros y Hy. unfold demote_row.
      destruct (rev_id y =? rev_id r) eqn:Ey.
      * unfold cur_of, is_current. cbn. apply andb_false_r.
      * destruct (cur_of (item_id x) y) eqn:Ec; [|reflexivity].
        exfalso. rewrite E in Ec.
        pose proof (filter_single _ revs y r (H5 it Hit) Hy Ec Hr Hcur) as Heq.
        subst y. now rewrite Nat.eqb_refl in Ey.
    + rewrite <- (H5 x Hx). f_equal. apply filter_ext_in. intros y Hy.
      unfold demote_row. destruct (rev_id y =? rev_id r) eqn:Ey; [|reflexivity].
      apply Nat.eqb_eq in Ey.
      pose proof (NoDup_map_inj_in rev_id revs y r H2 Hy Hr Ey) as Heq. subst y.
      unfold cur_of in *. cbn [rev_item set_current].
      apply andb_true_iff in Hcur. destruct Hcur as [Hri _].
      apply Nat.eqb_eq in Hri. rewrite Hri, (Nat.eqb_sym (item_id it) (item_id x)), E.
      reflexivity.
Qed.

(** ** The serializers, case by case *)

Lemma demote_current_revision_eq (item : CollectionItem) (db : DB) :
  demote_current_revision item db
  = match hd_error (current_revisions db (item_id item)) with
    | None => (inl AttributeError, db)
    | Some r =>
        (inr tt,
         set_revisions (save_by_id rev_id (set_current None r) (db_revisions db)) db)
    end.
Proof.
  unfold demote_current_revision, bind, get_db.
  destruct (hd_error (current_revisions db (item_id item))); reflexivity.
Qed.

Lemma CollectionItemSerializer_create_eq (v : bool) (d : ItemData) (db : DB) :
  CollectionItemSerializer_create v d db
  = match items_with_uid db (ivd_uid d) with
    | [] =>
        if v && negb (opt_uid_eqb None (ivd_etag d))
        then (inl (ValidationError (wrong_etag_msg None (ivd_etag d))), db)
        else
          commit_revision (created_item d db) db
            (process_revisions_for_item (created_item d db) (ivd_content d)
               (set_items (db_items db ++ [created_item d db])
                  (set_next_id (S (db_next_id db)) db)))
    | [instance] =>
        let cur_etag := CollectionItem_etag db instance in
        if v && negb (opt_uid_eqb cur_etag (ivd_etag d))
        then (inl (ValidationError (wrong_etag_msg cur_etag (ivd_etag d))), db)
        else
          match hd_error (current_revisions db (item_id instance)) with
          | None => (inl AttributeError, db)
          | Some r =>
              commit_revision instance db
                (process_revisions_for_item instance (ivd_content d)
                   (set_revisions
                      (save_by_id rev_id (set_current None r) (db_revisions db)) db))
          end
    | _ :: _ :: _ => (inl MultipleObjectsReturned, db)
    end.
Proof.
  unfold CollectionItemSerializer_create, atomic, items_with_uid.
  unfold bind at 1. unfold CollectionItem_get_or_create.
  unfold bind at 1. cbn [get_db].
  destruct (filter (fun it => opt_uid_eqb (item_uid it) (ivd_uid d)) (db_items db))
    as [|instance [|other l]].
  - unfold bind at 1. cbn [fresh_id]. unfold bind at 1. cbn [modify ret].
    unfold bind at 1. cbn [get_db negb].
    fold (created_item d db).
    destruct (v && negb (opt_uid_eqb None (ivd_etag d))); [reflexivity|].
    unfold bind at 1. cbn [ret]. unfold bind at 1.
    destruct (process_revisions_for_item _ _ _) as [[e|rev] db']; reflexivity.
  - cbn [ret]. unfold bind at 1. cbn [get_db negb]. cbv zeta.
    destruct (v && negb (opt_uid_eqb (CollectionItem_etag db instance) (ivd_etag d)));
      [reflexivity|].
    unfold bind at 1. rewrite demote_current_revision_eq.
    destruct (hd_error (current_revisions db (item_id instance))) as [r|];
      [|reflexivity].
    unfold bind at 1.
    destruct (process_revisions_for_item _ _ _) as [[e|rev] db']; reflexivity.
  - reflexivity.
Qed.

Lemma CollectionSerializer_update_eq
      (instance : Collection) (etag : option Uid) (rd : RevisionData) (db : DB) :
  CollectionSerializer_update instance etag rd db
  = match Collection_main_item db instance with
    | inl e => (inl e, db)
    | inr main_item =>
        let instance_etag := CollectionItem_etag db main_item in
        if negb (opt_uid_eqb etag instance_etag)
        then (inl (ValidationError (wrong_etag_msg instance_etag etag)), db)
        else
          match hd_error (current_revisions db (item_id main_item)) with
          | None => (inl AttributeError, db)
          | Some r =>
              commit_revision instance db
                (process_revisions_for_item main_item rd
                   (set_revisions
                      (save_by_id rev_id (set_current None r) (db_revisions db)) db))
          end
    end.
Proof.
  unfold CollectionSerializer_update, atomic.
  unfold bind at 1. cbn [get_db]. unfold bind at 1. unfold Collection_etag.
  destruct (Collection_main_item db instance) as [e|main_item]; [reflexivity|].
  cbn [lift ret]. cbv zeta.
  destruct (negb (opt_uid_eqb etag (CollectionItem_etag db main_item)));
    [reflexivity|].
  unfold bind at 1. cbn [ret]. unfold bind at 1.
  rewrite demote_current_revision_eq.
  destruct (hd_error (current_revisions db (item_id main_item))) as [r|];
    [|reflexivity].
  unfold bind at 1.
  destruct (process_revisions_for_item _ _ _) as [[e|rev] db']; reflexivity.
Qed.

Lemma CollectionSerializer_create_eq (d : CollectionData) (db : DB) :
  CollectionSerializer_create d db
  = match cvd_etag d with
    | Some _ => (inl (ValidationError "Stoken is not None"), db)
    | None =>
        match process_revisions_for_item (created_main_item d db) (cvd_content d)
                (set_items (db_items db ++ [created_main_item d db])
                   (set_collections (db_collections db ++ [created_collection d db])
                      (set_next_id (S (S (db_next_id db))) db)))
        with
        | (inl e, _) => (inl e, db)
        | (inr _, db') =>
            let member := created_member d db db' in
            if member_taken (db_members db') (db_next_id db) (cvd_owner d)
            then (inl IntegrityError, db)
            else (inr (created_collection d db),
                  set_members (db_members db' ++ [member])
                    (set_next_id (S (db_next_id db'))
                       (set_stokens (db_stokens db' ++ [mem_stoken member]) db')))
        end
    end.
Proof.
  unfold CollectionSerializer_create, atomic.
  destruct (cvd_etag d) as [e|]; [reflexivity|].
  unfold bind at 1. cbn [fresh_id]. unfold bind at 1. cbn [modify].
  unfold bind at 1. cbn [fresh_id]. unfold bind at 1. cbn [modify].
  unfold bind at 1.
  cbn [col_version col_id db_next_id db_items db_collections
       set_collections set_items set_next_id].
  match goal with
  | |- context [process_revisions_for_item ?i ?r ?s] =>
      replace (process_revisions_for_item i r s)
        with (process_revisions_for_item (created_main_item d db) (cvd_content d)
                (set_items (db_items db ++ [created_main_item d db])
                   (set_collections (db_collections db ++ [created_collection d db])
                      (set_next_id (S (S (db_next_id db))) db))))
        by reflexivity
  end.
  destruct (process_revisions_for_item (created_main_item d db) _ _)
    as [[e|rev] db']; [reflexivity|].
  unfold bind at 1. cbn [Stoken_create]. unfold bind at 1. cbn [fresh_id].
  unfold bind at 1. cbn [get_db].
  cbn [db_members db_next_id db_stokens set_stokens set_next_id].
  fold (created_member d db db'). cbv zeta.
  destruct (member_taken (db_members db') (db_next_id db) (cvd_owner d));
    reflexivity.
Qed.

Lemma CollectionMemberSerializer_update_eq
      (instance : CollectionMember) (access_level : AccessLevels) (db : DB) :
  CollectionMemberSerializer_update instance access_level db
  = if negb (AccessLevels_eqb (mem_accessLevel instance) access_level)
    then
      let t := S (list_max (db_stokens db)) in
      let m := mkCollectionMember (mem_id instance) (mem_collection instance) t
                 (mem_user instance) access_level (mem_encryptionKey instance) in
      if violates_unique_member (db_members db) m
      then (inl IntegrityError, db)
      else (inr m,
            set_members (save_by_id mem_id m (db_members db))
              (set_stokens (db_stokens db ++ [t]) db))
    else (inr instance, db).
Proof.
  unfold CollectionMemberSerializer_update, atomic.
  destruct (negb (AccessLevels_eqb (mem_accessLevel instance) access_level));
    [|reflexivity].
  unfold bind at 1. cbn [Stoken_create]. unfold bind at 1.
  unfold CollectionMember_save. unfold bind at 1. cbn [get_db].
  cbn [db_members set_stokens]. cbv zeta.
  destruct (violates_unique_member (db_members db) _); reflexivity.
Qed.

Lemma InvitationAcceptSerializer_create_eq
      (invitation : CollectionInvitation) (key : bytes) (db : DB) :
  InvitationAcceptSerializer_create invitation key db
  = let t := S (list_max (db_stokens db)) in
    let member :=
      mkCollectionMember (db_next_id db) (inv_collection invitation) t
        (inv_user invitation) (inv_accessLevel invitation) key in
    if member_taken (db_members db) (inv_collection invitation) (inv_user invitation)
    then (inl IntegrityError, db)
    else (inr member,
          mkDB (db_collections db) (db_items db) (db_chunks db)
               (db_stokens db ++ [t]) (db_revisions db) (db_relations db)
               (db_members db ++ [member])
               (filter (fun i => negb (inv_id i =? inv_id invitation))
                       (db_invitations db))
               (S (db_next_id db))).
Proof.
  unfold InvitationAcceptSerializer_create, atomic.
  unfold bind at 1. cbn [Stoken_create]. unfold bind at 1.
  unfold CollectionMember_create. unfold bind at 1. cbn [fresh_id].
  unfold bind at 1. cbn [get_db].
  cbn [db_members db_next_id set_stokens set_next_id]. cbv zeta.
  destruct (member_taken (db_members db) _ _); reflexivity.
Qed.

Lemma CollectionInvitationSerializer_create_eq
      (request_user : User) (collection : Collection) (d : InvitationData) (db : DB) :
  CollectionInvitationSerializer_create request_user collection d db
  = match objects_get (fun m => (mem_collection m =? col_id collection)
                                && user_eqb (mem_user m) request_user)
                      (db_members db) with
    | inl e => (inl e, db)
    | inr member =>
        let invitation :=
          mkCollectionInvitation (db_next_id db) (nvd_uid d) (mem_collection member)
            (mem_id member) (nvd_user d) (nvd_accessLevel d)
            (nvd_signedEncryptionKey d) (nvd_version d) in
        (inr invitation,
         set_invitations (db_invitations db ++ [invitation])
           (set_next_id (S (db_next_id db)) db))
    end.
Proof.
  unfold CollectionInvitationSerializer_create, Collection_members_get, atomic.
  unfold bind at 1. unfold bind at 1. cbn [get_db].
  destruct (objects_get _ (db_members db)) as [e|member]; reflexivity.
Qed.

(** [validate_user] never raises the validation error: its argument is a
    [User], which has no [lower], or a string, which no [User] equals. *)
Lemma validate_user_never_rejects (request_user : User) (value : PyVal) :
  validate_user request_user value = inl AttributeError
  \/ validate_user request_user value = inr value.
Proof. destruct value; [left | right]; reflexivity. Qed.

(** The serializer has no method for its [username] field. *)
Lemma CollectionInvitationSerializer_validate_eq
      (request_user : User) (d : InvitationData) :
  CollectionInvitationSerializer_validate request_user d = inr (PyUser (nvd_user d)).
Proof. reflexivity. Qed.

Lemma invite_eq (request_user : User) (collection : Collection)
      (d : InvitationData) (db : DB) :
  invite request_user collection d db
  = CollectionInvitationSerializer_create request_user collection d db.
Proof. reflexivity. Qed.

Lemma snd_outcome {A : Type} (r : (Exn + A) * DB) : snd (outcome r) = snd r.
Proof. now destruct r as [[e|a] db]. Qed.

Lemma snd_commit_revision {A : Type} (instance : A) (db : DB)
      (r : (Exn + CollectionItemRevision) * DB) :
  snd (commit_revision instance db r)
  = match r with
    | (inl _, _) => db
    | (inr _, db') => db'
    end.
Proof. now destruct r as [[e|a] db']. Qed.

(** ** Preservation of the invariant *)

Lemma process_restores_Inv (item : CollectionItem) (rd : RevisionData)
      (db db' : DB) (rev : CollectionItemRevision) :
  inv_on (Some (item_id item)) (db_items db) (db_revisions db) (db_next_id db) ->
  In (item_id item) (map item_id (db_items db)) ->
  process_revisions_for_item item rd db = (inr rev, db') ->
  Inv db'.
Proof.
  intros Hinv Hin H. apply process_revisions_for_item_inv in H.
  destruct H as (objs & Hrev & _ & Hdb & _). cbv zeta in *.
  subst db'. unfold Inv. cbn [db_items db_revisions db_next_id].
  eapply inv_on_add_rev; try exact Hinv; try exact Hin; subst rev; cbn; try lia;
    reflexivity.
Qed.

Lemma commit_preserves_Inv {A : Type} (instance : A) (item : CollectionItem)
      (rd : RevisionData) (db db1 : DB) :
  Inv db ->
  inv_on (Some (item_id item)) (db_items db1) (db_revisions db1) (db_next_id db1) ->
  In (item_id item) (map item_id (db_items db1)) ->
  Inv (snd (commit_revision instance db (process_revisions_for_item item rd db1))).
Proof.
  intros Hdb Hinv Hin. rewrite snd_commit_revision.
  destruct (process_revisions_for_item item rd db1) as [[e|rev] db'] eqn:Hp;
    [exact Hdb|].
  eapply process_restores_Inv; eauto.
Qed.

Lemma Inv_ItemUpsert (v : bool) (d : ItemData) (db : DB) :
  Inv db -> Inv (snd (CollectionItemSerializer_create v d db)).
Proof.
  intro Hdb. rewrite CollectionItemSerializer_create_eq.
  destruct (items_with_uid db (ivd_uid d)) as [|instance [|other l]] eqn:Hl.
  - destruct (v && negb (opt_uid_eqb None (ivd_etag d))); [exact Hdb|].
    apply commit_preserves_Inv; [exact Hdb| |].
    + cbn [db_items db_revisions db_next_id set_items set_next_id].
      apply inv_on_add_item; [exact Hdb | reflexivity].
    + cbn [db_items set_items set_next_id]. rewrite map_app.
      apply in_or_app. right. now left.
  - cbv zeta.
    destruct (v && negb (opt_uid_eqb (CollectionItem_etag db instance) (ivd_etag d)));
      [exact Hdb|].
    destruct (hd_error (current_revisions db (item_id instance))) as [r|] eqn:Hhd;
      [|exact Hdb].
    assert (Hin : In instance (db_items db)).
    { unfold items_with_uid in Hl.
      assert (Hf : In instance
                     (filter (fun it => opt_uid_eqb (item_uid it) (ivd_uid d))
                             (db_items db))) by (rewrite Hl; now left).
      apply filter_In in Hf. tauto. }
    apply commit_preserves_Inv; [exact Hdb| |].
    + cbn [db_items db_revisions db_next_id set_revisions].
      apply inv_on_demote; [exact Hdb | exact Hin | exact Hhd].
    + cbn [db_items set_revisions]. now apply in_map.
  - exact Hdb.
Qed.

Lemma Inv_CollectionUpdate (instance : Collection) (etag : option Uid)
      (rd : RevisionData) (db : DB) :
  Inv db -> Inv (snd (CollectionSerializer_update instance etag rd db)).
Proof.
  intro Hdb. rewrite CollectionSerializer_update_eq.
  destruct (Collection_main_item db instance) as [e|main_item] eqn:Hm; [exact Hdb|].
  cbv zeta.
  destruct (negb (opt_uid_eqb etag (CollectionItem_etag db main_item))); [exact Hdb|].
  destruct (hd_error (current_revisions db (item_id main_item))) as [r|] eqn:Hhd;
    [|exact Hdb].
  apply objects_get_in in Hm. destruct Hm as [Hin _].
  apply commit_preserves_Inv; [exact Hdb| |].
  - cbn [db_items db_revisions db_next_id set_revisions].
    apply inv_on_demote; [exact Hdb | exact Hin | exact Hhd].
  - cbn [db_items set_revisions]. now apply in_map.
Qed.

Lemma Inv_CollectionCreate (d : CollectionData) (db : DB) :
  Inv db -> Inv (snd (CollectionSerializer_create d db)).
Proof.
  intro Hdb. rewrite CollectionSerializer_create_eq.
  destruct (cvd_etag d) as [e|]; [exact Hdb|].
  destruct (process_revisions_for_item _ _ _) as [[e|rev] db'] eqn:Hp; [exact Hdb|].
  cbv zeta.
  destruct (member_taken _ _ _); [exact Hdb|].
  cbn [snd]. unfold Inv.
  cbn [db_items db_revisions db_next_id set_members set_next_id set_stokens].
  apply inv_on_mono with (n := db_next_id db'); [lia|].
  apply (process_restores_Inv _ _ _ _ _) with (3 := Hp).
  - cbn [db_items db_revisions db_next_id set_items set_collections set_next_id
         created_main_item item_id].
    apply (inv_on_add_item (db_items db) (db_revisions db) (S (db_next_id db))).
    + apply inv_on_mono with (n := db_next_id db); [lia | exact Hdb].
    + reflexivity.
  - cbn [db_items set_items set_collections set_next_id]. rewrite map_app.
    apply in_or_app. right. now left.
Qed.

Lemma Inv_frame (db db' : DB) :
  db_items db' = db_items db ->
  db_revisions db' = db_revisions db ->
  db_next_id db <= db_next_id db' ->
  Inv db -> Inv db'.
Proof.
  unfold Inv. intros -> -> Hle H. now apply inv_on_mono with (n := db_next_id db).
Qed.

Lemma Inv_exec (o : Op) (db : DB) : Inv db -> Inv (snd (exec o db)).
Proof.
  intro Hdb. destruct o; cbn [exec]; rewrite snd_outcome.
  - now apply Inv_ItemUpsert.
  - now apply Inv_CollectionCreate.
  - now apply Inv_CollectionUpdate.
  - rewrite CollectionMemberSerializer_update_eq.
    destruct (negb _); [|exact Hdb]. cbv zeta.
    destruct (violates_unique_member _ _); [exact Hdb|].
    apply (Inv_frame db); auto.
  - rewrite invite_eq, CollectionInvitationSerializer_create_eq.
    destruct (objects_get _ _); [exact Hdb|].
    apply (Inv_frame db); cbn; auto.
  - apply (Inv_frame db); cbn; auto.
  - rewrite InvitationAcceptSerializer_create_eq. cbv zeta.
    destruct (member_taken _ _ _); [exact Hdb|].
    apply (Inv_frame db); cbn; auto.
Qed.

Lemma Inv_empty : Inv empty_db.
Proof. repeat split; constructor. Qed.

Lemma Inv_run (ops : list Op) : forall db, Inv db -> Inv (run ops db).
Proof.
  induction ops as [|o ops IH]; intros db H; [exact H|].
  cbn [run fold_left]. apply IH. now apply Inv_exec.
Qed.

Lemma Inv_count (db : DB) (item : nat) :
  Inv db ->
  count_current db item = if item_exists db item then 1 else 0.
Proof.
  intros (H1 & H2 & H3 & H4 & H5).
  unfold count_current, current_revisions. fold (cur_of item).
  destruct (item_exists db item) eqn:E.
  - unfold item_exists in E. apply existsb_exists in E.
    destruct E as (it & Hit & Hid). apply Nat.eqb_eq in Hid. subst item.
    rewrite Forall_forall in H5. now apply H5.
  - rewrite filter_nil_none; [reflexivity|].
    intros r Hr. unfold cur_of.
    rewrite Forall_forall in H4. specialize (H4 r Hr).
    apply in_map_iff in H4. destruct H4 as (it & Hid & Hit).
    destruct (rev_item r =? item) eqn:Er; [|reflexivity].
    apply Nat.eqb_eq in Er. exfalso.
    assert (Hex : item_exists db item = true).
    { unfold item_exists. apply existsb_exists. exists it.
      split; [exact Hit | apply Nat.eqb_eq; congruence]. }
    congruence.
Qed.

(** What a successful demotion followed by a successful
    [process_revisions_for_item] does to an item that satisfies the
    invariant: its one current revision [r] is demoted in place and one new
    current revision is appended. *)
Lemma demote_then_process (item : CollectionItem) (rd : RevisionData)
      (db db' : DB) (r rev : CollectionItemRevision) :
  Inv db -> In item (db_items db) ->
  hd_error (current_revisions db (item_id item)) = Some r ->
  process_revisions_for_item item rd
    (set_revisions (save_by_id rev_id (set_current None r) (db_revisions db)) db)
  = (inr rev, db') ->
  current_revisions db (item_id item) = [r]
  /\ db_revisions db'
     = map (demote_row (rev_id r)) (db_revisions db) ++ [rev]
  /\ current_revisions db' (item_id item) = [rev]
  /\ rev_current rev = Some true
  /\ rev_item rev = item_id item
  /\ db_next_id db <= rev_id rev
  /\ ~ In rev (db_revisions db)
  /\ db_items db' = db_items db.
Proof.
  intros Hdb Hin Hhd Hp.
  pose proof (inv_on_demote _ _ _ _ _ Hdb Hin Hhd) as Hd.
  destruct Hdb as (H1 & H2 & H3 & H4 & H5).
  pose proof (hd_filter_in _ _ _ Hhd) as [Hr Hcur].
  apply process_revisions_for_item_inv in Hp.
  destruct Hp as (objs & Hrev & _ & Hdb' & _). cbv zeta in *.
  cbn [db_revisions db_next_id db_stokens set_revisions] in *.
  rewrite (save_by_id_demote _ r H2 Hr) in *.
  assert (Hone : current_revisions db (item_id item) = [r]).
  { rewrite Forall_forall in H5. specialize (H5 item Hin).
    unfold current_revisions in *. fold (cur_of (item_id item)) in *.
    destruct (filter (cur_of (item_id item)) (db_revisions db)) as [|a [|b l]];
      try discriminate. now injection Hhd as ->. }
  assert (Hzero : filter (cur_of (item_id item))
                    (map (demote_row (rev_id r)) (db_revisions db)) = []).
  { destruct Hd as (_ & _ & _ & _ & Hd5).
    rewrite Forall_forall in Hd5. specialize (Hd5 item Hin).
    rewrite Nat.eqb_refl in Hd5. now apply length_zero_iff_nil. }
  subst db'. cbn [db_revisions db_items].
  repeat split; auto.
  - unfold current_revisions. cbn [db_revisions]. fold (cur_of (item_id item)).
    rewrite filter_app, Hzero. cbn [app filter].
    subst rev. unfold cur_of, new_revision, is_current. cbn.
    now rewrite Nat.eqb_refl.
  - now subst rev.
  - now subst rev.
  - subst rev. cbn. lia.
  - intro Hc. rewrite Forall_forall in H1. specialize (H1 rev Hc).
    subst rev. cbn in H1. lia.
Qed.

(** C1. After any sequence of serializer calls, every stored item has
    exactly one revision marked current and an item that was never created
    has none; and a successful upsert of an existing item, or update of a
    collection, demotes the revision that was current and appends exactly
    one new revision, which is the current one afterwards. *)
Theorem single_current_invariant (ops : list Op) :
  let db := run ops empty_db in
  (forall item,
      count_current db item = if item_exists db item then 1 else 0)
  /\ (forall v d instance db',
         CollectionItemSerializer_create v d db = (inr instance, db') ->
         In instance (db_items db) ->
         exists r rev,
           current_revisions db (item_id instance) = [r]
           /\ db_revisions db'
              = map (demote_row (rev_id r)) (db_revisions db) ++ [rev]
           /\ current_revisions db' (item_id instance) = [rev]
           /\ ~ In rev (db_revisions db))
  /\ (forall c etag rd c' db',
         CollectionSerializer_update c etag rd db = (inr c', db') ->
         exists main_item r rev,
           Collection_main_item db c = inr main_item
           /\ current_revisions db (item_id main_item) = [r]
           /\ db_revisions db'
              = map (demote_row (rev_id r)) (db_revisions db) ++ [rev]
           /\ current_revisions db' (item_id main_item) = [rev]
           /\ ~ In rev (db_revisions db)).
Proof.
  intro db.
  assert (Hdb : Inv db) by (apply Inv_run, Inv_empty).
  split; [|split].
  - intro item. now apply Inv_count.
  - intros v d instance db' H Hin.
    rewrite CollectionItemSerializer_create_eq in H.
    destruct (items_with_uid db (ivd_uid d)) as [|inst [|other l]] eqn:Hl.
    + exfalso.
      destruct (v && negb (opt_uid_eqb None (ivd_etag d))); [discriminate|].
      unfold commit_revision in H.
      destruct (process_revisions_for_item _ _ _) as [[e|rev] db1]; [discriminate|].
      injection H as Hi _. subst instance.
      destruct Hdb as (_ & _ & H3 & _).
      rewrite Forall_forall in H3. specialize (H3 _ Hin). cbn in H3. lia.
    + cbv zeta in H.
      destruct (v && negb (opt_uid_eqb (CollectionItem_etag db inst) (ivd_etag d)));
        [discriminate|].
      destruct (hd_error (current_revisions db (item_id inst))) as [r|] eqn:Hhd;
        [|discriminate].
      unfold commit_revision in H.
      destruct (process_revisions_for_item _ _ _) as [[e|rev] db1] eqn:Hp;
        [discriminate|].
      injection H as Hi Hd. subst inst db1.
      destruct (demote_then_process _ _ _ _ _ _ Hdb Hin Hhd Hp)
        as (Ha & Hb & Hc & _ & _ & _ & Hn & _).
      now exists r, rev.
    + discriminate.
  - intros c etag rd c' db' H.
    rewrite CollectionSerializer_update_eq in H.
    destruct (Collection_main_item db c) as [e|main_item] eqn:Hm; [discriminate|].
    cbv zeta in H.
    destruct (negb (opt_uid_eqb etag (CollectionItem_etag db main_item)));
      [discriminate|].
    destruct (hd_error (current_revisions db (item_id main_item))) as [r|] eqn:Hhd;
      [|discriminate].
    unfold commit_revision in H.
    destruct (process_revisions_for_item _ _ _) as [[e|rev] db1] eqn:Hp;
      [discriminate|].
    injection H as _ Hd. subst db1.
    pose proof (objects_get_in _ _ _ Hm) as [Hin _].
    destruct (demote_then_process _ _ _ _ _ _ Hdb Hin Hhd Hp)
      as (Ha & Hb & Hc & _ & _ & _ & Hn & _).
    now exists main_item, r, rev.
Qed.

(** ** The etag gate *)

Lemma opt_uid_eqb_eq (a b : option Uid) : opt_uid_eqb a b = true <-> a = b.
Proof.
  destruct a as [x|], b as [y|]; cbn; split; intro H; try discriminate; auto.
  - apply String.eqb_eq in H. now subst.
  - injection H as ->. apply String.eqb_refl.
Qed.

Lemma opt_uid_eqb_neq (a b : option Uid) : opt_uid_eqb a b = false <-> a <> b.
Proof.
  rewrite <- opt_uid_eqb_eq. destruct (opt_uid_eqb a b); split; intro H;
    try discriminate; auto. now contradiction H.
Qed.

Lemma is_ok_commit_revision {A : Type} (instance : A) (db : DB)
      (r : (Exn + CollectionItemRevision) * DB) :
  is_ok (commit_revision instance db r) = is_ok r.
Proof. now destruct r as [[e|a] db']. Qed.

Lemma inv_on_no_current (items : list CollectionItem)
      (revs : list CollectionItemRevision) (n : nat) (it : CollectionItem) :
  inv_on (Some (item_id it)) items revs n -> In it items ->
  existsb (cur_of (item_id it)) revs = false.
Proof.
  intros (_ & _ & _ & _ & H5) Hin.
  rewrite Forall_forall in H5. specialize (H5 it Hin).
  rewrite Nat.eqb_refl in H5. apply length_zero_iff_nil in H5.
  destruct (existsb (cur_of (item_id it)) revs) eqn:E; [|reflexivity].
  apply existsb_exists in E. destruct E as (r & Hr & Hc).
  assert (Hf : In r (filter (cur_of (item_id it)) revs)) by (apply filter_In; auto).
  rewrite H5 in Hf. destruct Hf.
Qed.

(** Under the invariant, the revision step of an upsert returns exactly
    when the chunk references resolve. *)
Lemma process_after_hole_is_ok (item : CollectionItem) (rd : RevisionData) (db : DB) :
  inv_on (Some (item_id item)) (db_items db) (db_revisions db) (db_next_id db) ->
  In item (db_items db) ->
  is_ok (process_revisions_for_item item rd db)
  = refs_resolve (map chunk_uid (db_chunks db)) (rd_chunks_relation rd).
Proof.
  intros Hinv Hin.
  rewrite process_revisions_for_item_is_ok.
  change (has_current db (item_id item))
    with (existsb (cur_of (item_id item)) (db_revisions db)).
  rewrite (inv_on_no_current _ _ _ _ Hinv Hin). apply andb_true_r.
Qed.

(** A strict upsert case by case, when at most one item carries the
    uid: an etag other than the uid of the item's current revision
    ([None] for an item that does not exist yet) is refused with the
    wrong-etag error; a failed upsert leaves the database as it was; and
    the upsert returns exactly when the etag matches and the chunk
    references resolve. *)
Lemma strict_upsert_cases (d : ItemData) (db : DB) :
  Inv db ->
  length (items_with_uid db (ivd_uid d)) <= 1 ->
  let cur := current_etag db (ivd_uid d) in
  (ivd_etag d <> cur ->
   CollectionItemSerializer_create true d db
   = (inl (ValidationError (wrong_etag_msg cur (ivd_etag d))), db))
  /\ (forall e db',
         CollectionItemSerializer_create true d db = (inl e, db') -> db' = db)
  /\ (is_ok (CollectionItemSerializer_create true d db) = true
      <-> ivd_etag d = cur
          /\ refs_resolve (map chunk_uid (db_chunks db))
               (rd_chunks_relation (ivd_content d)) = true).
Proof.
  intros Hdb Hlen cur. split; [|split].
  - intro Hne. rewrite CollectionItemSerializer_create_eq. subst cur.
    unfold current_etag in *.
    destruct (items_with_uid db (ivd_uid d)) as [|instance [|other l]].
    + assert (E : opt_uid_eqb None (ivd_etag d) = false)
        by (apply opt_uid_eqb_neq; congruence).
      now rewrite E.
    + cbv zeta.
      assert (E : opt_uid_eqb (CollectionItem_etag db instance) (ivd_etag d) = false)
        by (apply opt_uid_eqb_neq; congruence).
      now rewrite E.
    + cbn in Hlen. lia.
  - intros e db' H. unfold CollectionItemSerializer_create in H.
    now apply atomic_inl in H.
  - rewrite CollectionItemSerializer_create_eq. subst cur.
    unfold current_etag.
    destruct (items_with_uid db (ivd_uid d)) as [|instance [|other l]] eqn:Hl.
    + cbn [andb].
      destruct (opt_uid_eqb None (ivd_etag d)) eqn:E; cbn [negb].
      * apply opt_uid_eqb_eq in E.
        rewrite is_ok_commit_revision, process_after_hole_is_ok.
        -- cbn [db_chunks set_items set_next_id]. split; [auto | tauto].
        -- cbn [db_items db_revisions db_next_id set_items set_next_id].
           apply (inv_on_add_item _ _ _ (created_item d db) Hdb). reflexivity.
        -- cbn [db_items set_items set_next_id]. apply in_or_app. right. now left.
      * apply opt_uid_eqb_neq in E. cbn. split; [discriminate|].
        intros [Heq _]. congruence.
    + cbv zeta. cbn [andb].
      assert (Hin : In instance (db_items db)).
      { unfold items_with_uid in Hl.
        assert (Hf : In instance
                       (filter (fun it => opt_uid_eqb (item_uid it) (ivd_uid d))
                               (db_items db))) by (rewrite Hl; now left).
        apply filter_In in Hf. tauto. }
      destruct (opt_uid_eqb (CollectionItem_etag db instance) (ivd_etag d)) eqn:E;
        cbn [negb].
      * apply opt_uid_eqb_eq in E.
        destruct (hd_error (current_revisions db (item_id instance))) as [r|] eqn:Hhd.
        -- rewrite is_ok_commit_revision, process_after_hole_is_ok.
           ++ cbn [db_chunks set_revisions]. split; [auto | tauto].
           ++ cbn [db_items db_revisions db_next_id set_revisions].
              now apply inv_on_demote.
           ++ exact Hin.
        -- exfalso.
           pose proof (Inv_count db (item_id instance) Hdb) as Hc.
           assert (Hex : item_exists db (item_id instance) = true).
           { unfold item_exists. apply existsb_exists. exists instance.
             split; [exact Hin | apply Nat.eqb_refl]. }
           rewrite Hex in Hc. unfold count_current in Hc.
           destruct (current_revisions db (item_id instance)); discriminate.
      * apply opt_uid_eqb_neq in E. cbn. split; [discriminate|].
        intros [Heq _]. congruence.
    + cbn in Hlen. lia.
Qed.

(** ** What the [chunks] field hands over *)

Lemma ChunksField_many_content (data : list (list string)) :
  forall refs,
    ChunksField_many data = inr refs ->
    forallb has_content refs = true /\ length refs = length data.
Proof.
  induction data as [|d rest IH]; intros refs H.
  - injection H as <-. split; reflexivity.
  - cbn [ChunksField_many] in H.
    destruct (ChunksField_to_internal_value d) as [e|ref] eqn:Hd; [discriminate|].
    destruct (ChunksField_many rest) as [e|refs'] eqn:Hr; [discriminate|].
    injection H as <-. destruct (IH refs' eq_refl) as [Hc Hl].
    cbn [forallb length]. rewrite Hc, Hl. split; [|reflexivity].
    unfold ChunksField_to_internal_value in Hd.
    destruct d as [|uid [|content t]]; try discriminate.
    destruct (BinaryBase64Field_to_internal_value content); [discriminate|].
    injection Hd as <-. reflexivity.
Qed.

Lemma has_content_resolve (refs : list ChunkRef) :
  forallb has_content refs = true -> forall uids, refs_resolve uids refs = true.
Proof.
  induction refs as [|[uid [c|]] rest IH]; intros H uids.
  - reflexivity.
  - cbn [forallb] in H. cbn [refs_resolve]. apply IH.
    now apply andb_true_iff in H.
  - discriminate.
Qed.

(** ** One item per uid *)

Lemma items_commit {A : Type} (instance : A) (item : CollectionItem)
      (rd : RevisionData) (db db1 : DB) :
  db_items (snd (commit_revision instance db (process_revisions_for_item item rd db1)))
  = db_items db
  \/ db_items (snd (commit_revision instance db (process_revisions_for_item item rd db1)))
     = db_items db1.
Proof.
  rewrite snd_commit_revision.
  destruct (process_revisions_for_item item rd db1) as [[e|rev] db'] eqn:Hp.
  - now left.
  - right. apply process_revisions_for_item_inv in Hp.
    destruct Hp as (objs & _ & _ & Hdb & _). cbv zeta in Hdb. now subst db'.
Qed.

Lemma uid_unique_same (db db' : DB) :
  db_items db' = db_items db -> uid_unique db -> uid_unique db'.
Proof. intros He H u. unfold items_with_uid. rewrite He. apply H. Qed.

Lemma uid_unique_add (db db' : DB) (it : CollectionItem) :
  db_items db' = db_items db ++ [it] ->
  item_uid it = None \/ items_with_uid db (item_uid it) = [] ->
  uid_unique db -> uid_unique db'.
Proof.
  intros He Hit H u. unfold items_with_uid.
  rewrite He, filter_app, length_app. cbn [filter].
  destruct (opt_uid_eqb (item_uid it) (Some u)) eqn:E.
  - destruct Hit as [Hn|Hn].
    + rewrite Hn in E. discriminate.
    + apply opt_uid_eqb_eq in E. rewrite E in Hn.
      unfold items_with_uid in Hn. rewrite Hn. cbn. lia.
  - cbn [length]. rewrite Nat.add_0_r. apply H.
Qed.

(** [get_or_create] inserts an item only when no item carries the uid, and
    the main item of a collection has no uid: no call makes two items
    share a uid. *)
Lemma exec_uid_unique (o : Op) (db : DB) :
  uid_unique db -> uid_unique (snd (exec o db)).
Proof.
  intro H. destruct o; cbn [exec]; rewrite snd_outcome.
  - rewrite CollectionItemSerializer_create_eq.
    destruct (items_with_uid db (ivd_uid validated_data))
      as [|instance [|other l]] eqn:Hl.
    + destruct (validate_etag && _); [exact H|].
      match goal with
      | |- uid_unique (snd (commit_revision ?i ?d (process_revisions_for_item ?it ?rd ?d1))) =>
          destruct (items_commit i it rd d d1) as [E|E]
      end.
      * exact (uid_unique_same _ _ E H).
      * apply (uid_unique_add db _ (created_item validated_data db)); [exact E| |exact H].
        right. exact Hl.
    + cbv zeta. destruct (validate_etag && _); [exact H|].
      destruct (hd_error _); [|exact H].
      match goal with
      | |- uid_unique (snd (commit_revision ?i ?d (process_revisions_for_item ?it ?rd ?d1))) =>
          destruct (items_commit i it rd d d1) as [E|E]
      end; exact (uid_unique_same _ _ E H).
    + exact H.
  - rewrite CollectionSerializer_create_eq.
    destruct (cvd_etag validated_data); [exact H|].
    destruct (process_revisions_for_item _ _ _) as [[e|rev] db'] eqn:Hp; [exact H|].
    cbv zeta. destruct (member_taken _ _ _); [exact H|].
    cbn [snd]. apply process_revisions_for_item_inv in Hp.
    destruct Hp as (objs & _ & _ & Hdb & _). cbv zeta in Hdb. subst db'.
    apply (uid_unique_add db _ (created_main_item validated_data db));
      [reflexivity | now left | exact H].
  - rewrite CollectionSerializer_update_eq.
    destruct (Collection_main_item db instance); [exact H|].
    cbv zeta. destruct (negb _); [exact H|].
    destruct (hd_error _); [|exact H].
    match goal with
    | |- uid_unique (snd (commit_revision ?i ?d (process_revisions_for_item ?it ?rd ?d1))) =>
        destruct (items_commit i it rd d d1) as [E|E]
    end; exact (uid_unique_same _ _ E H).
  - rewrite CollectionMemberSerializer_update_eq.
    destruct (negb _); [|exact H]. cbv zeta.
    destruct (violates_unique_member _ _); [exact H|].
    apply (uid_unique_same db); [reflexivity | exact H].
  - rewrite invite_eq, CollectionInvitationSerializer_create_eq.
    destruct (objects_get _ _); [exact H|].
    apply (uid_unique_same db); [reflexivity | exact H].
  - apply (uid_unique_same db); [reflexivity | exact H].
  - rewrite InvitationAcceptSerializer_create_eq. cbv zeta.
    destruct (member_taken _ _ _); [exact H|].
    apply (uid_unique_same db); [reflexivity | exact H].
Qed.

Lemma uid_unique_run (ops : list Op) : forall db, uid_unique db -> uid_unique (run ops db).
Proof.
  induction ops as [|o ops IH]; intros db H; [exact H|].
  cbn [run fold_left]. apply IH. now apply exec_uid_unique.
Qed.

Lemma uid_unique_empty : uid_unique empty_db.
Proof. intro u. cbn. lia. Qed.

(** ** The etag gate *)

(** C2. With strict etag checking, on a request whose chunk references are
    what the [chunks] field made of the client's array, and when the
    invariant holds and at most one item carries the uid (both hold of
    every database the serializers build, by [Inv_run] and
    [uid_unique_run]): the upsert succeeds iff the etag of the request is
    the uid of the item's current revision, [None] when no item carries the
    uid; otherwise it fails with the wrong-etag error that reports the
    expected and the received etag; and a failed upsert leaves the
    database, the item and its revisions with it, as it was. *)
Theorem strict_upsert_gate (data : list (list string)) (d : ItemData) (db : DB) :
  Inv db ->
  length (items_with_uid db (ivd_uid d)) <= 1 ->
  ChunksField_many data = inr (rd_chunks_relation (ivd_content d)) ->
  let cur := current_etag db (ivd_uid d) in
  (is_ok (CollectionItemSerializer_create true d db) = true <-> ivd_etag d = cur)
  /\ (ivd_etag d <> cur ->
      CollectionItemSerializer_create true d db
      = (inl (ValidationError (wrong_etag_msg cur (ivd_etag d))), db))
  /\ (forall e db',
         CollectionItemSerializer_create true d db = (inl e, db') -> db' = db)
  /\ (items_with_uid db (ivd_uid d) = [] -> cur = None)
  /\ (forall instance r,
         items_with_uid db (ivd_uid d) = [instance] ->
         In r (db_revisions db) -> rev_item r = item_id instance ->
         is_current r = true ->
         cur = Some (rev_uid r)).
Proof.
  intros Hdb Hlen Hfield cur.
  destruct (strict_upsert_cases d db Hdb Hlen) as (Hne & Hfail & Hiff).
  fold cur in Hne, Hiff.
  apply ChunksField_many_content in Hfield. destruct Hfield as [Hc _].
  rewrite (has_content_resolve _ Hc) in Hiff.
  split; [|split; [exact Hne | split; [exact Hfail | split]]].
  - rewrite Hiff. tauto.
  - intro Hl. subst cur. unfold current_etag. now rewrite Hl.
  - intros instance r Hl Hin Hitem Hcur. subst cur. unfold current_etag.
    rewrite Hl. unfold CollectionItem_etag.
    assert (Hin' : In instance (db_items db)).
    { assert (Hf : In instance (items_with_uid db (ivd_uid d)))
        by (rewrite Hl; now left).
      unfold items_with_uid in Hf. apply filter_In in Hf. tauto. }
    pose proof (Inv_count db (item_id instance) Hdb) as Hcount.
    assert (Hex : item_exists db (item_id instance) = true).
    { unfold item_exists. apply existsb_exists. exists instance.
      split; [exact Hin' | apply Nat.eqb_refl]. }
    rewrite Hex in Hcount. unfold count_current in Hcount.
    assert (Hr : In r (current_revisions db (item_id instance))).
    { unfold current_revisions. apply filter_In. split; [exact Hin|].
      rewrite Hitem, Nat.eqb_refl, Hcur. reflexivity. }
    destruct (current_revisions db (item_id instance)) as [|r0 [|r1 l]];
      try discriminate.
    destruct Hr as [->|[]]. reflexivity.
Qed.

(** ** Upsert of an existing item *)

(** C10. An upsert of an item that already exists returns the stored row
    and leaves the item table, and with it the row's uid, version,
    encryption key and collection, as it was, whatever the request
    carries; the fields of the request make the row only when the upsert
    creates the item.  On the existing item the upsert demotes the current
    revision and appends the new revision, whose creation adds its chunk
    rows, its stoken and its join rows. *)
Theorem upsert_existing_item_frame
        (v : bool) (d : ItemData) (db db' : DB) (instance : CollectionItem) :
  CollectionItemSerializer_create v d db = (inr instance, db') ->
  (items_with_uid db (ivd_uid d) = [] ->
   instance = mkCollectionItem (db_next_id db) (ivd_uid d) (ivd_version d)
                (Some (ivd_encryptionKey d)) (ivd_collection d)
   /\ db_items db' = db_items db ++ [instance])
  /\ (items_with_uid db (ivd_uid d) <> [] ->
      items_with_uid db (ivd_uid d) = [instance]
      /\ In instance (db_items db)
      /\ db_items db' = db_items db
      /\ db_collections db' = db_collections db
      /\ db_members db' = db_members db
      /\ db_invitations db' = db_invitations db
      /\ exists r objs,
           let newc := stored (rd_chunks_relation (ivd_content d)) objs in
           let pk := db_next_id db + length newc in
           let t := S (list_max (db_stokens db)) in
           hd_error (current_revisions db (item_id instance)) = Some r
           /\ db_revisions db'
              = save_by_id rev_id (set_current None r) (db_revisions db)
                ++ [new_revision instance (ivd_content d) pk t]
           /\ db_chunks db' = db_chunks db ++ newc
           /\ db_stokens db' = db_stokens db ++ [t]
           /\ db_relations db' = db_relations db ++ new_relations (S pk) pk objs).
Proof.
  intro H. rewrite CollectionItemSerializer_create_eq in H.
  destruct (items_with_uid db (ivd_uid d)) as [|inst [|other l]] eqn:Hl.
  - split; [|congruence]. intros _.
    destruct (v && negb (opt_uid_eqb None (ivd_etag d))); [discriminate|].
    unfold commit_revision in H.
    destruct (process_revisions_for_item _ _ _) as [[e|rev] db1] eqn:Hp;
      [discriminate|].
    injection H as Hi Hd. subst instance db1.
    apply process_revisions_for_item_inv in Hp.
    destruct Hp as (objs & _ & _ & Hdb & _). cbv zeta in Hdb. subst db'.
    split; reflexivity.
  - split; [discriminate|]. intros _. cbv zeta in H.
    destruct (v && negb (opt_uid_eqb (CollectionItem_etag db inst) (ivd_etag d)));
      [discriminate|].
    destruct (hd_error (current_revisions db (item_id inst))) as [r|] eqn:Hhd;
      [|discriminate].
    unfold commit_revision in H.
    destruct (process_revisions_for_item _ _ _) as [[e|rev] db1] eqn:Hp;
      [discriminate|].
    injection H as Hi Hd. subst inst db1.
    assert (Hin : In instance (db_items db)).
    { unfold items_with_uid in Hl.
      assert (Hf : In instance
                     (filter (fun it => opt_uid_eqb (item_uid it) (ivd_uid d))
                             (db_items db))) by (rewrite Hl; now left).
      apply filter_In in Hf. tauto. }
    apply process_revisions_for_item_inv in Hp.
    destruct Hp as (objs & Hrev & _ & Hdb & _). cbv zeta in Hrev, Hdb.
    cbn [db_next_id db_stokens db_revisions db_chunks db_relations db_items
         db_collections db_members db_invitations set_revisions] in Hrev, Hdb.
    subst db' rev. cbn.
    repeat split; auto.
    exists r, objs. cbv zeta. repeat split; auto.
  - discriminate.
Qed.

(** ** Collection creation *)

Lemma list_max_snoc (l : list nat) (x : nat) :
  list_max (l ++ [x]) = Nat.max (list_max l) x.
Proof. rewrite list_max_app. cbn. now rewrite Nat.max_0_r. Qed.

Lemma list_max_above (l : list nat) : Forall (fun s => s < S (list_max l)) l.
Proof.
  apply Forall_forall. intros s Hs.
  pose proof (proj1 (list_max_le l (list_max l)) (Nat.le_refl _)) as Hle.
  rewrite Forall_forall in Hle. specialize (Hle s Hs). lia.
Qed.

(** C6. A collection create with a non-null etag raises the validation
    error and writes nothing; every failed create leaves the database as
    it was; a create that returns has inserted the collection row, its
    main item with a null uid and a null key, that item's current
    revision, and one ADMIN membership of the owner with the caller's key
    and a stoken above every other; and with a null etag, resolvable chunk
    references and fresh primary keys the create returns. *)
Theorem collection_create_spec (d : CollectionData) (db : DB) :
  (forall etag, cvd_etag d = Some etag ->
     CollectionSerializer_create d db
     = (inl (ValidationError "Stoken is not None"), db))
  /\ (forall e db', CollectionSerializer_create d db = (inl e, db') -> db' = db)
  /\ (forall c db',
        CollectionSerializer_create d db = (inr c, db') ->
        cvd_etag d = None
        /\ exists objs,
             let n := db_next_id db in
             let rd := cvd_content d in
             let newc := stored (rd_chunks_relation rd) objs in
             let pk := S (S n) + length newc in
             let t1 := S (list_max (db_stokens db)) in
             let t2 := S t1 in
             let main_item := mkCollectionItem (S n) None (cvd_version d) None n in
             c = mkCollection n (cvd_uid d) (cvd_version d) (cvd_owner d)
             /\ db_collections db' = db_collections db ++ [c]
             /\ db_items db' = db_items db ++ [main_item]
             /\ db_revisions db'
                = db_revisions db
                  ++ [mkCollectionItemRevision pk (rd_uid rd) (S n) t1
                        (rd_meta rd) (rd_deleted rd) (Some true)]
             /\ db_members db'
                = db_members db
                  ++ [mkCollectionMember (S pk + length objs) n t2 (cvd_owner d)
                        ADMIN (cvd_encryptionKey d)]
             /\ db_stokens db' = db_stokens db ++ [t1; t2]
             /\ Forall (fun s => s < t1) (db_stokens db)
             /\ db_chunks db' = db_chunks db ++ newc
             /\ db_relations db' = db_relations db ++ new_relations (S pk) pk objs
             /\ db_invitations db' = db_invitations db)
  /\ (cvd_etag d = None ->
      refs_resolve (map chunk_uid (db_chunks db))
        (rd_chunks_relation (cvd_content d)) = true ->
      has_current db (S (db_next_id db)) = false ->
      member_taken (db_members db) (db_next_id db) (cvd_owner d) = false ->
      is_ok (CollectionSerializer_create d db) = true).
Proof.
  split; [|split; [|split]].
  - intros etag He. rewrite CollectionSerializer_create_eq. now rewrite He.
  - intros e db' H. unfold CollectionSerializer_create in H.
    now apply atomic_inl in H.
  - intros c db' H. rewrite CollectionSerializer_create_eq in H.
    destruct (cvd_etag d) as [e|]; [discriminate|]. split; [reflexivity|].
    destruct (process_revisions_for_item _ _ _) as [[e|rev] db1] eqn:Hp;
      [discriminate|].
    cbv zeta in H.
    destruct (member_taken _ _ _); [discriminate|].
    injection H as Hc Hd. subst c db'.
    apply process_revisions_for_item_inv in Hp.
    destruct Hp as (objs & Hrev & _ & Hdb & _). cbv zeta in Hrev, Hdb.
    cbn [db_next_id db_stokens db_revisions db_chunks db_relations db_items
         db_collections db_members db_invitations set_items set_collections
         set_next_id] in Hrev, Hdb.
    subst db1 rev. exists objs. cbv zeta. unfold created_member.
    cbn -[list_max Nat.max]. rewrite list_max_snoc.
    replace (Nat.max (list_max (db_stokens db)) (S (list_max (db_stokens db))))
      with (S (list_max (db_stokens db))) by lia.
    rewrite <- !app_assoc. cbn [app].
    repeat split; auto.
    apply list_max_above.
  - intros He Hres Hcur Hmem. rewrite CollectionSerializer_create_eq, He.
    pose proof (process_revisions_for_item_is_ok (created_main_item d db) (cvd_content d)
                  (set_items (db_items db ++ [created_main_item d db])
                     (set_collections (db_collections db ++ [created_collection d db])
                        (set_next_id (S (S (db_next_id db))) db)))) as Hok.
    cbn [db_chunks set_items set_collections set_next_id] in Hok.
    rewrite Hres in Hok.
    change (has_current _ (item_id (created_main_item d db)))
      with (has_current db (S (db_next_id db))) in Hok.
    rewrite Hcur in Hok. cbn [negb andb] in Hok.
    destruct (process_revisions_for_item _ _ _) as [[e|rev] db1] eqn:Hp;
      [discriminate|].
    apply process_revisions_for_item_inv in Hp.
    destruct Hp as (objs & _ & _ & Hdb & _). cbv zeta in Hdb. subst db1.
    cbv zeta. cbn [db_members set_items set_collections set_next_id].
    now rewrite Hmem.
Qed.

(** ** Invitation acceptance *)

Lemma member_taken_iff (rows : list CollectionMember) (collection : nat) (user : User) :
  member_taken rows collection user = true
  <-> exists m, In m rows /\ mem_collection m = collection
                /\ user_pk (mem_user m) = user_pk user.
Proof.
  unfold member_taken. rewrite existsb_exists. split.
  - intros (m & Hin & H). apply andb_true_iff in H. destruct H as [Hc Hu].
    apply Nat.eqb_eq in Hc. apply Nat.eqb_eq in Hu. now exists m.
  - intros (m & Hin & Hc & Hu). exists m. split; [exact Hin|].
    apply andb_true_iff. split; [now apply Nat.eqb_eq | now apply Nat.eqb_eq].
Qed.

(** C7. Accepting an invitation fails with [IntegrityError], changing
    nothing, when the invited user already has a membership in the
    collection; otherwise it inserts one membership that copies the
    invitation's collection, user and access level, holds the caller's key
    and a stoken above every allocated one, and deletes the invitation. *)
Theorem accept_invitation_spec
        (invitation : CollectionInvitation) (encryption_key : bytes) (db : DB) :
  ((exists m, In m (db_members db)
              /\ mem_collection m = inv_collection invitation
              /\ user_pk (mem_user m) = user_pk (inv_user invitation)) ->
   InvitationAcceptSerializer_create invitation encryption_key db
   = (inl IntegrityError, db))
  /\ (~ (exists m, In m (db_members db)
                   /\ mem_collection m = inv_collection invitation
                   /\ user_pk (mem_user m) = user_pk (inv_user invitation)) ->
      exists member db',
        InvitationAcceptSerializer_create invitation encryption_key db
        = (inr member, db')
        /\ member = mkCollectionMember (db_next_id db) (inv_collection invitation)
                      (S (list_max (db_stokens db))) (inv_user invitation)
                      (inv_accessLevel invitation) encryption_key
        /\ Forall (fun s => s < mem_stoken member) (db_stokens db)
        /\ db_stokens db' = db_stokens db ++ [mem_stoken member]
        /\ db_members db' = db_members db ++ [member]
        /\ db_invitations db'
           = filter (fun i => negb (inv_id i =? inv_id invitation)) (db_invitations db)
        /\ (forall i, In i (db_invitations db') -> inv_id i <> inv_id invitation)
        /\ db_collections db' = db_collections db
        /\ db_items db' = db_items db
        /\ db_revisions db' = db_revisions db
        /\ db_chunks db' = db_chunks db
        /\ db_relations db' = db_relations db).
Proof.
  rewrite InvitationAcceptSerializer_create_eq. cbv zeta.
  rewrite <- member_taken_iff.
  destruct (member_taken (db_members db) (inv_collection invitation)
              (inv_user invitation)).
  - split; [reflexivity|]. intro H. now contradiction H.
  - split; [discriminate|]. intros _.
    eexists. eexists. split; [reflexivity|]. cbn -[list_max].
    repeat split; auto.
    + apply list_max_above.
    + intros i Hi. apply filter_In in Hi. destruct Hi as [_ Hi].
      apply negb_true_iff in Hi. now apply Nat.eqb_neq in Hi.
Qed.

(** ** Chunk storage *)

(** C4, as the code has it.  Storing a reference that carries content
    always saves a new chunk row, owned by the item of the call, whether or
    not the table already holds a row with that uid: the call returns the
    new row and the number of rows carrying the uid, counted over the one
    chunk table of the system, grows by one. *)
Theorem chunk_store_always_inserts
        (item : CollectionItem) (uid : Uid) (content : bytes)
        (chunks_objs : list CollectionItemChunk) (db : DB) :
  let chunk := mkCollectionItemChunk (db_next_id db) uid (item_id item) content in
  let db' := snd (store_chunks item [(uid, Some content)] chunks_objs db) in
  store_chunks item [(uid, Some content)] chunks_objs db
  = (inr (chunks_objs ++ [chunk]), db')
  /\ db_chunks db' = db_chunks db ++ [chunk]
  /\ uid_count uid (map chunk_uid (db_chunks db'))
     = S (uid_count uid (map chunk_uid (db_chunks db))).
Proof.
  cbv zeta. cbn -[uid_count]. repeat split.
  rewrite map_app, uid_count_app. unfold uid_count at 2. cbn.
  rewrite String.eqb_refl. cbn. lia.
Qed.

(** ** Stoken allocation *)

Lemma ascending_above (l : list nat) (m s : nat) : ascending m l -> In s l -> m < s.
Proof.
  revert m. induction l as [|x l IH]; intros m H Hin; [destruct Hin|].
  destruct H as [Hx Hl]. destruct Hin as [<-|Hin]; [exact Hx|].
  specialize (IH x Hl Hin). lia.
Qed.

Lemma in_list_max (l : list nat) (s : nat) : In s l -> s <= list_max l.
Proof.
  intro H. pose proof (proj1 (list_max_le l (list_max l)) (Nat.le_refl _)) as Hle.
  rewrite Forall_forall in Hle. now apply Hle.
Qed.

Lemma stokens_commit_revision {A : Type} (instance : A) (item : CollectionItem)
      (rd : RevisionData) (db db1 : DB) :
  db_stokens db1 = db_stokens db ->
  exists new,
    db_stokens (snd (commit_revision instance db
                       (process_revisions_for_item item rd db1)))
    = db_stokens db ++ new
    /\ ascending (list_max (db_stokens db)) new.
Proof.
  intro Hs. rewrite snd_commit_revision.
  destruct (process_revisions_for_item item rd db1) as [[e|rev] db'] eqn:Hp.
  - exists []. now rewrite app_nil_r.
  - apply process_revisions_for_item_inv in Hp.
    destruct Hp as (objs & _ & _ & Hdb & _). cbv zeta in Hdb. subst db'.
    cbn [db_stokens]. rewrite Hs.
    exists [S (list_max (db_stokens db))]. split; [reflexivity|]. cbn. lia.
Qed.

(** Every call appends to the [Stoken] table a strictly increasing run of
    tokens above every token already there. *)
Lemma exec_stokens (o : Op) (db : DB) :
  exists new,
    db_stokens (snd (exec o db)) = db_stokens db ++ new
    /\ ascending (list_max (db_stokens db)) new.
Proof.
  assert (Hnil : exists new, db_stokens db = db_stokens db ++ new
                             /\ ascending (list_max (db_stokens db)) new).
  { exists []. now rewrite app_nil_r. }
  destruct o; cbn [exec]; rewrite snd_outcome.
  - rewrite CollectionItemSerializer_create_eq.
    destruct (items_with_uid db (ivd_uid validated_data)) as [|instance [|other l]].
    + destruct (validate_etag && _); [exact Hnil|].
      now apply stokens_commit_revision.
    + cbv zeta. destruct (validate_etag && _); [exact Hnil|].
      destruct (hd_error _); [|exact Hnil].
      now apply stokens_commit_revision.
    + exact Hnil.
  - rewrite CollectionSerializer_create_eq.
    destruct (cvd_etag validated_data); [exact Hnil|].
    destruct (process_revisions_for_item _ _ _) as [[e|rev] db'] eqn:Hp;
      [exact Hnil|].
    cbv zeta. destruct (member_taken _ _ _); [exact Hnil|].
    apply process_revisions_for_item_inv in Hp.
    destruct Hp as (objs & _ & _ & Hdb & _). cbv zeta in Hdb. subst db'.
    unfold created_member. cbn -[list_max Nat.max].
    rewrite list_max_snoc, <- app_assoc. cbn [app].
    eexists. split; [reflexivity|]. cbn. lia.
  - rewrite CollectionSerializer_update_eq.
    destruct (Collection_main_item db instance); [exact Hnil|].
    cbv zeta. destruct (negb _); [exact Hnil|].
    destruct (hd_error _); [|exact Hnil].
    now apply stokens_commit_revision.
  - rewrite CollectionMemberSerializer_update_eq.
    destruct (negb _); [|exact Hnil]. cbv zeta.
    destruct (violates_unique_member _ _); [exact Hnil|].
    cbn -[list_max]. eexists. split; [reflexivity|]. cbn. lia.
  - rewrite invite_eq, CollectionInvitationSerializer_create_eq.
    destruct (objects_get _ _); exact Hnil.
  - exact Hnil.
  - rewrite InvitationAcceptSerializer_create_eq. cbv zeta.
    destruct (member_taken _ _ _); [exact Hnil|].
    cbn -[list_max]. eexists. split; [reflexivity|]. cbn. lia.
Qed.

Lemma allocated_eq (o : Op) (db : DB) (new : list nat) :
  db_stokens (snd (exec o db)) = db_stokens db ++ new -> allocated o db = new.
Proof.
  intro H. unfold allocated. rewrite H.
  rewrite skipn_app, skipn_all, Nat.sub_diag. reflexivity.
Qed.

Lemma run_stokens (ops : list Op) :
  forall db, exists new, db_stokens (run ops db) = db_stokens db ++ new.
Proof.
  induction ops as [|o ops IH]; intro db.
  - exists []. now rewrite app_nil_r.
  - cbn [run fold_left]. destruct (IH (snd (exec o db))) as (n2 & H2).
    destruct (exec_stokens o db) as (n1 & H1 & _).
    exists (n1 ++ n2). unfold run in H2. now rewrite H2, H1, app_assoc.
Qed.

Lemma run_app (ops1 ops2 : list Op) (db : DB) :
  run (ops1 ++ ops2) db = run ops2 (run ops1 db).
Proof. unfold run. apply fold_left_app. Qed.

(** C3.  Stoken allocation is strictly monotonic and unique.  Within one
    call the allocated stokens are strictly increasing and above every
    stoken allocated before; and for two calls of a sequence, every stoken
    allocated by the earlier one is strictly below every stoken allocated
    by the later one, so that no two allocations are equal. *)
Theorem stoken_monotonic (db : DB) :
  (forall o, ascending (list_max (db_stokens db)) (allocated o db))
  /\ (forall ops1 m1 ops2 m2 s1 s2,
         In s1 (allocated m1 (run ops1 db)) ->
         In s2 (allocated m2 (run (ops1 ++ m1 :: ops2) db)) ->
         s1 < s2).
Proof.
  split.
  - intro o. destruct (exec_stokens o db) as (new & H & Hasc).
    now rewrite (allocated_eq o db new H).
  - intros ops1 m1 ops2 m2 s1 s2 H1 H2.
    rewrite run_app in H2. cbn [run fold_left] in H2.
    fold (run ops2 (snd (exec m1 (run ops1 db)))) in H2.
    set (d1 := run ops1 db) in *.
    destruct (exec_stokens m1 d1) as (n1 & E1 & _).
    rewrite (allocated_eq m1 d1 n1 E1) in H1.
    destruct (run_stokens ops2 (snd (exec m1 d1))) as (n2 & E2).
    set (d2 := run ops2 (snd (exec m1 d1))) in *.
    destruct (exec_stokens m2 d2) as (n3 & E3 & Hasc).
    rewrite (allocated_eq m2 d2 n3 E3) in H2.
    pose proof (ascending_above _ _ _ Hasc H2) as Hlt.
    assert (Hin : In s1 (db_stokens d2)).
    { rewrite E2, E1. apply in_or_app. left. apply in_or_app. now right. }
    apply in_list_max in Hin. lia.
Qed.

(** ** The worked scenario *)

Section ScenarioFacts.

Open Scope string_scope.
Open Scope list_scope.

Lemma single_current_witness :
  count_current (run sample_ops empty_db) 1 = 1
  /\ count_current (run sample_ops empty_db) 8 = 1
  /\ count_current (run sample_ops empty_db) 99 = 0
  /\ exists r rev,
       current_revisions (run sample_prefix empty_db) (item_id item_i1) = [r]
       /\ db_revisions
            (snd (CollectionItemSerializer_create true item_data2
                    (run sample_prefix empty_db)))
          = map (demote_row (rev_id r)) (db_revisions (run sample_prefix empty_db))
            ++ [rev]
       /\ current_revisions
            (snd (CollectionItemSerializer_create true item_data2
                    (run sample_prefix empty_db))) (item_id item_i1) = [rev]
       /\ ~ In rev (db_revisions (run sample_prefix empty_db)).
Proof.
  pose proof (single_current_invariant sample_ops) as H. cbv zeta in H.
  destruct H as (H & _).
  split; [|split; [|split]].
  - rewrite (H 1). vm_compute. reflexivity.
  - rewrite (H 8). vm_compute. reflexivity.
  - rewrite (H 99). vm_compute. reflexivity.
  - assert (H1 : CollectionItemSerializer_create true item_data2
                   (run sample_prefix empty_db)
                 = (inr item_i1,
                    snd (CollectionItemSerializer_create true item_data2
                           (run sample_prefix empty_db))))
      by (vm_compute; reflexivity).
    assert (H2 : In item_i1 (db_items (run sample_prefix empty_db)))
      by (vm_compute; right; left; reflexivity).
    pose proof (single_current_invariant sample_prefix) as H'. cbv zeta in H'.
    destruct H' as (_ & H' & _).
    exact (H' true item_data2 item_i1 _ H1 H2).
Defined.

Lemma Inv_db_item : Inv db_item.
Proof. unfold db_item. exact (Inv_run sample_prefix empty_db Inv_empty). Qed.

(** The hypothesis on the references is needed: a direct call with a
    reference that carries no content, which the [chunks] field never
    makes, can carry the etag of the item's current revision and yet fail,
    when the chunk it names was never stored. *)
Lemma uid_only_reference_can_fail :
  ~ (is_ok (CollectionItemSerializer_create true item_data3 db_item) = true
     <-> ivd_etag item_data3 = current_etag db_item (ivd_uid item_data3)).
Proof.
  intros [_ H].
  assert (He : ivd_etag item_data3 = current_etag db_item (ivd_uid item_data3))
    by (vm_compute; reflexivity).
  specialize (H He). revert H. vm_compute. discriminate.
Qed.

Lemma uid_unique_db_item : uid_unique db_item.
Proof. unfold db_item. exact (uid_unique_run sample_prefix empty_db uid_unique_empty). Qed.

Lemma etag_gate_witness :
  is_ok (CollectionItemSerializer_create true item_data2 db_item) = true
  /\ CollectionItemSerializer_create true item_data_stale db_item
     = (inl (ValidationError (wrong_etag_msg (Some "r1") None)), db_item)
  /\ is_ok (CollectionItemSerializer_create true item_data_new db_item) = true.
Proof.
  assert (Hf2 : ChunksField_many item_json2
                = inr (rd_chunks_relation (ivd_content item_data2)))
    by (vm_compute; reflexivity).
  assert (Hfs : ChunksField_many item_json2
                = inr (rd_chunks_relation (ivd_content item_data_stale)))
    by (vm_compute; reflexivity).
  assert (Hfn : ChunksField_many item_json2
                = inr (rd_chunks_relation (ivd_content item_data_new)))
    by (vm_compute; reflexivity).
  assert (Hc : current_etag db_item (Some "i1") = Some "r1")
    by (vm_compute; reflexivity).
  assert (Hn : current_etag db_item (Some "i9") = None)
    by (vm_compute; reflexivity).
  split; [|split].
  - pose proof (strict_upsert_gate item_json2 item_data2 db_item Inv_db_item
                  (uid_unique_db_item "i1") Hf2) as H.
    cbv zeta in H. destruct H as (H & _).
    apply H. change (ivd_uid item_data2) with (Some "i1"). rewrite Hc. reflexivity.
  - pose proof (strict_upsert_gate item_json2 item_data_stale db_item Inv_db_item
                  (uid_unique_db_item "i1") Hfs) as H.
    cbv zeta in H. destruct H as (_ & H & _).
    change (ivd_uid item_data_stale) with (Some "i1") in H. rewrite Hc in H.
    apply H. discriminate.
  - pose proof (strict_upsert_gate item_json2 item_data_new db_item Inv_db_item
                  (uid_unique_db_item "i9") Hfn) as H.
    cbv zeta in H. destruct H as (H & _).
    apply H. change (ivd_uid item_data_new) with (Some "i9"). rewrite Hn. reflexivity.
Defined.

Lemma process_revisions_for_item_witness :
  (exists rev db',
      process_revisions_for_item bare_item (ivd_content item_data1) db_col
      = (inr rev, db')
      /\ rev_current rev = Some true
      /\ db_revisions db' = db_revisions db_col ++ [rev]
      /\ map rel_chunk (skipn (length (db_relations db_col)) (db_relations db'))
         = [8; 3])
  /\ is_ok (process_revisions_for_item bare_item (ivd_content item_data3) db_col)
     = false.
Proof.
  pose proof (process_revisions_for_item_spec bare_item (ivd_content item_data1) db_col)
    as H1. cbv zeta in H1. destruct H1 as (H1 & _).
  pose proof (process_revisions_for_item_spec bare_item (ivd_content item_data3) db_col)
    as H3. cbv zeta in H3. destruct H3 as (_ & _ & H3).
  split.
  - assert (Hp : process_revisions_for_item bare_item (ivd_content item_data1) db_col
                 = (inr (mkCollectionItemRevision 9 "r1" 50 3 [] false (Some true)),
                    snd (process_revisions_for_item bare_item
                           (ivd_content item_data1) db_col)))
      by (vm_compute; reflexivity).
    destruct (H1 _ _ Hp) as (objs & _ & _ & _ & _ & _ & _ & Hrevs & _).
    eexists. eexists. split; [exact Hp|]. split; [reflexivity|].
    split; [exact Hrevs|]. vm_compute. reflexivity.
  - apply (H3 "c9").
    + vm_compute. left. reflexivity.
    + vm_compute. intros [H|[H|[]]]; discriminate.
    + intros content Hc. revert Hc. vm_compute. intros [Hc|[]]. discriminate.
Defined.

Lemma collection_create_witness :
  is_ok (CollectionSerializer_create col_data empty_db) = true
  /\ CollectionSerializer_create col_data_with_etag db_col
     = (inl (ValidationError "Stoken is not None"), db_col)
  /\ exists pk,
       db_members (snd (CollectionSerializer_create col_data empty_db))
       = [mkCollectionMember pk 0 2 alice ADMIN [x07]].
Proof.
  pose proof (collection_create_spec col_data empty_db) as (_ & _ & Hok & Hret).
  split; [|split].
  - apply Hret; vm_compute; reflexivity.
  - apply (proj1 (collection_create_spec col_data_with_etag db_col) "r9").
    vm_compute. reflexivity.
  - assert (Hc : CollectionSerializer_create col_data empty_db
                 = (inr col0, snd (CollectionSerializer_create col_data empty_db)))
      by (vm_compute; reflexivity).
    destruct (Hok _ _ Hc) as (_ & objs & _ & _ & _ & _ & Hm & _).
    rewrite Hm. eexists. reflexivity.
Defined.

Lemma accept_invitation_witness :
  InvitationAcceptSerializer_create invitation_of_bob [x0c] db_accepted
  = (inl IntegrityError, db_accepted)
  /\ exists member db',
       InvitationAcceptSerializer_create invitation_of_bob [x0c] db_invited
       = (inr member, db')
       /\ member = mkCollectionMember 9 0 3 bob READ_ONLY [x0c]
       /\ db_members db' = db_members db_invited ++ [member]
       /\ db_invitations db' = [].
Proof.
  split.
  - apply (proj1 (accept_invitation_spec invitation_of_bob [x0c] db_accepted)).
    apply member_taken_iff. vm_compute. reflexivity.
  - destruct (proj2 (accept_invitation_spec invitation_of_bob [x0c] db_invited))
      as (member & db' & Hc & Hm & _ & _ & Hms & Hi & _).
    + intro Hex. apply member_taken_iff in Hex. revert Hex.
      vm_compute. discriminate.
    + exists member, db'. split; [exact Hc|]. split; [|split].
      * rewrite Hm. vm_compute. reflexivity.
      * exact Hms.
      * rewrite Hi. vm_compute. reflexivity.
Defined.

Lemma upsert_existing_item_witness :
  In item_i1 (db_items db_item)
  /\ db_items (snd (CollectionItemSerializer_create true item_data2 db_item))
     = db_items db_item
  /\ ivd_version item_data2 <> item_version item_i1.
Proof.
  assert (H1 : CollectionItemSerializer_create true item_data2 db_item
               = (inr item_i1,
                  snd (CollectionItemSerializer_create true item_data2 db_item)))
    by (vm_compute; reflexivity).
  assert (H2 : items_with_uid db_item (ivd_uid item_data2) <> [])
    by (vm_compute; discriminate).
  destruct (proj2 (upsert_existing_item_frame true item_data2 db_item _ item_i1 H1) H2)
    as (_ & Hin & Hitems & _).
  split; [exact Hin|]. split; [exact Hitems|].
  vm_compute. discriminate.
Defined.

Lemma stoken_monotonic_witness :
  In 2 (allocated (CollectionCreate col_data) (run [] empty_db))
  /\ In 3 (allocated (ItemUpsert true item_data1)
             (run ([] ++ CollectionCreate col_data :: []) empty_db))
  /\ 2 < 3.
Proof.
  assert (H1 : In 2 (allocated (CollectionCreate col_data) (run [] empty_db)))
    by (vm_compute; right; left; reflexivity).
  assert (H2 : In 3 (allocated (ItemUpsert true item_data1)
                       (run ([] ++ CollectionCreate col_data :: []) empty_db)))
    by (vm_compute; left; reflexivity).
  split; [exact H1|]. split; [exact H2|].
  exact (proj2 (stoken_monotonic empty_db) [] (CollectionCreate col_data) []
           (ItemUpsert true item_data1) 2 3 H1 H2).
Defined.

(** The claim of C4 as the specification words it fails on the source:
    storing the same uid and content twice succeeds twice, the second call
    returns a row that was not stored before, and two rows carry the
    uid. *)
Lemma chunk_store_counterexample :
  let first := store_chunks bare_item [("c1", Some [x01])] [] empty_db in
  let second := store_chunks bare_item [("c1", Some [x01])] [] (snd first) in
  is_ok first = true
  /\ is_ok second = true
  /\ length (db_chunks (snd second)) <> 1
  /\ uid_count "c1" (map chunk_uid (db_chunks (snd second))) = 2
  /\ fst second = inr [mkCollectionItemChunk 1 "c1" 50 [x01]]
  /\ ~ In (mkCollectionItemChunk 1 "c1" 50 [x01]) (db_chunks (snd first)).
Proof.
  vm_compute. repeat split; try discriminate.
  intros [H|[]]. discriminate.
Qed.

(** ** Invitations *)

(** Issuing an invitation never raises a validation error: the field
    validation finds no method to call, and [create] raises only what the
    lookup of the inviting member raises. *)
Lemma invite_never_rejects (request_user : User) (collection : Collection)
      (d : InvitationData) (db db' : DB) (e : Exn) :
  invite request_user collection d db = (inl e, db') ->
  e = DoesNotExist \/ e = MultipleObjectsReturned.
Proof.
  rewrite invite_eq, CollectionInvitationSerializer_create_eq.
  unfold objects_get.
  destruct (filter _ (db_members db)) as [|m [|m' l]]; intro H;
    inversion H; auto.
Qed.

(** C8, on the source.  Alice, a member of her collection, invites
    herself: the call raises nothing and stores an invitation from Alice's
    membership to Alice; it allocates no stoken. *)
Theorem self_invite_is_accepted :
  exists invitation db',
    invite alice col0 self_invitation db_col = (inr invitation, db')
    /\ inv_user invitation = alice
    /\ (exists m, In m (db_members db_col)
                  /\ mem_id m = inv_fromMember invitation
                  /\ mem_user m = alice)
    /\ db_invitations db' = db_invitations db_col ++ [invitation]
    /\ db_stokens db' = db_stokens db_col
    /\ validate_user alice (PyUser alice) = inl AttributeError
    /\ validate_user alice (PyStr "alice") = inr (PyStr "alice").
Proof.
  exists (mkCollectionInvitation 8 "inv0" 0 7 alice READ_WRITE [x0a] 1).
  exists (snd (invite alice col0 self_invitation db_col)).
  split; [vm_compute; reflexivity|].
  split; [reflexivity|]. split.
  - exists (mkCollectionMember 7 0 2 alice ADMIN [x07]).
    vm_compute. repeat split. left. reflexivity.
  - vm_compute. repeat split.
Qed.

End ScenarioFacts.

(** * Further properties *)

(** ** The base64url encoding *)

Module Base64More.
Import Base64 Base64Facts.

Lemma enc_char_alphabet (v : N) : (v < 64)%N -> urlsafe_alphabet (enc_char v) = true.
Proof.
  intro Hv. rewrite <- (N2Nat.id v).
  apply (forall_below_spec 64 (fun i => urlsafe_alphabet (enc_char (N.of_nat i)))).
  - vm_compute. reflexivity.
  - lia.
Qed.

(** The shape of the padded encoding, with the length and the alphabet of
    its body. *)
Lemma encoded_profile (v : bytes) :
  exists body k,
    urlsafe_b64encode v = body ++ repeat pad_char k
    /\ forallb not_pad body = true
    /\ forallb urlsafe_alphabet body = true
    /\ length body = (4 * length v + 2) / 3
    /\ (4 - length body mod 4) mod 4 = k.
Proof.
  induction v as [| a | a b | a b c rest IH] using list_ind3.
  - exists [], 0. repeat split.
  - destruct (check1_facts a) as (H0 & _ & H1 & _).
    exists [enc_char (s0 a); enc_char (t1 a)], 2. repeat split.
    + cbn [forallb]. now rewrite !enc_char_not_pad'.
    + cbn [forallb]. now rewrite !enc_char_alphabet.
  - destruct (check1_facts a) as (H0 & _).
    destruct (check1_facts b) as (_ & _ & _ & H2 & _).
    destruct (check2_facts a b) as (H1 & _).
    exists [enc_char (s0 a); enc_char (s1 a b); enc_char (t2 b)], 1. repeat split.
    + cbn [forallb]. now rewrite !enc_char_not_pad'.
    + cbn [forallb]. now rewrite !enc_char_alphabet.
  - destruct IH as (body & k & Hs & Hb & Ha & Hl & Hk).
    destruct (check1_facts a) as (H0 & _).
    destruct (check1_facts c) as (_ & H3 & _).
    destruct (check2_facts a b) as (H1 & _).
    destruct (check2_facts b c) as (_ & H2 & _).
    exists (enc_char (s0 a) :: enc_char (s1 a b) :: enc_char (s2 b c)
            :: enc_char (s3 c) :: body), k.
    split; [|split; [|split; [|split]]].
    + rewrite urlsafe_b64encode_3, Hs. reflexivity.
    + cbn [forallb]. now rewrite !enc_char_not_pad', Hb.
    + cbn [forallb]. now rewrite !enc_char_alphabet, Ha.
    + cbn [length]. rewrite Hl.
      replace (4 * S (S (S (length rest))) + 2)
        with ((4 * length rest + 2) + 4 * 3) by lia.
      rewrite Nat.div_add by discriminate. lia.
    + cbn [length].
      replace (S (S (S (S (length body))))) with (length body + 1 * 4) by lia.
      now rewrite Nat.Div0.mod_add.
Qed.

Lemma b64encode_body (v : bytes) :
  forallb urlsafe_alphabet (b64encode v) = true
  /\ length (b64encode v) = (4 * length v + 2) / 3
  /\ b64encode v ++ repeat pad_char ((4 - length (b64encode v) mod 4) mod 4)
     = urlsafe_b64encode v.
Proof.
  destruct (encoded_profile v) as (body & k & Hs & Hb & Ha & Hl & Hk).
  assert (He : b64encode v = body).
  { unfold b64encode. rewrite Hs. now apply strip_body. }
  rewrite He, Hk. auto.
Qed.

Lemma b64decode_b64encode (v : bytes) : b64decode (b64encode v) = inr v.
Proof.
  destruct (b64encode_body v) as (_ & _ & Hpad).
  unfold b64decode. rewrite Hpad.
  unfold urlsafe_b64decode. rewrite encoded_is_ascii.
  unfold a2b_base64. apply (decode_encoded v []).
Qed.

Lemma urlsafe_b64encode_length (v : bytes) : length (urlsafe_b64encode v) mod 4 = 0.
Proof.
  induction v as [| a | a b | a b c rest IH] using list_ind3; try reflexivity.
  rewrite urlsafe_b64encode_3. cbn [length].
  replace (S (S (S (S (length (urlsafe_b64encode rest))))))
    with (length (urlsafe_b64encode rest) + 1 * 4) by lia.
  now rewrite Nat.Div0.mod_add.
Qed.

(** X1. The text [b64encode] writes for [n] bytes has [(4 n + 2) / 3]
    characters, the length of unpadded base64. *)
Theorem b64encode_length (v : bytes) :
  length (b64encode v) = (4 * length v + 2) / 3.
Proof. apply b64encode_body. Qed.

(** X2. Every character [b64encode] writes is a letter, a digit, [-] or
    [_]. *)
Theorem b64encode_alphabet (v : bytes) (c : ascii) :
  In c (b64encode v) -> urlsafe_alphabet c = true.
Proof.
  destruct (b64encode_body v) as (Ha & _).
  rewrite forallb_forall in Ha. apply Ha.
Qed.

(** X3. [b64decode] takes padded text as well: the padded encoding of a
    byte string, as [base64.urlsafe_b64encode] writes it, decodes to that
    byte string. *)
Theorem b64decode_padded (v : bytes) :
  b64decode (urlsafe_b64encode v) = inr v.
Proof.
  unfold b64decode. rewrite urlsafe_b64encode_length. cbn [Nat.sub Nat.modulo repeat].
  rewrite app_nil_r.
  unfold urlsafe_b64decode. rewrite encoded_is_ascii.
  unfold a2b_base64. apply (decode_encoded v []).
Qed.

(** X4. [b64encode] is injective: two byte strings with the same text are
    the same byte string. *)
Theorem b64encode_injective (v w : bytes) :
  b64encode v = b64encode w -> v = w.
Proof.
  intro H. pose proof (b64decode_b64encode v) as Hv.
  rewrite H, b64decode_b64encode in Hv. now injection Hv.
Qed.

(** X5. [b64decode] raises [ValueError] on a text that holds a character
    outside ASCII, whatever else the text holds. *)
Theorem b64decode_non_ascii (data : str) (c : ascii) :
  In c data -> is_ascii c = false -> b64decode data = inl ValueError.
Proof.
  intros Hin Hc. unfold b64decode, urlsafe_b64decode.
  destruct (forallb is_ascii _) eqn:E; [|reflexivity].
  rewrite forallb_forall in E.
  rewrite (E c) in Hc; [discriminate|]. apply in_or_app. now left.
Qed.

End Base64More.

Module Base64Errors.
Import Base64 Base64Facts.

Lemma ascii_forall (P : ascii -> bool) :
  forall_below 256 (fun i => P (ascii_of_nat i)) = true -> forall c, P c = true.
Proof.
  intros H c. rewrite <- (ascii_nat_embedding c).
  apply (forall_below_spec _ _ H). apply nat_ascii_bounded.
Qed.

(** A character of the alphabet is ASCII, is no pad and has a six-bit
    value. *)
Lemma alphabet_decodes (c : ascii) :
  urlsafe_alphabet c = true ->
  is_ascii c = true
  /\ Ascii.eqb (dec c) pad_char = false
  /\ exists v, a2b (dec c) = Some v.
Proof.
  intro Hc.
  assert (H : (negb (urlsafe_alphabet c)
               || (is_ascii c && negb (Ascii.eqb (dec c) pad_char)
                   && match a2b (dec c) with Some _ => true | None => false end))
              = true).
  { revert c Hc. intros c _. revert c. apply ascii_forall. vm_compute. reflexivity. }
  rewrite Hc in H. cbn [negb orb] in H.
  repeat rewrite andb_true_iff in H. destruct H as [[H1 H2] H3].
  apply negb_true_iff in H2. repeat split; auto.
  destruct (a2b (dec c)) as [v|]; [now exists v | discriminate].
Qed.

(** The decoder on a run of alphabet characters: only the position in the
    quad matters for what follows. *)
Lemma a2b_loop_alphabet (s : str) :
  forallb urlsafe_alphabet s = true ->
  forall rest q l p out,
    q < 4 ->
    exists l' p' out',
      a2b_loop (map dec s ++ rest) q l p out
      = a2b_loop rest ((q + length s) mod 4) l' p' out'.
Proof.
  induction s as [|c s IH]; intros Hs rest q l p out Hq.
  - exists l, p, out. cbn [map app length]. rewrite Nat.add_0_r.
    now rewrite Nat.mod_small.
  - cbn [forallb] in Hs. apply andb_true_iff in Hs. destruct Hs as [Hc Hs].
    destruct (alphabet_decodes c Hc) as (_ & Hp & v & Hv).
    cbn [map app a2b_loop]. rewrite Hp, Hv.
    replace ((q + length (c :: s)) mod 4) with (((S q) mod 4 + length s) mod 4)
      by (rewrite Nat.Div0.add_mod_idemp_l; cbn [length]; f_equal; lia).
    destruct q as [|[|[|[|q]]]]; try lia.
    + apply (IH Hs rest 1); lia.
    + apply (IH Hs rest 2); lia.
    + apply (IH Hs rest 3); lia.
    + apply (IH Hs rest 0); lia.
Qed.

(** X6. [b64decode] raises the [binascii] error on a text of letters,
    digits, [-] and [_] whose length is one more than a multiple of four:
    no byte string has such an encoding. *)
Theorem b64decode_bad_length (data : str) :
  forallb urlsafe_alphabet data = true ->
  length data mod 4 = 1 ->
  b64decode data = inl BinasciiError.
Proof.
  intros Ha Hl. unfold b64decode. rewrite Hl.
  cbn [Nat.sub Nat.modulo Nat.divmod fst snd repeat].
  unfold urlsafe_b64decode.
  assert (Hascii : forallb is_ascii (data ++ [pad_char; pad_char; pad_char]) = true).
  { rewrite forallb_app. apply andb_true_iff. split; [|reflexivity].
    apply forallb_forall. intros c Hc. rewrite forallb_forall in Ha.
    now apply alphabet_decodes, Ha. }
  change (repeat pad_char ((4 - 1) mod 4)) with [pad_char; pad_char; pad_char].
  rewrite Hascii. unfold a2b_base64. rewrite map_app.
  destruct (a2b_loop_alphabet data Ha
              (map urlsafe_decode_translation [pad_char; pad_char; pad_char])
              0 0%N 0 [] ltac:(lia)) as (l' & p' & out' & H).
  change (map urlsafe_decode_translation data) with (map dec data).
  rewrite H. cbn [Nat.add]. rewrite Hl. reflexivity.
Qed.

End Base64Errors.

(** ** The uid validators *)

Lemma class_run_spec (n : nat) :
  forall s, class_run n s = true
            <-> n <= length s /\ forallb uid_class (firstn n s) = true.
Proof.
  induction n as [|n IH]; intro s.
  - cbn. split; [intros _; split; [lia | reflexivity] | reflexivity].
  - destruct s as [|c t]; cbn [class_run length firstn forallb].
    + split; [discriminate | intros [H _]; lia].
    + rewrite andb_true_iff, IH. split.
      * intros (Hc & Hl & Hf). split; [lia | now rewrite Hc].
      * intros (Hl & Hf). apply andb_true_iff in Hf. destruct Hf as [Hc Hf].
        repeat split; auto. lia.
Qed.

Lemma RegexValidator_search_short (s : str) :
  length s < 43 -> RegexValidator_search s = false.
Proof.
  induction s as [|c t IH]; intro Hl.
  - reflexivity.
  - cbn [RegexValidator_search].
    destruct (class_run 43 (c :: t)) eqn:E.
    + apply class_run_spec in E. lia.
    + cbn [orb]. apply IH. cbn [length] in Hl. lia.
Qed.

(** X7. The validators of a uid field accept exactly the texts of 43
    characters of the class, and the texts of 44 characters whose first 43
    or last 43 characters are of the class: the pattern is searched for,
    not anchored, so one foreign character may lead or trail. *)
Theorem uid_field_valid_spec (s : str) :
  uid_field_valid s = true
  <-> (length s = 43 /\ forallb uid_class s = true)
      \/ (length s = 44
          /\ (forallb uid_class (firstn 43 s) = true
              \/ forallb uid_class (skipn 1 s) = true)).
Proof.
  unfold uid_field_valid. rewrite andb_true_iff, Nat.leb_le. split.
  - intros [Hs Hl].
    destruct s as [|c t]; [discriminate|].
    cbn [RegexValidator_search] in Hs. apply orb_true_iff in Hs.
    destruct Hs as [Hs|Hs].
    + apply class_run_spec in Hs. destruct Hs as [Hge Hf].
      assert (Hcase : length (c :: t) = 43 \/ length (c :: t) = 44) by lia.
      destruct Hcase as [H43|H44].
      * left. split; [exact H43|]. rewrite <- H43, firstn_all in Hf. exact Hf.
      * right. split; [exact H44 | now left].
    + destruct (Nat.lt_ge_cases (length t) 43) as [Hlt|Hge].
      * rewrite RegexValidator_search_short in Hs by exact Hlt. discriminate.
      * cbn [length] in Hl. assert (H43 : length t = 43) by lia.
        right. split; [cbn [length]; lia|]. right. cbn [skipn].
        destruct t as [|c' t']; [discriminate|].
        cbn [RegexValidator_search] in Hs. apply orb_true_iff in Hs.
        destruct Hs as [Hs|Hs].
        -- apply class_run_spec in Hs. destruct Hs as [_ Hf].
           rewrite <- H43, firstn_all in Hf. exact Hf.
        -- rewrite RegexValidator_search_short in Hs; [discriminate|].
           cbn [length] in H43. lia.
  - intros [[Hl Hf]|[Hl [Hf|Hf]]].
    + split; [|lia]. destruct s as [|c t]; [discriminate|].
      cbn [RegexValidator_search].
      assert (Hr : class_run 43 (c :: t) = true).
      { apply class_run_spec. split; [lia|]. now rewrite <- Hl, firstn_all. }
      now rewrite Hr.
    + split; [|lia]. destruct s as [|c t]; [discriminate|].
      cbn [RegexValidator_search].
      assert (Hr : class_run 43 (c :: t) = true).
      { apply class_run_spec. split; [lia | exact Hf]. }
      now rewrite Hr.
    + split; [|lia]. destruct s as [|c t]; [discriminate|].
      cbn [RegexValidator_search skipn] in *.
      assert (Hr : RegexValidator_search t = true).
      { destruct t as [|c' t']; [discriminate|].
        cbn [RegexValidator_search].
        assert (Hr : class_run 43 (c' :: t') = true).
        { apply class_run_spec. cbn [length] in Hl.
          split; [cbn [length]; lia|].
          replace 43 with (length (c' :: t')) by (cbn [length]; lia).
          now rewrite firstn_all. }
        now rewrite Hr. }
      rewrite Hr. apply orb_true_r.
Qed.

Lemma urlsafe_alphabet_uid_class (c : ascii) :
  urlsafe_alphabet c = true -> uid_class c = true.
Proof.
  unfold urlsafe_alphabet, uid_class. cbv zeta. intros ->. reflexivity.
Qed.

(** X8. The text [b64encode] writes for any 32 bytes, a 256-bit uid, has
    43 characters and passes the validators of the uid fields. *)
Theorem encoded_uid_is_valid (v : bytes) :
  length v = 32 ->
  length (Base64.b64encode v) = 43 /\ uid_field_valid (Base64.b64encode v) = true.
Proof.
  intro Hl.
  destruct (Base64More.b64encode_body v) as (Ha & Hlen & _).
  rewrite Hl in Hlen. change ((4 * 32 + 2) / 3) with 43 in Hlen.
  split; [exact Hlen|].
  unfold uid_field_valid. rewrite Hlen. cbn [Nat.leb andb].
  rewrite andb_true_r.
  destruct (Base64.b64encode v) as [|c t] eqn:E; [discriminate|].
  cbn [RegexValidator_search].
  assert (Hr : class_run 43 (c :: t) = true).
  { apply class_run_spec. split; [lia|]. rewrite <- Hlen, firstn_all.
    apply forallb_forall. intros x Hx. rewrite forallb_forall in Ha.
    now apply urlsafe_alphabet_uid_class, Ha. }
  now rewrite Hr.
Qed.

(** ** The chunks field *)

(** X9. A chunk written out with inline content reads back, through
    [ChunksField.to_internal_value], as the reference of its uid and its
    content; the representation without content cannot be read back: it
    raises [IndexError]. *)
Theorem ChunksField_roundtrip (chunk : CollectionItemChunk) :
  ChunksField_to_internal_value (ChunksField_to_representation true chunk)
  = inr (chunk_uid chunk, Some (chunk_chunkFile chunk))
  /\ ChunksField_to_internal_value (ChunksField_to_representation false chunk)
     = inl IndexError.
Proof.
  split; [|reflexivity].
  unfold ChunksField_to_representation, ChunksField_to_internal_value,
    BinaryBase64Field_to_internal_value, BinaryBase64Field_to_representation.
  rewrite list_ascii_of_string_of_list_ascii.
  now rewrite Base64More.b64decode_b64encode.
Qed.

Lemma stored_all (refs : list ChunkRef) :
  forallb has_content refs = true ->
  forall res, length res = length refs -> stored refs res = res.
Proof.
  induction refs as [|[uid [c|]] rest IH]; intros H res Hl.
  - destruct res; [reflexivity | discriminate].
  - destruct res as [|o os]; [discriminate|]. cbn [stored]. f_equal.
    apply IH; [now apply andb_true_iff in H | now injection Hl].
  - discriminate.
Qed.

(** X10. The references the [chunks] field accepts all carry content, so
    the chunk loop of [process_revisions_for_item] never fails on them and
    never looks a chunk up: it inserts one new chunk row per reference,
    whatever the table holds. *)
Theorem field_references_upload
        (data : list (list string)) (refs : list ChunkRef) :
  ChunksField_many data = inr refs ->
  forall item objs db,
    exists res,
      store_chunks item refs objs db
      = (inr (objs ++ res),
         set_next_id (db_next_id db + length data)
           (set_chunks (db_chunks db ++ res) db))
      /\ length res = length data
      /\ map chunk_uid res = map fst refs.
Proof.
  intros Hm item objs db.
  destruct (ChunksField_many_content data refs Hm) as [Hc Hl].
  pose proof (store_chunks_is_ok item refs objs db) as Hok.
  rewrite (has_content_resolve refs Hc) in Hok.
  destruct (store_chunks item refs objs db) as [[e|objs'] db'] eqn:Hs;
    [discriminate|].
  apply store_chunks_inv in Hs. destruct Hs as (res & -> & -> & Hu & _).
  assert (Hlen : length res = length refs).
  { rewrite <- (length_map chunk_uid res), Hu. apply length_map. }
  rewrite (stored_all refs Hc res Hlen), Hlen, Hl.
  exists res. repeat split; [congruence | exact Hu].
Qed.

(** ** Etags along the history of an item *)

Lemma process_fills_hole (item : CollectionItem) (rd : RevisionData)
      (db db' : DB) (rev : CollectionItemRevision) :
  inv_on (Some (item_id item)) (db_items db) (db_revisions db) (db_next_id db) ->
  In item (db_items db) ->
  process_revisions_for_item item rd db = (inr rev, db') ->
  current_revisions db' (item_id item) = [rev]
  /\ rev_uid rev = rd_uid rd
  /\ db_items db' = db_items db.
Proof.
  intros Hinv Hin Hp.
  pose proof (inv_on_no_current _ _ _ _ Hinv Hin) as Hno.
  apply existsb_false_filter in Hno.
  apply process_revisions_for_item_inv in Hp.
  destruct Hp as (objs & Hrev & _ & Hdb & _). cbv zeta in Hrev, Hdb.
  subst db'. cbn [db_items]. repeat split.
  - unfold current_revisions. cbn [db_revisions].
    change (fun r => (rev_item r =? item_id item) && is_current r)
      with (cur_of (item_id item)).
    rewrite filter_app, Hno. cbn [app filter].
    rewrite Hrev at 1. unfold cur_of, new_revision, is_current.
    cbn. now rewrite Nat.eqb_refl.
  - now rewrite Hrev.
Qed.

Lemma items_with_uid_in (db : DB) (uid : option Uid) (instance : CollectionItem) :
  items_with_uid db uid = [instance] -> In instance (db_items db).
Proof.
  unfold items_with_uid. intro Hl.
  assert (Hf : In instance
                 (filter (fun it => opt_uid_eqb (item_uid it) uid) (db_items db)))
    by (rewrite Hl; now left).
  apply filter_In in Hf. tauto.
Qed.

(** After a successful upsert the item has exactly the new revision as its
    current one and is the one item carrying the uid. *)
Lemma upsert_outcome (v : bool) (d : ItemData) (db db' : DB)
      (instance : CollectionItem) :
  Inv db ->
  CollectionItemSerializer_create v d db = (inr instance, db') ->
  exists rev,
    current_revisions db' (item_id instance) = [rev]
    /\ rev_uid rev = rd_uid (ivd_content d)
    /\ items_with_uid db' (ivd_uid d) = [instance].
Proof.
  intros Hdb H. rewrite CollectionItemSerializer_create_eq in H.
  destruct (items_with_uid db (ivd_uid d)) as [|inst [|other l]] eqn:Hl.
  - destruct (v && negb (opt_uid_eqb None (ivd_etag d))); [discriminate|].
    unfold commit_revision in H.
    destruct (process_revisions_for_item _ _ _) as [[e|rev] db1] eqn:Hp;
      [discriminate|].
    injection H as Hi Hd. subst instance db1.
    apply process_fills_hole in Hp.
    + destruct Hp as (Hc & Hu & Hi). exists rev. repeat split; auto.
      unfold items_with_uid in *. rewrite Hi.
      cbn [db_items set_items set_next_id]. rewrite filter_app, Hl.
      cbn [app filter created_item item_uid].
      assert (E : opt_uid_eqb (ivd_uid d) (ivd_uid d) = true)
        by now apply opt_uid_eqb_eq.
      now rewrite E.
    + cbn [db_items db_revisions db_next_id set_items set_next_id].
      apply (inv_on_add_item _ _ _ (created_item d db) Hdb). reflexivity.
    + cbn [db_items set_items set_next_id]. apply in_or_app. right. now left.
  - cbv zeta in H.
    destruct (v && negb (opt_uid_eqb (CollectionItem_etag db inst) (ivd_etag d)));
      [discriminate|].
    destruct (hd_error (current_revisions db (item_id inst))) as [r|] eqn:Hhd;
      [|discriminate].
    unfold commit_revision in H.
    destruct (process_revisions_for_item _ _ _) as [[e|rev] db1] eqn:Hp;
      [discriminate|].
    injection H as Hi Hd. subst inst db1.
    pose proof (items_with_uid_in _ _ _ Hl) as Hin.
    apply process_fills_hole in Hp.
    + destruct Hp as (Hc & Hu & Hi). exists rev. repeat split; auto.
      unfold items_with_uid in *. now rewrite Hi.
    + cbn [db_items db_revisions db_next_id set_revisions].
      now apply inv_on_demote.
    + exact Hin.
  - discriminate.
Qed.

(** X11. After a successful upsert, strict or not, the etag of the item is
    the uid of the revision the upsert brought. *)
Theorem upsert_sets_etag (v : bool) (d : ItemData) (db db' : DB)
        (instance : CollectionItem) :
  Inv db ->
  CollectionItemSerializer_create v d db = (inr instance, db') ->
  CollectionItem_etag db' instance = Some (rd_uid (ivd_content d)).
Proof.
  intros Hdb H.
  destruct (upsert_outcome v d db db' instance Hdb H) as (rev & Hc & Hu & _).
  unfold CollectionItem_etag. now rewrite Hc, Hu.
Qed.

(** X12. Lost updates are refused: once a strict upsert has succeeded,
    every strict upsert of the same uid whose etag is not the uid of the
    revision just written fails with the wrong-etag error, naming that uid
    as the expected etag, and changes nothing.  So of two writers that
    read the same etag, the second is turned away. *)
Theorem stale_upsert_is_refused (d d2 : ItemData) (db db' : DB)
        (instance : CollectionItem) :
  Inv db ->
  CollectionItemSerializer_create true d db = (inr instance, db') ->
  ivd_uid d2 = ivd_uid d ->
  ivd_etag d2 <> Some (rd_uid (ivd_content d)) ->
  CollectionItemSerializer_create true d2 db'
  = (inl (ValidationError
            (wrong_etag_msg (Some (rd_uid (ivd_content d))) (ivd_etag d2))),
     db').
Proof.
  intros Hdb H Huid Hne.
  destruct (upsert_outcome true d db db' instance Hdb H) as (rev & Hc & Hu & Hi).
  rewrite CollectionItemSerializer_create_eq, Huid, Hi. cbv zeta.
  assert (He : CollectionItem_etag db' instance = Some (rd_uid (ivd_content d))).
  { unfold CollectionItem_etag. now rewrite Hc, Hu. }
  rewrite He.
  assert (E : opt_uid_eqb (Some (rd_uid (ivd_content d))) (ivd_etag d2) = false)
    by (apply opt_uid_eqb_neq; congruence).
  now rewrite E.
Qed.

Lemma CollectionItemDepSerializer_validate_eq (uid etag : Uid) (db : DB) :
  CollectionItemDepSerializer_validate uid etag db
  = match objects_get (fun it => opt_uid_eqb (item_uid it) (Some uid)) (db_items db) with
    | inl e => (inl e, db)
    | inr item =>
        if negb (opt_uid_eqb (CollectionItem_etag db item) (Some etag))
        then (inl (ValidationError
                     (wrong_etag_msg (CollectionItem_etag db item) (Some etag))), db)
        else (inr (uid, etag), db)
    end.
Proof.
  unfold CollectionItemDepSerializer_validate, bind, get_db, lift.
  destruct (objects_get _ (db_items db)) as [e|item]; [reflexivity|].
  cbn [ret]. now destruct (negb _).
Qed.

(** X13. The dependency check agrees with the upsert: after a successful
    upsert of a uid, [CollectionItemDepSerializer.validate] accepts the
    pair of that uid and the uid of the revision just written, and refuses
    the uid with any other etag by the wrong-etag error; it never writes. *)
Theorem dep_validate_after_upsert (v : bool) (d : ItemData) (db db' : DB)
        (instance : CollectionItem) (uid etag : Uid) :
  Inv db ->
  ivd_uid d = Some uid ->
  CollectionItemSerializer_create v d db = (inr instance, db') ->
  CollectionItemDepSerializer_validate uid etag db'
  = if String.eqb (rd_uid (ivd_content d)) etag
    then (inr (uid, etag), db')
    else (inl (ValidationError
                 (wrong_etag_msg (Some (rd_uid (ivd_content d))) (Some etag))), db').
Proof.
  intros Hdb Huid H.
  destruct (upsert_outcome v d db db' instance Hdb H) as (rev & Hc & Hu & Hi).
  rewrite CollectionItemDepSerializer_validate_eq.
  rewrite Huid in Hi. unfold items_with_uid in Hi. unfold objects_get. rewrite Hi.
  unfold CollectionItem_etag. rewrite Hc, Hu. cbn [opt_uid_eqb].
  now destruct (String.eqb (rd_uid (ivd_content d)) etag).
Qed.

Lemma Inv_has_one_current (db : DB) (instance : CollectionItem) :
  Inv db -> In instance (db_items db) ->
  exists r, hd_error (current_revisions db (item_id instance)) = Some r.
Proof.
  intros Hdb Hin.
  pose proof (Inv_count db (item_id instance) Hdb) as Hc.
  assert (Hex : item_exists db (item_id instance) = true).
  { unfold item_exists. apply existsb_exists. exists instance.
    split; [exact Hin | apply Nat.eqb_refl]. }
  rewrite Hex in Hc. unfold count_current in Hc.
  destruct (current_revisions db (item_id instance)) as [|r l]; [discriminate|].
  now exists r.
Qed.

(** X14. Without strict checking the etag of the request plays no part:
    when at most one item carries the uid, the upsert succeeds exactly when
    its chunk references resolve, so a writer with a stale etag, or with
    none, supersedes the current revision. *)
Theorem nonstrict_upsert_ignores_etag (d : ItemData) (db : DB) :
  Inv db ->
  length (items_with_uid db (ivd_uid d)) <= 1 ->
  is_ok (CollectionItemSerializer_create false d db)
  = refs_resolve (map chunk_uid (db_chunks db)) (rd_chunks_relation (ivd_content d)).
Proof.
  intros Hdb Hlen. rewrite CollectionItemSerializer_create_eq.
  destruct (items_with_uid db (ivd_uid d)) as [|instance [|other l]] eqn:Hl.
  - cbn [andb]. rewrite is_ok_commit_revision, process_after_hole_is_ok.
    + reflexivity.
    + cbn [db_items db_revisions db_next_id set_items set_next_id].
      apply (inv_on_add_item _ _ _ (created_item d db) Hdb). reflexivity.
    + cbn [db_items set_items set_next_id]. apply in_or_app. right. now left.
  - cbv zeta. cbn [andb].
    pose proof (items_with_uid_in _ _ _ Hl) as Hin.
    destruct (Inv_has_one_current db instance Hdb Hin) as (r & Hhd).
    rewrite Hhd, is_ok_commit_revision, process_after_hole_is_ok.
    + reflexivity.
    + cbn [db_items db_revisions db_next_id set_revisions].
      now apply inv_on_demote.
    + exact Hin.
  - cbn in Hlen. lia.
Qed.

(** ** Etags of collections *)

Lemma filter_cur_snoc (revs : list CollectionItemRevision) (item : nat)
      (rev : CollectionItemRevision) :
  filter (cur_of item) revs = [] ->
  rev_item rev = item -> rev_current rev = Some true ->
  filter (cur_of item) (revs ++ [rev]) = [rev].
Proof.
  intros Hno Hi Hc. rewrite filter_app, Hno. cbn [app filter].
  unfold cur_of, is_current. rewrite Hi, Hc, Nat.eqb_refl. reflexivity.
Qed.

(** X15. After a collection create whose primary key no stored item
    already names as its collection, the etag of the collection is the uid
    of the revision the create brought. *)
Theorem collection_create_sets_etag (d : CollectionData) (db db' : DB) (c : Collection) :
  Forall (fun it => item_collection it <> db_next_id db) (db_items db) ->
  CollectionSerializer_create d db = (inr c, db') ->
  Collection_etag db' c = inr (Some (rd_uid (cvd_content d))).
Proof.
  intros Hfresh H. rewrite CollectionSerializer_create_eq in H.
  destruct (cvd_etag d) as [e|]; [discriminate|].
  destruct (process_revisions_for_item _ _ _) as [[e|rev] db1] eqn:Hp;
    [discriminate|].
  cbv zeta in H. destruct (member_taken _ _ _); [discriminate|].
  injection H as Hc Hd. subst c db'.
  apply process_revisions_for_item_inv in Hp.
  destruct Hp as (objs & Hrev & Hno & Hdb & _). cbv zeta in Hrev, Hdb.
  change (has_current _ (item_id (created_main_item d db)))
    with (has_current db (S (db_next_id db))) in Hno.
  apply has_current_nil in Hno.
  unfold Collection_etag.
  match goal with
  | |- context [Collection_main_item ?x _] => set (dbf := x)
  end.
  assert (Hitems : db_items dbf = db_items db ++ [created_main_item d db])
    by (subst dbf db1; reflexivity).
  assert (Hrevs : db_revisions dbf = db_revisions db ++ [rev])
    by (subst dbf db1; reflexivity).
  assert (Hmain : Collection_main_item dbf (created_collection d db)
                  = inr (created_main_item d db)).
  { unfold Collection_main_item, objects_get. rewrite Hitems.
    cbn [created_collection col_id].
    rewrite filter_app, (filter_nil_none _ (db_items db)).
    - cbn [app filter created_main_item item_collection item_uid opt_uid_eqb].
      now rewrite Nat.eqb_refl.
    - intros it Hit. rewrite Forall_forall in Hfresh. specialize (Hfresh it Hit).
      apply Nat.eqb_neq in Hfresh. now rewrite Hfresh. }
  assert (Hcur : current_revisions dbf (S (db_next_id db)) = [rev]).
  { unfold current_revisions. rewrite Hrevs.
    apply (filter_cur_snoc (db_revisions db) (S (db_next_id db)) rev Hno);
      now rewrite Hrev. }
  rewrite Hmain. do 2 f_equal.
  unfold CollectionItem_etag. cbn [created_main_item item_id].
  rewrite Hcur. now rewrite Hrev.
Qed.

(** X16. After a successful collection update the etag of the collection
    is the uid of the revision just written, and every further update that
    carries another etag, the stale one of a second writer among them,
    fails with the wrong-etag error naming that uid, and changes nothing. *)
Theorem collection_update_etag_chain
        (c c' : Collection) (etag : option Uid) (rd : RevisionData) (db db' : DB) :
  Inv db ->
  CollectionSerializer_update c etag rd db = (inr c', db') ->
  Collection_etag db' c = inr (Some (rd_uid rd))
  /\ forall etag2 rd2,
       etag2 <> Some (rd_uid rd) ->
       CollectionSerializer_update c etag2 rd2 db'
       = (inl (ValidationError (wrong_etag_msg (Some (rd_uid rd)) etag2)), db').
Proof.
  intros Hdb H. rewrite CollectionSerializer_update_eq in H.
  destruct (Collection_main_item db c) as [e|main_item] eqn:Hm; [discriminate|].
  cbv zeta in H.
  destruct (negb (opt_uid_eqb etag (CollectionItem_etag db main_item)));
    [discriminate|].
  destruct (hd_error (current_revisions db (item_id main_item))) as [r|] eqn:Hhd;
    [|discriminate].
  unfold commit_revision in H.
  destruct (process_revisions_for_item _ _ _) as [[e|rev] db1] eqn:Hp;
    [discriminate|].
  injection H as _ Hd. subst db1.
  pose proof (objects_get_in _ _ _ Hm) as [Hin _].
  apply process_fills_hole in Hp.
  - destruct Hp as (Hc & Hu & Hi).
    cbn [db_items set_revisions] in Hi.
    assert (Hm' : Collection_main_item db' c = inr main_item).
    { unfold Collection_main_item in *. now rewrite Hi. }
    assert (He : CollectionItem_etag db' main_item = Some (rd_uid rd)).
    { unfold CollectionItem_etag. now rewrite Hc, Hu. }
    split.
    + unfold Collection_etag. now rewrite Hm', He.
    + intros etag2 rd2 Hne. rewrite CollectionSerializer_update_eq, Hm'.
      cbv zeta. rewrite He.
      assert (E : opt_uid_eqb etag2 (Some (rd_uid rd)) = false)
        by now apply opt_uid_eqb_neq.
      now rewrite E.
  - cbn [db_items db_revisions db_next_id set_revisions].
    now apply inv_on_demote.
  - exact Hin.
Qed.

(** ** All or nothing *)

Lemma outcome_atomic {A : Type} (m : M A) (db : DB) (e : Exn) :
  fst (outcome (atomic m db)) = Some e -> snd (outcome (atomic m db)) = db.
Proof.
  unfold atomic. destruct (m db) as [[e'|a] db1]; cbn; [reflexivity | discriminate].
Qed.

(** X17. Every call of a serializer is all or nothing: when it raises, the
    database is the one it started from. *)
Theorem failed_call_changes_nothing (o : Op) (db : DB) (e : Exn) :
  fst (exec o db) = Some e -> snd (exec o db) = db.
Proof.
  destruct o; cbn [exec].
  - apply outcome_atomic.
  - apply outcome_atomic.
  - apply outcome_atomic.
  - apply outcome_atomic.
  - rewrite invite_eq, CollectionInvitationSerializer_create_eq.
    destruct (objects_get _ _); cbn; [reflexivity | discriminate].
  - apply outcome_atomic.
  - apply outcome_atomic.
Qed.

(** ** What no call rewrites *)

Lemma extends_refl {A : Type} (l : list A) : extends l l.
Proof. exists []. now rewrite app_nil_r. Qed.

Lemma extends_trans {A : Type} (l1 l2 l3 : list A) :
  extends l1 l2 -> extends l2 l3 -> extends l1 l3.
Proof. intros [m1 ->] [m2 ->]. exists (m1 ++ m2). now rewrite app_assoc. Qed.

Lemma extends_app {A : Type} (l m : list A) : extends l (l ++ m).
Proof. now exists m. Qed.

Lemma grows_refl (db : DB) : grows db db.
Proof. repeat split; apply extends_refl. Qed.

Lemma grows_trans (d1 d2 d3 : DB) : grows d1 d2 -> grows d2 d3 -> grows d1 d3.
Proof.
  intros (A1 & A2 & A3 & A4 & A5) (B1 & B2 & B3 & B4 & B5).
  repeat split; eapply extends_trans; eauto.
Qed.

Lemma grows_process (item : CollectionItem) (rd : RevisionData) (db db' : DB)
      (rev : CollectionItemRevision) :
  process_revisions_for_item item rd db = (inr rev, db') -> grows db db'.
Proof.
  intro Hp. apply process_revisions_for_item_inv in Hp.
  destruct Hp as (objs & _ & _ & Hdb & _). cbv zeta in Hdb. subst db'.
  repeat split; cbn; try apply extends_refl; apply extends_app.
Qed.

Lemma grows_commit {A : Type} (instance : A) (item : CollectionItem)
      (rd : RevisionData) (db db1 : DB) :
  grows db db1 ->
  grows db (snd (commit_revision instance db (process_revisions_for_item item rd db1))).
Proof.
  intro H. rewrite snd_commit_revision.
  destruct (process_revisions_for_item item rd db1) as [[e|rev] db'] eqn:Hp.
  - apply grows_refl.
  - eapply grows_trans; [exact H | eapply grows_process; eauto].
Qed.

Lemma exec_grows (o : Op) (db : DB) : grows db (snd (exec o db)).
Proof.
  destruct o; cbn [exec]; rewrite snd_outcome.
  - rewrite CollectionItemSerializer_create_eq.
    destruct (items_with_uid db (ivd_uid validated_data)) as [|instance [|other l]].
    + destruct (validate_etag && _); [apply grows_refl|].
      apply grows_commit.
      repeat split; cbn; try apply extends_refl; apply extends_app.
    + cbv zeta. destruct (validate_etag && _); [apply grows_refl|].
      destruct (hd_error _); [|apply grows_refl].
      apply grows_commit. repeat split; cbn; apply extends_refl.
    + apply grows_refl.
  - rewrite CollectionSerializer_create_eq.
    destruct (cvd_etag validated_data); [apply grows_refl|].
    destruct (process_revisions_for_item _ _ _) as [[e|rev] db'] eqn:Hp;
      [apply grows_refl|].
    cbv zeta. destruct (member_taken _ _ _); [apply grows_refl|].
    cbn [snd]. apply grows_process in Hp.
    eapply grows_trans; [|eapply grows_trans; [exact Hp|]].
    + repeat split; cbn; try apply extends_refl; apply extends_app.
    + repeat split; cbn; try apply extends_refl; apply extends_app.
  - rewrite CollectionSerializer_update_eq.
    destruct (Collection_main_item db instance); [apply grows_refl|].
    cbv zeta. destruct (negb _); [apply grows_refl|].
    destruct (hd_error _); [|apply grows_refl].
    apply grows_commit. repeat split; cbn; apply extends_refl.
  - rewrite CollectionMemberSerializer_update_eq.
    destruct (negb _); [|apply grows_refl]. cbv zeta.
    destruct (violates_unique_member _ _); [apply grows_refl|].
    repeat split; cbn; try apply extends_refl; apply extends_app.
  - rewrite invite_eq, CollectionInvitationSerializer_create_eq.
    destruct (objects_get _ _); [apply grows_refl|].
    repeat split; cbn; apply extends_refl.
  - repeat split; cbn; apply extends_refl.
  - rewrite InvitationAcceptSerializer_create_eq. cbv zeta.
    destruct (member_taken _ _ _); [apply grows_refl|].
    repeat split; cbn; try apply extends_refl; apply extends_app.
Qed.

Lemma run_grows (ops : list Op) : forall db, grows db (run ops db).
Proof.
  induction ops as [|o ops IH]; intro db; [apply grows_refl|].
  cbn [run fold_left]. eapply grows_trans; [apply exec_grows | apply IH].
Qed.

(** X18. No sequence of serializer calls deletes or rewrites a
    collection, item, chunk, join row or stoken: each of these tables of
    the database it leaves is the table it found with rows appended. *)
Theorem tables_only_grow (ops : list Op) (db : DB) :
  extends (db_collections db) (db_collections (run ops db))
  /\ extends (db_items db) (db_items (run ops db))
  /\ extends (db_chunks db) (db_chunks (run ops db))
  /\ extends (db_relations db) (db_relations (run ops db))
  /\ extends (db_stokens db) (db_stokens (run ops db)).
Proof. apply run_grows. Qed.

(** ** The history of revisions *)

Lemma superseded_refl (l : list CollectionItemRevision) : Forall2 superseded l l.
Proof. induction l; constructor; [now left | assumption]. Qed.

Lemma superseded_trans (r1 r2 r3 : CollectionItemRevision) :
  superseded r1 r2 -> superseded r2 r3 -> superseded r1 r3.
Proof.
  intros [->|[H1 ->]] [->|[H2 ->]].
  - now left.
  - now right.
  - now right.
  - discriminate.
Qed.

Lemma is_current_true (r : CollectionItemRevision) :
  is_current r = true -> rev_current r = Some true.
Proof.
  unfold is_current. destruct (rev_current r) as [[|]|]; cbn; intro H;
    try discriminate; reflexivity.
Qed.

Lemma superseded_demote (revs : list CollectionItemRevision)
      (r0 : CollectionItemRevision) :
  NoDup (map rev_id revs) -> In r0 revs -> rev_current r0 = Some true ->
  Forall2 superseded revs (map (demote_row (rev_id r0)) revs).
Proof.
  intros Hnd Hin Hc.
  assert (H : forall l, (forall y, In y l -> In y revs) ->
                        Forall2 superseded l (map (demote_row (rev_id r0)) l)).
  { induction l as [|y l IH]; intro Hsub; cbn [map]; constructor.
    - unfold demote_row. destruct (rev_id y =? rev_id r0) eqn:E; [|now left].
      apply Nat.eqb_eq in E.
      assert (y = r0)
        by (apply (NoDup_map_inj_in rev_id revs); auto; apply Hsub; now left).
      subst y. now right.
    - apply IH. intros z Hz. apply Hsub. now right. }
  apply H. auto.
Qed.

Lemma revisions_step_same (db db' : DB) :
  db_revisions db' = db_revisions db -> revisions_step db db'.
Proof.
  intro H. exists (db_revisions db), []. rewrite app_nil_r.
  split; [exact H|]. split; [apply superseded_refl|].
  split; [constructor | cbn; lia].
Qed.

Lemma revisions_step_commit {A : Type} (instance : A) (item : CollectionItem)
      (rd : RevisionData) (db db1 : DB) :
  db_stokens db1 = db_stokens db ->
  Forall2 superseded (db_revisions db) (db_revisions db1) ->
  revisions_step db
    (snd (commit_revision instance db (process_revisions_for_item item rd db1))).
Proof.
  intros Hs Hsup. rewrite snd_commit_revision.
  destruct (process_revisions_for_item item rd db1) as [[e|rev] db'] eqn:Hp.
  - now apply revisions_step_same.
  - apply process_revisions_for_item_inv in Hp.
    destruct Hp as (objs & Hrev & _ & Hdb & _). cbv zeta in Hrev, Hdb.
    exists (db_revisions db1), [rev]. subst db'. cbn [db_revisions db_stokens].
    repeat split; auto.
    constructor; [|constructor]. rewrite Hrev at 1 2. cbn [rev_stoken new_revision].
    rewrite Hs. split; [lia|]. apply in_or_app. right. now left.
Qed.

Lemma exec_revisions (o : Op) (db : DB) :
  Inv db -> revisions_step db (snd (exec o db)).
Proof.
  intro Hdb. destruct o; cbn [exec]; rewrite snd_outcome.
  - rewrite CollectionItemSerializer_create_eq.
    destruct (items_with_uid db (ivd_uid validated_data))
      as [|instance [|other l]] eqn:Hl.
    + destruct (validate_etag && _); [now apply revisions_step_same|].
      apply revisions_step_commit; [reflexivity | apply superseded_refl].
    + cbv zeta. destruct (validate_etag && _); [now apply revisions_step_same|].
      destruct (hd_error _) as [r|] eqn:Hhd; [|now apply revisions_step_same].
      apply revisions_step_commit; [reflexivity|].
      cbn [db_revisions set_revisions].
      destruct Hdb as (_ & Hnd & _).
      apply hd_filter_in in Hhd. destruct Hhd as [Hr Hc].
      apply andb_true_iff in Hc. destruct Hc as [_ Hc].
      rewrite (save_by_id_demote _ r Hnd Hr).
      apply superseded_demote; auto using is_current_true.
    + now apply revisions_step_same.
  - rewrite CollectionSerializer_create_eq.
    destruct (cvd_etag validated_data); [now apply revisions_step_same|].
    destruct (process_revisions_for_item _ _ _) as [[e|rev] db'] eqn:Hp;
      [now apply revisions_step_same|].
    cbv zeta. destruct (member_taken _ _ _); [now apply revisions_step_same|].
    cbn [snd]. apply process_revisions_for_item_inv in Hp.
    destruct Hp as (objs & Hrev & _ & Hdb' & _). cbv zeta in Hrev, Hdb'.
    exists (db_revisions db), [rev]. subst db'.
    cbn [db_revisions db_stokens set_members set_next_id set_stokens set_items
         set_collections].
    repeat split; auto using superseded_refl.
    constructor; [|constructor]. rewrite Hrev at 1 2.
    cbn [rev_stoken new_revision db_stokens set_items set_collections set_next_id].
    split; [lia|]. apply in_or_app. left. apply in_or_app. right. now left.
  - rewrite CollectionSerializer_update_eq.
    destruct (Collection_main_item db instance); [now apply revisions_step_same|].
    cbv zeta. destruct (negb _); [now apply revisions_step_same|].
    destruct (hd_error _) as [r|] eqn:Hhd; [|now apply revisions_step_same].
    apply revisions_step_commit; [reflexivity|].
    cbn [db_revisions set_revisions].
    destruct Hdb as (_ & Hnd & _).
    apply hd_filter_in in Hhd. destruct Hhd as [Hr Hc].
    apply andb_true_iff in Hc. destruct Hc as [_ Hc].
    rewrite (save_by_id_demote _ r Hnd Hr).
    apply superseded_demote; auto using is_current_true.
  - rewrite CollectionMemberSerializer_update_eq.
    destruct (negb _); [|now apply revisions_step_same]. cbv zeta.
    destruct (violates_unique_member _ _); now apply revisions_step_same.
  - rewrite invite_eq, CollectionInvitationSerializer_create_eq.
    destruct (objects_get _ _); now apply revisions_step_same.
  - now apply revisions_step_same.
  - rewrite InvitationAcceptSerializer_create_eq. cbv zeta.
    destruct (member_taken _ _ _); now apply revisions_step_same.
Qed.

Lemma Forall2_in_l {A B : Type} (R : A -> B -> Prop) (l : list A) (l' : list B) (x : A) :
  Forall2 R l l' -> In x l -> exists y, In y l' /\ R x y.
Proof.
  induction 1 as [|a b l l' Hab H IH]; intro Hin; [destruct Hin|].
  destruct Hin as [<-|Hin].
  - exists b. split; [now left | exact Hab].
  - destruct (IH Hin) as (y & Hy & Hr). exists y. split; [now right | exact Hr].
Qed.

Lemma run_history (ops : list Op) :
  forall db r,
    Inv db -> In r (db_revisions db) ->
    exists r', In r' (db_revisions (run ops db)) /\ superseded r r'.
Proof.
  induction ops as [|o ops IH]; intros db r Hdb Hin.
  - exists r. split; [exact Hin | now left].
  - cbn [run fold_left].
    destruct (exec_revisions o db Hdb) as (pre & new & Hrevs & Hsup & _).
    destruct (Forall2_in_l _ _ _ _ Hsup Hin) as (r1 & Hr1 & Hs1).
    assert (Hin1 : In r1 (db_revisions (snd (exec o db))))
      by (rewrite Hrevs; apply in_or_app; now left).
    destruct (IH _ r1 (Inv_exec o db Hdb) Hin1) as (r' & Hr' & Hs').
    exists r'. split; [exact Hr' | eapply superseded_trans; eauto].
Qed.

(** X19. Revisions are never deleted, and nothing of a revision changes
    but its [current] mark, which only goes away: after any sequence of
    calls on a database that satisfies the invariant, a revision is still
    in the table, as it was or demoted from current; a revision that is not
    current stays exactly as it is. *)
Theorem revision_history_is_kept (ops : list Op) (db : DB) (r : CollectionItemRevision) :
  Inv db ->
  In r (db_revisions db) ->
  (exists r', In r' (db_revisions (run ops db))
              /\ (r' = r \/ (rev_current r = Some true /\ r' = set_current None r)))
  /\ (rev_current r <> Some true -> In r (db_revisions (run ops db))).
Proof.
  intros Hdb Hin.
  destruct (run_history ops db r Hdb Hin) as (r' & Hr' & Hs).
  split; [now exists r'|].
  intro Hc. destruct Hs as [->|[H _]]; [exact Hr' | contradiction].
Qed.

Lemma StronglySorted_snoc (l : list nat) (x : nat) :
  StronglySorted lt l -> Forall (fun y => y < x) l -> StronglySorted lt (l ++ [x]).
Proof.
  induction 1 as [|a l Hs IH Ha]; intro Hx; cbn [app].
  - constructor; constructor.
  - inversion Hx as [|? ? Hax Hlx]; subst. constructor.
    + now apply IH.
    + apply Forall_app. split; [exact Ha | constructor; [exact Hax | constructor]].
Qed.

Lemma superseded_stokens (l l' : list CollectionItemRevision) :
  Forall2 superseded l l' -> map rev_stoken l' = map rev_stoken l.
Proof.
  induction 1 as [|a b l l' Hab H IH]; [reflexivity|].
  cbn [map]. rewrite IH. f_equal. now destruct Hab as [->|[_ ->]].
Qed.

Lemma list_max_extends (l l' : list nat) : extends l l' -> list_max l <= list_max l'.
Proof. intros [m ->]. rewrite list_max_app. lia. Qed.

Lemma sorted_exec (o : Op) (db : DB) :
  Inv db -> rev_stokens_sorted db -> rev_stokens_sorted (snd (exec o db)).
Proof.
  intros Hdb [Hsorted Hmax].
  destruct (exec_revisions o db Hdb) as (pre & new & Hrevs & Hsup & Hnew & Hlen).
  pose proof (exec_grows o db) as (_ & _ & _ & _ & Hst).
  apply list_max_extends in Hst.
  pose proof (superseded_stokens _ _ Hsup) as Hpre.
  assert (Hmaxpre : Forall (fun s => s <= list_max (db_stokens db)) (map rev_stoken pre)).
  { rewrite Hpre. apply Forall_map. exact Hmax. }
  unfold rev_stokens_sorted. rewrite Hrevs, map_app. split.
  - destruct new as [|x [|y new]]; cbn [map].
    + rewrite app_nil_r, Hpre. exact Hsorted.
    + apply StronglySorted_snoc; [now rewrite Hpre|].
      inversion Hnew as [|? ? [Hx _] _]; subst.
      eapply Forall_impl; [|exact Hmaxpre]. cbn. intros; lia.
    + cbn in Hlen. lia.
  - apply Forall_app. split.
    + rewrite Forall_map in Hmaxpre.
      eapply Forall_impl; [|exact Hmaxpre]. cbn. intros; lia.
    + eapply Forall_impl; [|exact Hnew]. cbn. intros r [_ Hin].
      now apply in_list_max.
Qed.

Lemma sorted_run (ops : list Op) :
  forall db, Inv db -> rev_stokens_sorted db -> rev_stokens_sorted (run ops db).
Proof.
  induction ops as [|o ops IH]; intros db Hdb Hs; [exact Hs|].
  cbn [run fold_left]. apply IH; [now apply Inv_exec | now apply sorted_exec].
Qed.

(** X20. In the database any sequence of calls builds, the revisions are
    listed by strictly increasing stoken: no two revisions share a stoken,
    and a revision written later has the larger one. *)
Theorem revision_stokens_increase (ops : list Op) :
  StronglySorted lt (map rev_stoken (db_revisions (run ops empty_db)))
  /\ NoDup (map rev_stoken (db_revisions (run ops empty_db))).
Proof.
  assert (H : rev_stokens_sorted (run ops empty_db)).
  { apply sorted_run; [apply Inv_empty|]. split; constructor. }
  destruct H as [H _]. split; [exact H|].
  induction H as [|a l Hs IH Ha]; constructor; [|exact IH].
  intro Hin. rewrite Forall_forall in Ha. specialize (Ha a Hin). lia.
Qed.

(** ** Memberships *)

Lemma members_get_after_insert (rows : list CollectionMember) (m : CollectionMember)
      (c : Collection) (u : User) :
  member_taken rows (col_id c) u = false ->
  mem_collection m = col_id c ->
  user_eqb (mem_user m) u = true ->
  objects_get (fun x => (mem_collection x =? col_id c) && user_eqb (mem_user x) u)
              (rows ++ [m]) = inr m.
Proof.
  intros Hno Hc Hu. unfold member_taken in Hno.
  apply existsb_false_filter in Hno.
  unfold objects_get. rewrite filter_app, Hno. cbn [app filter].
  now rewrite Hc, Nat.eqb_refl, Hu.
Qed.

Lemma member_lookups (db : DB) (c : Collection) (u : User) (m : CollectionMember) :
  objects_get (fun x => (mem_collection x =? col_id c) && user_eqb (mem_user x) u)
              (db_members db) = inr m ->
  get_access_level_from_context (Some u) c db = (inr (Some (mem_accessLevel m)), db)
  /\ CollectionEncryptionKeyField_get_attribute (Some u) c db
     = (inr (Some (mem_encryptionKey m)), db).
Proof.
  intro H.
  unfold get_access_level_from_context, CollectionEncryptionKeyField_get_attribute,
    Collection_members_get, bind, get_db, lift.
  rewrite H. split; reflexivity.
Qed.

(** X21. After a collection create, the access level the collection
    serializer reports to the owner is ADMIN and the encryption key it
    reports is the key the create was given. *)
Theorem owner_is_admin_after_create (d : CollectionData) (db db' : DB) (c : Collection) :
  CollectionSerializer_create d db = (inr c, db') ->
  get_access_level_from_context (Some (cvd_owner d)) c db' = (inr (Some ADMIN), db')
  /\ CollectionEncryptionKeyField_get_attribute (Some (cvd_owner d)) c db'
     = (inr (Some (cvd_encryptionKey d)), db').
Proof.
  intro H. rewrite CollectionSerializer_create_eq in H.
  destruct (cvd_etag d) as [e|]; [discriminate|].
  destruct (process_revisions_for_item _ _ _) as [[e|rev] db1] eqn:Hp;
    [discriminate|].
  cbv zeta in H.
  destruct (member_taken (db_members db1) (db_next_id db) (cvd_owner d)) eqn:Hno;
    [discriminate|].
  injection H as Hc Hd. subst c db'.
  apply (member_lookups _ _ _ (created_member d db db1)).
  cbn [db_members set_members].
  apply members_get_after_insert.
  - exact Hno.
  - reflexivity.
  - apply Nat.eqb_refl.
Qed.

(** X22. After an invitation is accepted, the access level reported to the
    invited user for the collection is the one of the invitation, and the
    encryption key reported is the key the accept was given. *)
Theorem invited_user_level_after_accept
        (invitation : CollectionInvitation) (key : bytes) (db db' : DB)
        (member : CollectionMember) (c : Collection) :
  col_id c = inv_collection invitation ->
  InvitationAcceptSerializer_create invitation key db = (inr member, db') ->
  get_access_level_from_context (Some (inv_user invitation)) c db'
  = (inr (Some (inv_accessLevel invitation)), db')
  /\ CollectionEncryptionKeyField_get_attribute (Some (inv_user invitation)) c db'
     = (inr (Some key), db').
Proof.
  intros Hc H. rewrite InvitationAcceptSerializer_create_eq in H. cbv zeta in H.
  destruct (member_taken (db_members db) (inv_collection invitation)
              (inv_user invitation)) eqn:Hno; [discriminate|].
  injection H as Hm Hd. subst db'.
  apply (member_lookups _ _ _
           (mkCollectionMember (db_next_id db) (inv_collection invitation)
              (S (list_max (db_stokens db))) (inv_user invitation)
              (inv_accessLevel invitation) key)).
  cbn [db_members]. apply members_get_after_insert.
  - now rewrite Hc.
  - now rewrite Hc.
  - apply Nat.eqb_refl.
Qed.

Lemma AccessLevels_eqb_eq (a b : AccessLevels) : AccessLevels_eqb a b = true <-> a = b.
Proof. destruct a, b; cbn; split; intro H; try discriminate; reflexivity. Qed.

(** X23. Changing the access level of a member to the level it has does
    nothing: no stoken is allocated and the database stays.  Changing it
    to another level, for a stored member of a table with unique keys and
    unique (collection, user) pairs, never raises: it rewrites the row of
    that member alone, with the new level and a new stoken above all
    others, and doing it again does nothing. *)
Theorem member_update_spec
        (instance : CollectionMember) (access_level : AccessLevels) (db : DB) :
  (mem_accessLevel instance = access_level ->
   CollectionMemberSerializer_update instance access_level db = (inr instance, db))
  /\ (mem_accessLevel instance <> access_level ->
      In instance (db_members db) ->
      (forall m, In m (db_members db) ->
                 mem_collection m = mem_collection instance ->
                 user_pk (mem_user m) = user_pk (mem_user instance) ->
                 mem_id m = mem_id instance) ->
      let m' := mkCollectionMember (mem_id instance) (mem_collection instance)
                  (S (list_max (db_stokens db))) (mem_user instance) access_level
                  (mem_encryptionKey instance) in
      let db' := snd (CollectionMemberSerializer_update instance access_level db) in
      CollectionMemberSerializer_update instance access_level db = (inr m', db')
      /\ db_stokens db' = db_stokens db ++ [mem_stoken m']
      /\ db_members db'
         = map (fun y => if mem_id y =? mem_id instance then m' else y) (db_members db)
      /\ CollectionMemberSerializer_update m' access_level db' = (inr m', db')).
Proof.
  split.
  - intro H. rewrite CollectionMemberSerializer_update_eq.
    apply AccessLevels_eqb_eq in H. now rewrite H.
  - intros Hne Hin Huniq. cbv zeta.
    rewrite !CollectionMemberSerializer_update_eq.
    assert (E : AccessLevels_eqb (mem_accessLevel instance) access_level = false).
    { destruct (AccessLevels_eqb _ _) eqn:E; [|reflexivity].
      apply AccessLevels_eqb_eq in E. contradiction. }
    rewrite E. cbn [negb]. cbv zeta.
    assert (Hv : violates_unique_member (db_members db)
                   (mkCollectionMember (mem_id instance) (mem_collection instance)
                      (S (list_max (db_stokens db))) (mem_user instance) access_level
                      (mem_encryptionKey instance)) = false).
    { unfold violates_unique_member, member_taken.
      cbn [mem_id mem_collection mem_user].
      destruct (existsb _ _) eqn:Hex; [|reflexivity].
      apply existsb_exists in Hex. destruct Hex as (m & Hm & Hp).
      apply filter_In in Hm. destruct Hm as [Hm Hid].
      apply andb_true_iff in Hp. destruct Hp as [Hc Hu].
      apply Nat.eqb_eq in Hc. apply Nat.eqb_eq in Hu.
      apply negb_true_iff, Nat.eqb_neq in Hid.
      exfalso. apply Hid. now apply Huniq. }
    rewrite Hv. cbn [snd fst db_stokens db_members set_members set_stokens
                     mem_accessLevel mem_stoken].
    assert (Hex : existsb (fun y => mem_id y =? mem_id instance) (db_members db) = true).
    { apply existsb_exists. exists instance. split; [exact Hin | apply Nat.eqb_refl]. }
    unfold save_by_id. cbn [mem_id]. rewrite Hex.
    repeat split.
    assert (E2 : AccessLevels_eqb access_level access_level = true)
      by now apply AccessLevels_eqb_eq.
    now rewrite E2.
Qed.

(** ** Invitations, issued and accepted *)

(** X24. Nothing at the time of the invitation looks at the memberships of
    the invited user: an invitation to a user who is a member of the
    collection already, the inviter among them, is issued, and accepting
    it then fails with [IntegrityError] and leaves it pending. *)
Theorem invitation_of_a_member_cannot_be_accepted
        (request_user : User) (collection : Collection) (d : InvitationData)
        (db db1 : DB) (invitation : CollectionInvitation) (key : bytes) :
  invite request_user collection d db = (inr invitation, db1) ->
  member_taken (db_members db) (col_id collection) (nvd_user d) = true
  \/ user_pk (nvd_user d) = user_pk request_user ->
  InvitationAcceptSerializer_create invitation key db1 = (inl IntegrityError, db1)
  /\ In invitation (db_invitations db1).
Proof.
  intros H Hmem. rewrite invite_eq, CollectionInvitationSerializer_create_eq in H.
  destruct (objects_get _ (db_members db)) as [e|member] eqn:Hg; [discriminate|].
  cbv zeta in H. injection H as Hi Hd. subst invitation db1.
  apply objects_get_in in Hg. destruct Hg as [Hin Hp].
  apply andb_true_iff in Hp. destruct Hp as [Hc Hu].
  apply Nat.eqb_eq in Hc.
  assert (Htaken : member_taken (db_members db) (mem_collection member) (nvd_user d)
                   = true).
  { destruct Hmem as [Ht|Hself].
    - now rewrite Hc.
    - apply member_taken_iff. exists member. repeat split; auto.
      apply Nat.eqb_eq in Hu. congruence. }
  split.
  - rewrite InvitationAcceptSerializer_create_eq. cbv zeta.
    cbn [db_members set_invitations set_next_id inv_collection inv_user].
    now rewrite Htaken.
  - cbn [db_invitations set_invitations]. apply in_or_app. right. now left.
Qed.

(** X25. An invitation issued to a user who is no member of the
    collection can be accepted: the accept inserts the membership of that
    user in the collection of the inviter, with the access level of the
    invitation and the key of the accept, and leaves the invitation table
    as it was before the invitation was issued. *)
Theorem invite_then_accept
        (request_user : User) (collection : Collection) (d : InvitationData)
        (db db1 : DB) (invitation : CollectionInvitation) (key : bytes) :
  Forall (fun i => inv_id i <> db_next_id db) (db_invitations db) ->
  member_taken (db_members db) (col_id collection) (nvd_user d) = false ->
  invite request_user collection d db = (inr invitation, db1) ->
  exists member db2,
    InvitationAcceptSerializer_create invitation key db1 = (inr member, db2)
    /\ mem_collection member = col_id collection
    /\ mem_user member = nvd_user d
    /\ mem_accessLevel member = nvd_accessLevel d
    /\ mem_encryptionKey member = key
    /\ db_members db2 = db_members db ++ [member]
    /\ db_invitations db2 = db_invitations db.
Proof.
  intros Hfresh Hno H.
  rewrite invite_eq, CollectionInvitationSerializer_create_eq in H.
  destruct (objects_get _ (db_members db)) as [e|inviter] eqn:Hg; [discriminate|].
  cbv zeta in H. injection H as Hi Hd. subst invitation db1.
  apply objects_get_in in Hg. destruct Hg as [Hin Hp].
  apply andb_true_iff in Hp. destruct Hp as [Hc _]. apply Nat.eqb_eq in Hc.
  rewrite InvitationAcceptSerializer_create_eq. cbv zeta.
  cbn [db_members db_invitations db_next_id db_stokens db_collections db_items
       db_chunks db_revisions db_relations set_invitations set_next_id
       inv_collection inv_user inv_accessLevel inv_id].
  rewrite Hc, Hno.
  eexists. eexists. split; [reflexivity|].
  cbn [mem_collection mem_user mem_accessLevel mem_encryptionKey db_members
       db_invitations].
  repeat split.
  rewrite filter_app. cbn [filter inv_id]. rewrite Nat.eqb_refl. cbn [negb].
  rewrite app_nil_r.
  induction (db_invitations db) as [|i l IH]; [reflexivity|].
  inversion Hfresh as [|? ? Hi Hl]; subst. cbn [filter].
  apply Nat.eqb_neq in Hi. rewrite Hi. cbn [negb]. f_equal. now apply IH.
Qed.

(** ** A uid stored twice *)

Lemma uid_count_extends (uid : Uid) (l l' : list CollectionItemChunk) :
  extends l l' ->
  uid_count uid (map chunk_uid l) <= uid_count uid (map chunk_uid l').
Proof. intros [m ->]. rewrite map_app, uid_count_app. lia. Qed.

(** X26. Once two chunk rows carry a uid, which one upload of a uid that
    is stored already brings about, every reference to that uid without
    content fails with [MultipleObjectsReturned], and no later sequence of
    calls mends it. *)
Theorem duplicate_uid_blocks_lookup
        (uid : Uid) (db : DB) (ops : list Op) (item : CollectionItem)
        (rest : list ChunkRef) (objs : list CollectionItemChunk) :
  2 <= uid_count uid (map chunk_uid (db_chunks db)) ->
  store_chunks item ((uid, None) :: rest) objs (run ops db)
  = (inl MultipleObjectsReturned, run ops db).
Proof.
  intro H2.
  pose proof (run_grows ops db) as (_ & _ & Hc & _).
  apply (uid_count_extends uid) in Hc.
  cbn [store_chunks].
  unfold CollectionItemChunk_get, bind, get_db, lift, objects_get.
  pose proof (uid_count_chunks uid (db_chunks (run ops db))) as Hlen.
  destruct (filter (fun c => String.eqb (chunk_uid c) uid) (db_chunks (run ops db)))
    as [|x [|y l]]; cbn [length] in Hlen; try lia.
  reflexivity.
Qed.

(** ** Reading a revision back *)

Lemma filter_unique_id {A : Type} (f : A -> nat) (l : list A) (x : A) :
  NoDup (map f l) -> In x l -> filter (fun y => f y =? f x) l = [x].
Proof.
  induction l as [|a l IH]; intros Hnd Hin; [destruct Hin|].
  cbn [map] in Hnd. inversion Hnd as [|? ? Ha Hl]; subst.
  cbn [filter]. destruct Hin as [->|Hin].
  - rewrite Nat.eqb_refl. f_equal. apply filter_nil_none.
    intros y Hy. apply Nat.eqb_neq. intro E. apply Ha. rewrite <- E.
    now apply in_map.
  - assert (E : (f a =? f x) = false).
    { apply Nat.eqb_neq. intro E. apply Ha. rewrite E. now apply in_map. }
    rewrite E. now apply IH.
Qed.

Lemma NoDup_append {A : Type} (l1 l2 : list A) :
  NoDup l1 -> NoDup l2 -> (forall x, In x l1 -> ~ In x l2) -> NoDup (l1 ++ l2).
Proof.
  induction l1 as [|a l1 IH]; intros H1 H2 Hd; [exact H2|].
  inversion H1 as [|? ? Ha Hl]; subst. cbn [app]. constructor.
  - intro Hin. apply in_app_or in Hin. destruct Hin as [Hin|Hin].
    + now apply Ha.
    + apply (Hd a); [now left | exact Hin].
  - apply IH; auto. intros x Hx. apply Hd. now right.
Qed.

Lemma filter_new_relations (pk : nat) (objs : list CollectionItemChunk) :
  forall k,
    filter (fun rel => rel_revision rel =? pk) (new_relations k pk objs)
    = new_relations k pk objs.
Proof.
  induction objs as [|c rest IH]; intro k; [reflexivity|].
  cbn [new_relations filter rel_revision]. rewrite Nat.eqb_refl. f_equal. apply IH.
Qed.

Lemma represent_new_relations (db : DB) (pk : nat) (objs : list CollectionItemChunk) :
  NoDup (map chunk_id (db_chunks db)) ->
  (forall o, In o objs -> In o (db_chunks db)) ->
  forall k,
    represent_relations db true (new_relations k pk objs)
    = inr (map (ChunksField_to_representation true) objs).
Proof.
  intros Hnd. induction objs as [|c rest IH]; intros Hsub k; [reflexivity|].
  cbn [new_relations represent_relations map].
  unfold relation_chunk at 1. cbn [rel_chunk]. unfold objects_get.
  rewrite (filter_unique_id chunk_id (db_chunks db) c Hnd) by (apply Hsub; now left).
  rewrite IH; [reflexivity|]. intros o Ho. apply Hsub. now right.
Qed.

Lemma ChunksField_many_representation (objs : list CollectionItemChunk) :
  ChunksField_many (map (ChunksField_to_representation true) objs)
  = inr (map (fun o => (chunk_uid o, Some (chunk_chunkFile o))) objs).
Proof.
  induction objs as [|c rest IH]; [reflexivity|].
  cbn [map ChunksField_many]. rewrite IH.
  unfold ChunksField_to_representation, ChunksField_to_internal_value,
    BinaryBase64Field_to_internal_value, BinaryBase64Field_to_representation.
  rewrite list_ascii_of_string_of_list_ascii.
  now rewrite Base64More.b64decode_b64encode.
Qed.

Lemma resolved_with_content (item : CollectionItem) (table : list CollectionItemChunk)
      (refs : list ChunkRef) (objs : list CollectionItemChunk) :
  forallb has_content refs = true ->
  Forall2 (resolves item table) refs objs ->
  map (fun o => (chunk_uid o, Some (chunk_chunkFile o))) objs = refs.
Proof.
  intros Hc H. induction H as [|[uid content] o refs objs Hr H IH]; [reflexivity|].
  cbn [forallb] in Hc. apply andb_true_iff in Hc. destruct Hc as [Hh Hc].
  cbn [map]. rewrite (IH Hc). f_equal.
  destruct Hr as (Hu & _ & Hk). cbn [fst snd] in *.
  destruct content as [content|]; [|discriminate].
  destruct Hk as [_ Hk]. now rewrite Hu, Hk.
Qed.

(** X27. A revision reads back as it was written.  When the primary keys
    of the chunk and join tables are unique and below the sequence, the
    revision [process_revisions_for_item] creates from references with
    content is represented, with inline content, by one array per
    reference in the order given, and the [chunks] field reads those arrays
    back as the references the revision was made from. *)
Theorem revision_chunks_read_back
        (item : CollectionItem) (rd : RevisionData) (db db' : DB)
        (rev : CollectionItemRevision) :
  keys_fresh db ->
  forallb has_content (rd_chunks_relation rd) = true ->
  process_revisions_for_item item rd db = (inr rev, db') ->
  exists out,
    revision_chunks_representation db' true rev = inr out
    /\ length out = length (rd_chunks_relation rd)
    /\ ChunksField_many out = inr (rd_chunks_relation rd).
Proof.
  intros (Hcid & Hcnd & Hrel) Hc Hp.
  apply process_revisions_for_item_inv in Hp.
  destruct Hp as (objs & Hrev & _ & Hdb & Hu & Hid & Hres). cbv zeta in *.
  assert (Hlen : length objs = length (rd_chunks_relation rd)).
  { rewrite <- (length_map chunk_uid objs), Hu. apply length_map. }
  rewrite (stored_all _ Hc objs Hlen) in *.
  exists (map (ChunksField_to_representation true) objs).
  split; [|split].
  - unfold revision_chunks_representation, chunks_relation. subst db'.
    cbn [db_relations]. rewrite Hrev. cbn [rev_id new_revision].
    rewrite filter_app, filter_new_relations.
    rewrite (filter_nil_none _ (db_relations db)).
    + cbn [app]. apply represent_new_relations.
      * cbn [db_chunks]. rewrite map_app. apply NoDup_append.
        -- exact Hcnd.
        -- rewrite Hid. apply seq_NoDup.
        -- intros x Hx Hx'. rewrite Hid in Hx'. apply in_seq in Hx'.
           apply in_map_iff in Hx. destruct Hx as (c & <- & Hcin).
           rewrite Forall_forall in Hcid. specialize (Hcid c Hcin). cbn in Hcid. lia.
      * intros o Ho. cbn [db_chunks]. apply in_or_app. now right.
    + intros rel Hin. rewrite Forall_forall in Hrel. specialize (Hrel rel Hin).
      cbn in Hrel. apply Nat.eqb_neq. lia.
  - now rewrite length_map.
  - rewrite ChunksField_many_representation.
    now rewrite (resolved_with_content item _ _ _ Hc Hres).
Qed.

(** ** The further properties on the worked scenario *)

Section Scenario2Facts.

Open Scope string_scope.
Open Scope list_scope.

Lemma Inv_db_col : Inv db_col.
Proof. unfold db_col. exact (Inv_run [CollectionCreate col_data] empty_db Inv_empty). Qed.

Lemma upsert2_result :
  CollectionItemSerializer_create true item_data2 db_item
  = (inr item_i1, snd (CollectionItemSerializer_create true item_data2 db_item)).
Proof. vm_compute. reflexivity. Qed.

Lemma b64encode_alphabet_witness :
  In "Q"%char (Base64.b64encode [x41]) /\ urlsafe_alphabet "Q"%char = true.
Proof.
  assert (H : In "Q"%char (Base64.b64encode [x41]))
    by (vm_compute; left; reflexivity).
  split; [exact H | exact (Base64More.b64encode_alphabet [x41] "Q"%char H)].
Defined.

Lemma b64encode_injective_witness :
  Base64.b64encode [x01; x02] = Base64.b64encode [x01; x02] /\ [x01; x02] = [x01; x02].
Proof.
  split; [reflexivity|].
  exact (Base64More.b64encode_injective [x01; x02] [x01; x02] eq_refl).
Defined.

Lemma b64decode_non_ascii_witness :
  Base64.b64decode ["a"%char; ascii_of_nat 233] = inl ValueError.
Proof.
  apply (Base64More.b64decode_non_ascii _ (ascii_of_nat 233)).
  - vm_compute. right. left. reflexivity.
  - vm_compute. reflexivity.
Defined.

Lemma b64decode_bad_length_witness :
  Base64.b64decode (list_ascii_of_string "abcde") = inl BinasciiError.
Proof.
  apply Base64Errors.b64decode_bad_length; vm_compute; reflexivity.
Defined.

Lemma uid_field_valid_witness :
  uid_field_valid odd_uid = true /\ uid_class "!"%char = false.
Proof.
  split; [|vm_compute; reflexivity].
  apply (proj2 (uid_field_valid_spec odd_uid)).
  right. split; [vm_compute; reflexivity|]. right. vm_compute. reflexivity.
Defined.

Lemma encoded_uid_is_valid_witness :
  length (Base64.b64encode (repeat x00 32)) = 43
  /\ uid_field_valid (Base64.b64encode (repeat x00 32)) = true.
Proof. apply encoded_uid_is_valid. vm_compute. reflexivity. Defined.

Lemma field_references_upload_witness :
  exists res,
    store_chunks bare_item chunk_refs [] db_col
    = (inr ([] ++ res),
       set_next_id (db_next_id db_col + length chunk_json)
         (set_chunks (db_chunks db_col ++ res) db_col))
    /\ length res = length chunk_json
    /\ map chunk_uid res = map fst chunk_refs.
Proof.
  assert (H : ChunksField_many chunk_json = inr chunk_refs)
    by (vm_compute; reflexivity).
  exact (field_references_upload chunk_json chunk_refs H bare_item [] db_col).
Defined.

Lemma upsert_sets_etag_witness :
  CollectionItem_etag (snd (CollectionItemSerializer_create true item_data2 db_item))
    item_i1
  = Some (rd_uid (ivd_content item_data2))
  /\ rd_uid (ivd_content item_data2) = "r2".
Proof.
  split; [|reflexivity].
  exact (upsert_sets_etag true item_data2 db_item _ item_i1 Inv_db_item upsert2_result).
Defined.

Lemma stale_upsert_is_refused_witness :
  CollectionItemSerializer_create true item_data2
    (snd (CollectionItemSerializer_create true item_data2 db_item))
  = (inl (ValidationError
            (wrong_etag_msg (Some (rd_uid (ivd_content item_data2)))
               (ivd_etag item_data2))),
     snd (CollectionItemSerializer_create true item_data2 db_item)).
Proof.
  apply (stale_upsert_is_refused item_data2 item_data2 db_item _ item_i1
           Inv_db_item upsert2_result eq_refl).
  vm_compute. discriminate.
Defined.

Lemma dep_validate_after_upsert_witness :
  CollectionItemDepSerializer_validate "i1" "r1"
    (snd (CollectionItemSerializer_create true item_data2 db_item))
  = if String.eqb (rd_uid (ivd_content item_data2)) "r1"
    then (inr ("i1", "r1"), snd (CollectionItemSerializer_create true item_data2 db_item))
    else (inl (ValidationError
                 (wrong_etag_msg (Some (rd_uid (ivd_content item_data2))) (Some "r1"))),
          snd (CollectionItemSerializer_create true item_data2 db_item)).
Proof.
  exact (dep_validate_after_upsert true item_data2 db_item _ item_i1 "i1" "r1"
           Inv_db_item eq_refl upsert2_result).
Defined.

Lemma nonstrict_upsert_witness :
  ivd_etag item_data1 <> CollectionItem_etag db_item item_i1
  /\ is_ok (CollectionItemSerializer_create false item_data1 db_item) = true.
Proof.
  split; [vm_compute; discriminate|].
  rewrite (nonstrict_upsert_ignores_etag item_data1 db_item Inv_db_item).
  - vm_compute. reflexivity.
  - vm_compute. repeat constructor.
Defined.

Lemma collection_create_sets_etag_witness :
  Collection_etag db_col col0 = inr (Some (rd_uid (cvd_content col_data))).
Proof.
  apply (collection_create_sets_etag col_data empty_db db_col col0).
  - constructor.
  - vm_compute. reflexivity.
Defined.

Lemma collection_update_witness :
  Collection_etag (snd (CollectionSerializer_update col0 (Some "r0") col_revision2 db_col))
    col0 = inr (Some (rd_uid col_revision2))
  /\ CollectionSerializer_update col0 (Some "r0") col_revision2
       (snd (CollectionSerializer_update col0 (Some "r0") col_revision2 db_col))
     = (inl (ValidationError (wrong_etag_msg (Some (rd_uid col_revision2)) (Some "r0"))),
        snd (CollectionSerializer_update col0 (Some "r0") col_revision2 db_col)).
Proof.
  assert (H : CollectionSerializer_update col0 (Some "r0") col_revision2 db_col
              = (inr col0,
                 snd (CollectionSerializer_update col0 (Some "r0") col_revision2 db_col)))
    by (vm_compute; reflexivity).
  destruct (collection_update_etag_chain col0 col0 (Some "r0") col_revision2 db_col _
              Inv_db_col H) as [H1 H2].
  split; [exact H1|]. apply H2. vm_compute. discriminate.
Defined.

Lemma failed_call_witness :
  fst (exec (ItemUpsert true item_data3) db_item) = Some DoesNotExist
  /\ snd (exec (ItemUpsert true item_data3) db_item) = db_item.
Proof.
  assert (H : fst (exec (ItemUpsert true item_data3) db_item) = Some DoesNotExist)
    by (vm_compute; reflexivity).
  split; [exact H|].
  exact (failed_call_changes_nothing _ _ _ H).
Defined.

Lemma revision_history_witness :
  In revision_r1 (db_revisions db_item)
  /\ exists r', In r' (db_revisions (run [ItemUpsert true item_data2] db_item))
                /\ (r' = revision_r1
                    \/ (rev_current revision_r1 = Some true
                        /\ r' = set_current None revision_r1)).
Proof.
  assert (H : In revision_r1 (db_revisions db_item))
    by (vm_compute; right; left; reflexivity).
  split; [exact H|].
  exact (proj1 (revision_history_is_kept [ItemUpsert true item_data2] db_item
                  revision_r1 Inv_db_item H)).
Defined.

Lemma owner_is_admin_witness :
  get_access_level_from_context (Some (cvd_owner col_data)) col0 db_col
  = (inr (Some ADMIN), db_col).
Proof.
  apply (owner_is_admin_after_create col_data empty_db db_col col0).
  vm_compute. reflexivity.
Defined.

Lemma invited_user_level_witness :
  get_access_level_from_context (Some (inv_user invitation_of_bob)) col0 db_accepted
  = (inr (Some (inv_accessLevel invitation_of_bob)), db_accepted).
Proof.
  apply (invited_user_level_after_accept invitation_of_bob [x0c] db_invited db_accepted
           (mkCollectionMember 9 0 3 bob READ_ONLY [x0c]) col0).
  - reflexivity.
  - vm_compute. reflexivity.
Defined.

Lemma member_update_witness :
  CollectionMemberSerializer_update member_alice ADMIN db_col = (inr member_alice, db_col)
  /\ db_stokens (snd (CollectionMemberSerializer_update member_alice READ_ONLY db_col))
     = db_stokens db_col ++ [S (list_max (db_stokens db_col))].
Proof.
  destruct (member_update_spec member_alice ADMIN db_col) as [H1 _].
  destruct (member_update_spec member_alice READ_ONLY db_col) as [_ H2].
  split; [apply H1; reflexivity|].
  apply H2.
  - vm_compute. discriminate.
  - vm_compute. left. reflexivity.
  - intros m Hm _ _. revert Hm. vm_compute. intros [<-|[]]. reflexivity.
Defined.

Lemma self_invitation_witness :
  InvitationAcceptSerializer_create
    (mkCollectionInvitation 8 "inv0" 0 7 alice READ_WRITE [x0a] 1) [x0c]
    (snd (invite alice col0 self_invitation db_col))
  = (inl IntegrityError, snd (invite alice col0 self_invitation db_col)).
Proof.
  apply (invitation_of_a_member_cannot_be_accepted alice col0 self_invitation db_col).
  - vm_compute. reflexivity.
  - right. reflexivity.
Defined.

Lemma invite_then_accept_witness :
  exists member db2,
    InvitationAcceptSerializer_create invitation_of_bob [x0c] db_invited
    = (inr member, db2)
    /\ mem_collection member = col_id col0
    /\ mem_user member = nvd_user bob_invitation
    /\ mem_accessLevel member = nvd_accessLevel bob_invitation
    /\ mem_encryptionKey member = [x0c]
    /\ db_members db2 = db_members db_col ++ [member]
    /\ db_invitations db2 = db_invitations db_col.
Proof.
  apply (invite_then_accept alice col0 bob_invitation db_col db_invited
           invitation_of_bob [x0c]).
  - vm_compute. constructor.
  - vm_compute. reflexivity.
  - vm_compute. reflexivity.
Defined.

Lemma duplicate_uid_witness :
  store_chunks bare_item [("c3", None)] [] (run [] db_dup)
  = (inl MultipleObjectsReturned, run [] db_dup).
Proof.
  apply duplicate_uid_blocks_lookup. vm_compute. constructor.
Defined.

Lemma keys_fresh_db_col : keys_fresh db_col.
Proof.
  unfold keys_fresh. vm_compute. repeat split.
  - repeat constructor.
  - constructor; [intros [H|[]]; discriminate|].
    constructor; [intros []|constructor].
  - repeat constructor.
Qed.

Lemma revision_chunks_read_back_witness :
  exists out,
    revision_chunks_representation
      (snd (process_revisions_for_item bare_item (ivd_content item_data2) db_col))
      true (mkCollectionItemRevision 9 "r2" 50 3 [] false (Some true))
    = inr out
    /\ length out = length (rd_chunks_relation (ivd_content item_data2))
    /\ ChunksField_many out = inr (rd_chunks_relation (ivd_content item_data2)).
Proof.
  apply (revision_chunks_read_back bare_item (ivd_content item_data2) db_col).
  - exact keys_fresh_db_col.
  - vm_compute. reflexivity.
  - vm_compute. reflexivity.
Defined.

End Scenario2Facts.
